(** * Property marshalling and output resolution of the Pulumi Python SDK

    A shallow embedding of [sdk/python/lib/pulumi/runtime/rpc.py]:
    the serializer ([serialize_property], [serialize_properties]), the
    deserializer ([deserialize_property], [deserialize_properties]), the
    hydration pass ([translate_output_properties]) and the resolution of a
    resource's output slots ([do_resolve], [resolve_outputs],
    [resolve_outputs_due_to_exception]), followed by the binding of these
    slots ([transfer_properties]) and the search for unknowns
    ([contains_unknowns]).

    Conventions of the embedding:
    - Python objects are terms of [pyval]; a Python [dict] is an association
      list in insertion order whose assignment [d[k] = v] is [dict_set];
    - protobuf messages ([struct_pb2.Struct], [ListValue] and the scalars a
      [Value] holds) are terms of [wire];
    - a coroutine is a function in the state-and-exception monad [M]: the
      state is whatever the Python code mutates in place (the [deps] list,
      the [property_deps] dict, the table of futures), the result is either a
      value or the exception that was raised;
    - an awaitable is represented by its outcome, so every [await] returns or
      raises: awaitables that never complete are outside the model; the
      [resources()], [_is_known] and [_is_secret] of an [Output] are given by
      the values they resolve to;
    - a number is given by its value, an integer: [PNum n] is the [int] [n]
      before it goes on the wire and the [float] of that value after it (the
      two are equal in Python); a [number_value] holds a double, so [to_wire]
      rounds as [float(n)] does and raises [OverflowError] where [float(n)]
      does; numbers with a fractional part are outside the model;
    - collaborators are represented by what this module asks of them: the
      settings by three booleans, a resource by its class and its
      [translate_output_property], a class by its name and declared
      properties and their hints (a class that declares them), the asset
      and archive constructors by the attribute they set (the type checks
      they make on their argument are outside the model), an output type's
      constructor by [PInstance]. The output types of the repository subclass
      [dict]: an instance [PInstance cls (PDict items)] passes every
      [isinstance(value, dict)] test of the module and is read through its
      items, as a plain dict is. *)

From Stdlib Require Import ZArith.
From stdpp Require Import gmap strings list.

Set Warnings "-register-all".

Open Scope string_scope.
Open Scope list_scope.

(** ** Exceptions and the coroutine monad *)

Inductive exn : Type :=
| AssertionError (msg : string)
| ValueError (msg : string)
| KeyError (key : string)
| AttributeError (msg : string)
| InvalidStateError (msg : string)
| RuntimeError (msg : string)
| OverflowError (msg : string).

Inductive result (A : Type) : Type :=
| Ok (a : A)
| Raise (e : exn).
Arguments Ok {A} a.
Arguments Raise {A} e.

Definition M (S A : Type) : Type := S -> result A * S.

Definition ret {S A} (a : A) : M S A := fun s => (Ok a, s).

Definition raise {S A} (e : exn) : M S A := fun s => (Raise e, s).

Definition bind {S A B} (c : M S A) (k : A -> M S B) : M S B :=
  fun s => match c s with
           | (Ok a, s') => k a s'
           | (Raise e, s') => (Raise e, s')
           end.

Definition modify {S} (f : S -> S) : M S unit := fun s => (Ok tt, f s).

Definition lift {S A} (r : result A) : M S A := fun s => (r, s).

Notation "'do' x <- c ; k" := (bind c (fun x => k))
  (at level 10, x name, c at level 100, k at level 200).
Notation "'exec' c ; k" := (bind c (fun _ => k))
  (at level 10, c at level 100, k at level 200).

(** [[f(x) for x in l]] and [for x in l: props.append(await f(x))]. *)
Definition mapM {S A B} (f : A -> M S B) : list A -> M S (list B) :=
  fix go (l : list A) : M S (list B) :=
    match l with
    | [] => ret []
    | x :: l' => do y <- f x; do ys <- go l'; ret (y :: ys)
    end.

(** [for x in l: body(x)]. *)
Definition forM {S A} (f : A -> M S unit) : list A -> M S unit :=
  fix go (l : list A) : M S unit :=
    match l with
    | [] => ret tt
    | x :: l' => exec f x; go l'
    end.

(** ** Python dictionaries *)

Section Dict.
Context {A : Type}.

Fixpoint dict_get (k : string) (d : list (string * A)) : option A :=
  match d with
  | [] => None
  | (k', v) :: d' => if String.eqb k k' then Some v else dict_get k d'
  end.

Definition dict_has (k : string) (d : list (string * A)) : bool :=
  match dict_get k d with Some _ => true | None => false end.

(** [d[k] = v]: an existing key keeps its position, a new key goes last. *)
Fixpoint dict_set (k : string) (v : A) (d : list (string * A)) : list (string * A) :=
  match d with
  | [] => [(k, v)]
  | (k', v') :: d' =>
      if String.eqb k k' then (k, v) :: d' else (k', v') :: dict_set k v d'
  end.

Definition dict_keys (d : list (string * A)) : list string := map fst d.

Definition dict_values (d : list (string * A)) : list A := map snd d.
End Dict.

(** [obj = {}; for k, v in items: obj[key(k)] = await f(v)], started from [obj]. *)
Definition dict_buildM {S A B} (key : string -> string) (f : A -> M S B)
  : list (string * A) -> list (string * B) -> M S (list (string * B)) :=
  fix go (items : list (string * A)) (obj : list (string * B)) : M S (list (string * B)) :=
    match items with
    | [] => ret obj
    | (k, v) :: items' => do y <- f v; go items' (dict_set (key k) y obj)
    end.

(** ** Python values *)

(** An entity of the deployment (a resource object), named by its URN. *)
Definition resource : Type := string.

Inductive pyval : Type :=
| PNone
| PBool (b : bool)
| PNum (n : Z)
| PStr (s : string)
| PList (elems : list pyval)
| PDict (items : list (string * pyval))
(** an instance of [pulumi.output.Unknown] *)
| PUnknown
(** a [CustomResource] and its [id] attribute *)
| PCustomResource (urn : resource) (id : pyval)
(** an [Asset]: each field is [Some] when [hasattr] finds the attribute *)
| PAsset (path text uri : option pyval)
(** an [Archive], likewise *)
| PArchive (assets path uri : option pyval)
(** a coroutine or future that completes with a value *)
| PAwaitable (outcome : pyval)
(** a coroutine or future that completes by raising *)
| PFailed (e : exn)
(** an [Output]: [resources()], [_is_known], [_is_secret] and [future()] *)
| POutput (resources : list resource) (is_known is_secret : bool) (future : pyval)
(** an instance of an input type; [to_dict] is what its class's [_to_dict]
    returns for it, [None] when the class has no callable [_to_dict] *)
| PInputType (cls : string) (to_dict : option pyval)
(** an instance of an output type, built by calling the class on a dict *)
| PInstance (cls : string) (arg : pyval)
(** an object of any other class *)
| PObject (cls : string).

(** [type(value).__name__] *)
Definition type_name (value : pyval) : string :=
  match value with
  | PNone => "NoneType"
  | PBool _ => "bool"
  | PNum _ => "int"
  | PStr _ => "str"
  | PList _ => "list"
  | PDict _ => "dict"
  | PUnknown => "Unknown"
  | PCustomResource _ _ => "CustomResource"
  | PAsset _ _ _ => "Asset"
  | PArchive _ _ _ => "Archive"
  | PAwaitable _ | PFailed _ => "Future"
  | POutput _ _ _ _ => "Output"
  | PInputType cls _ | PInstance cls _ | PObject cls => cls
  end.

(** ** Constants of the wire protocol *)

Definition UNKNOWN : string := "04da6b54-80e4-46f7-96ec-b56ff0331ba9".
Definition _special_sig_key : string := "4dabf18193072939515e22adb298388d".
Definition _special_asset_sig : string := "c44067f5952c0a294b673a41bacd8c17".
Definition _special_archive_sig : string := "0def7320c3a5731c473e5ecbe6d01bc7".
Definition _special_secret_sig : string := "1b47061264138c4ac30d75fd1eb44270".

(** ** The settings module, as far as rpc.py consults it *)

Record settings : Type := {
  is_dry_run : bool;
  is_legacy_apply_enabled : bool;
  monitor_supports_secrets : bool
}.

(** The instances of output types are dicts, so [isinstance(value, dict)]
    holds of them as of the plain dicts, here and below. *)
Definition isLegalProtobufValue (value : pyval) : bool :=
  match value with
  | PNone | PBool _ | PStr _ | PNum _ | PDict _ | PList _ => true
  | PInstance _ (PDict _) => true
  | _ => false
  end.

(** ** Serializer *)

Section Serializer.
Variable env : settings.
Variable input_transformer : option (string -> string).

Definition transform_key (transform_keys : bool) (k : string) : string :=
  match input_transformer with
  | Some f => if transform_keys then f k else k
  | None => k
  end.

Fixpoint serialize_property (value : pyval) : M (list resource) pyval :=
  match value with
  | PList elems =>
      do props <- mapM serialize_property elems;
      ret (PList props)
  | PUnknown => ret (PStr UNKNOWN)
  | PCustomResource urn id =>
      exec modify (fun deps => deps ++ [urn]);
      serialize_property id
  | PAsset path text uri =>
      let obj := [(_special_sig_key, PStr _special_asset_sig)] in
      match path, text, uri with
      | Some p, _, _ => do w <- serialize_property p; ret (PDict (dict_set "path" w obj))
      | None, Some t, _ => do w <- serialize_property t; ret (PDict (dict_set "text" w obj))
      | None, None, Some u => do w <- serialize_property u; ret (PDict (dict_set "uri" w obj))
      | None, None, None => raise (AssertionError "unknown asset type")
      end
  | PArchive assets path uri =>
      let obj := [(_special_sig_key, PStr _special_archive_sig)] in
      match assets, path, uri with
      | Some a, _, _ => do w <- serialize_property a; ret (PDict (dict_set "assets" w obj))
      | None, Some p, _ => do w <- serialize_property p; ret (PDict (dict_set "path" w obj))
      | None, None, Some u => do w <- serialize_property u; ret (PDict (dict_set "uri" w obj))
      | None, None, None => raise (AssertionError "unknown archive type")
      end
  | PAwaitable future_return => serialize_property future_return
  | PFailed e => raise e
  | POutput value_resources is_known is_secret future =>
      exec modify (fun deps => deps ++ value_resources);
      do value <- serialize_property future;
      if negb is_known then ret (PStr UNKNOWN)
      else if is_secret && monitor_supports_secrets env then
        ret (PDict [(_special_sig_key, PStr _special_secret_sig); ("value", value)])
      else ret value
  | PInputType cls to_dict =>
      match to_dict with
      | None => raise (AssertionError "to_dict is not None")
      | Some (PDict items) | Some (PInstance _ (PDict items)) =>
          do obj <- dict_buildM (transform_key false) serialize_property items [];
          ret (PDict obj)
      | Some value =>
          if isLegalProtobufValue value then ret value
          else raise (ValueError (String.append "unexpected input of type " (type_name value)))
      end
  | PDict items | PInstance _ (PDict items) =>
      do obj <- dict_buildM (transform_key true) serialize_property items [];
      ret (PDict obj)
  | _ =>
      if isLegalProtobufValue value then ret value
      else raise (ValueError (String.append "unexpected input of type " (type_name value)))
  end.
End Serializer.

(** ** Exceptions without state *)

Definition rbind {A B} (c : result A) (k : A -> result B) : result B :=
  match c with
  | Ok a => k a
  | Raise e => Raise e
  end.

Notation "'try' x <- c ; k" := (rbind c (fun x => k))
  (at level 10, x name, c at level 100, k at level 200).

Definition mapR {A B} (f : A -> result B) : list A -> result (list B) :=
  fix go (l : list A) : result (list B) :=
    match l with
    | [] => Ok []
    | x :: l' => try y <- f x; try ys <- go l'; Ok (y :: ys)
    end.

(** [obj = {...}; for k, v in items: y = f(v); if keep(y): obj[k] = y]. *)
Definition dict_buildR {A B} (f : A -> result B) (keep : B -> bool)
  : list (string * A) -> list (string * B) -> result (list (string * B)) :=
  fix go (items : list (string * A)) (obj : list (string * B)) : result (list (string * B)) :=
    match items with
    | [] => Ok obj
    | (k, v) :: items' =>
        try y <- f v;
        go items' (if keep y then dict_set k y obj else obj)
    end.

(** [f(d[k])] when [k in d]. *)
Definition dict_get_with {A B} (f : A -> B) (k : string) : list (string * A) -> option B :=
  fix go (d : list (string * A)) : option B :=
    match d with
    | [] => None
    | (k', v) :: d' => if String.eqb k k' then Some (f v) else go d'
    end.

(** ** Protobuf values *)

(** What Python sees of a [google.protobuf.Value]: [None], a [bool], a
    number (the value of the double), a [str], a [ListValue] or a [Struct].
    The fields of a [Struct] are listed in the order in which [items()]
    yields them. *)
Inductive wire : Type :=
| WNull
| WBool (b : bool)
| WNum (n : Z)
| WStr (s : string)
| WList (values : list wire)
| WStruct (fields : list (string * wire)).

(** [float(n)]: the double nearest to the integer [n], ties going to the
    even significand of 53 bits; an integer of magnitude up to [2^53] is its
    own double, and one that rounds to [2^1024] or beyond has none. The
    nearest double of an integer is an integer, which is what is returned. *)
Definition double_of_int (n : Z) : result Z :=
  let a := Z.abs n in
  if (a <=? 2 ^ 53)%Z then Ok n
  else
    let e := (Z.log2 a - 52)%Z in
    let q := Z.shiftr a e in
    let r := (a mod 2 ^ e)%Z in
    let half := (2 ^ (e - 1))%Z in
    let q' := if (half <? r)%Z || ((r =? half)%Z && Z.odd q) then (q + 1)%Z else q in
    let m := Z.shiftl q' e in
    if (2 ^ 1024 <=? m)%Z then Raise (OverflowError "int too large to convert to float")
    else Ok (Z.sgn n * m)%Z.

(** [struct[key] = value] of [struct_pb2.Struct] converts a Python value to a
    [Value] (protobuf's [_SetStructValue]); this is how the result of
    [serialize_property] enters the [Struct] that goes on the wire. A number
    is stored in [number_value], a double. *)
Fixpoint to_wire (value : pyval) : result wire :=
  match value with
  | PNone => Ok WNull
  | PBool b => Ok (WBool b)
  | PStr s => Ok (WStr s)
  | PNum n => try d <- double_of_int n; Ok (WNum d)
  | PDict items =>
      try fields <- dict_buildR to_wire (fun _ => true) items [];
      Ok (WStruct fields)
  | PList elems =>
      try values <- mapR to_wire elems;
      Ok (WList values)
  | _ => Raise (ValueError "Unexpected type")
  end.

(** A protobuf value handed on unchanged: scalars are Python scalars, a
    message stays the protobuf object it is. *)
Definition identity_projected (value : wire) : pyval :=
  match value with
  | WNull => PNone
  | WBool b => PBool b
  | WNum n => PNum n
  | WStr s => PStr s
  | WList _ => PObject "ListValue"
  | WStruct _ => PObject "Struct"
  end.

(** [value is None] *)
Definition is_none (value : pyval) : bool :=
  match value with
  | PNone => true
  | _ => false
  end.

Section SerializeProperties.
Variable env : settings.
Variable input_transformer : option (string -> string).

(** [deps = []; result = await serialize_property(v, deps, ...)] *)
Definition with_fresh_deps {S A} (c : M (list resource) A) : M S (A * list resource) :=
  fun s => match c [] with
           | (Ok a, deps) => (Ok (a, deps), s)
           | (Raise e, _) => (Raise e, s)
           end.

Definition translated_name (k : string) : string :=
  match input_transformer with
  | Some f => f k
  | None => k
  end.

(** Body of the loop: one property of [inputs]. *)
Definition serialize_properties_step (k : string) (v : pyval)
    (struct : list (string * wire))
  : M (list (string * list resource)) (list (string * wire)) :=
  do rd <- with_fresh_deps (serialize_property env input_transformer v);
  let result := fst rd in
  let deps := snd rd in
  if is_none result then ret struct
  else
    do w <- lift (to_wire result);
    exec modify (dict_set (translated_name k) deps);
    ret (dict_set (translated_name k) w struct).

Fixpoint serialize_properties_loop (inputs : list (string * pyval))
    (struct : list (string * wire))
  : M (list (string * list resource)) (list (string * wire)) :=
  match inputs with
  | [] => ret struct
  | (k, v) :: inputs' =>
      do struct' <- serialize_properties_step k v struct;
      serialize_properties_loop inputs' struct'
  end.

(** The state is the [property_deps] dict the caller passes in. *)
Definition serialize_properties (inputs : list (string * pyval))
  : M (list (string * list resource)) wire :=
  do struct <- serialize_properties_loop inputs [];
  ret (WStruct struct).
End SerializeProperties.

(** ** Deserializer *)

(** [value == s] for a Python value and a [str] constant. *)
Definition py_eq_str (value : pyval) (s : string) : bool :=
  match value with
  | PStr s' => String.eqb s' s
  | _ => false
  end.

Definition wire_eq_str (value : wire) (s : string) : bool :=
  match value with
  | WStr s' => String.eqb s' s
  | _ => false
  end.

Definition is_rpc_secret (value : pyval) : bool :=
  match value with
  | PDict items | PInstance _ (PDict items) =>
      match dict_get _special_sig_key items with
      | Some sig => py_eq_str sig _special_secret_sig
      | None => false
      end
  | _ => false
  end.

(** [value[key]] on a dict *)
Definition getitem (value : pyval) (key : string) : result pyval :=
  match value with
  | PDict items | PInstance _ (PDict items) =>
      match dict_get key items with
      | Some v => Ok v
      | None => Raise (KeyError key)
      end
  | _ => Raise (KeyError key)
  end.

Definition unwrap_rpc_secret (value : pyval) : result pyval :=
  if is_rpc_secret value then getitem value "value" else Ok value.

Definition secret_wrapper (payload : pyval) : pyval :=
  PDict [(_special_sig_key, PStr _special_secret_sig); ("value", payload)].

(** Truth value of [keep_unknowns : Optional[bool]] *)
Definition truthy (keep_unknowns : option bool) : bool :=
  match keep_unknowns with
  | Some b => b
  | None => false
  end.

Section Deserializer.
Variable env : settings.

(** The body of [deserialize_properties], open in its recursive call to
    [deserialize_property]; the knot is tied below. *)
Definition deserialize_properties_of
    (deserialize_property : wire -> option bool -> result pyval)
    (props_struct : list (string * wire)) (keep_unknowns : option bool) : result pyval :=
  match dict_get _special_sig_key props_struct with
  | Some sig =>
      if wire_eq_str sig _special_asset_sig then
        match dict_get "path" props_struct, dict_get "text" props_struct,
              dict_get "uri" props_struct with
        | Some p, _, _ => Ok (PAsset (Some (identity_projected p)) None None)
        | None, Some t, _ => Ok (PAsset None (Some (identity_projected t)) None)
        | None, None, Some u => Ok (PAsset None None (Some (identity_projected u)))
        | None, None, None =>
            Raise (AssertionError
              "Invalid asset encountered when unmarshalling resource property")
        end
      else if wire_eq_str sig _special_archive_sig then
        match dict_get_with (fun a => deserialize_property a None) "assets" props_struct,
              dict_get "path" props_struct, dict_get "uri" props_struct with
        | Some a, _, _ => try assets <- a; Ok (PArchive (Some assets) None None)
        | None, Some p, _ => Ok (PArchive None (Some (identity_projected p)) None)
        | None, None, Some u => Ok (PArchive None None (Some (identity_projected u)))
        | None, None, None =>
            Raise (AssertionError
              "Invalid archive encountered when unmarshalling resource property")
        end
      else if wire_eq_str sig _special_secret_sig then
        match dict_get_with (fun a => deserialize_property a None) "value" props_struct with
        | Some a => try payload <- a; Ok (secret_wrapper payload)
        | None => Raise (ValueError "Value not set")
        end
      else
        Raise (AssertionError
          "Unrecognized signature when unmarshalling resource property")
  | None =>
      try output <-
        dict_buildR (fun v => deserialize_property v keep_unknowns)
          (fun value => negb (is_none value)) props_struct [];
      Ok (PDict output)
  end.

Fixpoint deserialize_property (value : wire) (keep_unknowns : option bool) {struct value}
  : result pyval :=
  match value with
  | WStr s =>
      if String.eqb s UNKNOWN then
        Ok (if is_dry_run env || truthy keep_unknowns then PUnknown else PNone)
      else Ok (PStr s)
  | WList vs =>
      try values <- mapR (fun v => deserialize_property v keep_unknowns) vs;
      if existsb is_rpc_secret values then
        try raw <- mapR unwrap_rpc_secret values;
        Ok (secret_wrapper (PList raw))
      else Ok (PList values)
  | WStruct fields =>
      try props <- deserialize_properties_of deserialize_property fields keep_unknowns;
      match props with
      | PDict items =>
          if existsb is_rpc_secret (dict_values items) then
            try raw <- dict_buildR unwrap_rpc_secret (fun _ => true) items [];
            Ok (secret_wrapper (PDict raw))
          else Ok props
      | _ => Ok props
      end
  | _ => Ok (identity_projected value)
  end.

(** [props_struct] is given by the fields of the [Struct]. *)
Definition deserialize_properties (props_struct : list (string * wire))
    (keep_unknowns : option bool) : result pyval :=
  deserialize_properties_of deserialize_property props_struct keep_unknowns.
End Deserializer.

(** ** Declared types and hydration *)

(** Type objects as [typing] presents them. [TAlias origin args] is a
    subscripted generic with [_get_origin] and [_get_args] as given:
    [Optional[T]] is [TAlias "Union" [T; TNoneType]], [Dict[str, T]] is
    [TAlias "dict" [TClass "str"; T]], [List[T]] is [TAlias "list" [T]],
    [Output[T]] is [TAlias "Output" [T]]. An output type and a [Resource]
    subclass carry their properties: Python name, property name, type hint. *)
Inductive pytype : Type :=
| TNoneType
| TClass (name : string)
| TAlias (origin : string) (args : list pytype)
| TOutputType (name : string) (props : list (string * (string * pytype)))
| TResource (name : string) (props : list (string * (string * pytype))).

Definition _get_origin (tp : pytype) : option string :=
  match tp with
  | TAlias origin _ => Some origin
  | _ => None
  end.

Definition _get_args (tp : pytype) : list pytype :=
  match tp with
  | TAlias _ args => args
  | _ => []
  end.

Definition _is_union_type (tp : pytype) : bool :=
  match tp with
  | TAlias origin _ => String.eqb origin "Union"
  | _ => false
  end.

Fixpoint _is_optional_type (tp : pytype) : bool :=
  match tp with
  | TNoneType => true
  | TAlias _ args => _is_union_type tp && existsb _is_optional_type args
  | _ => false
  end.

Definition _is_output_type (cls : pytype) : bool :=
  match cls with
  | TOutputType _ _ => true
  | _ => false
  end.

Definition is_NoneType (tp : pytype) : bool :=
  match tp with
  | TNoneType => true
  | _ => false
  end.

Definition is_str (tp : pytype) : bool :=
  match tp with
  | TClass name => String.eqb name "str"
  | _ => false
  end.

(** [args = _get_args(typ); assert len(args) == 2;
    assert args[1] is type(None); typ = args[0]] *)
Definition unwrap_optional (typ : pytype) : result pytype :=
  match _get_args typ with
  | [t; none] =>
      if is_NoneType none then Ok t
      else Raise (AssertionError "args[1] is type(None)")
  | _ => Raise (AssertionError "len(args) == 2")
  end.

(** The local function [unwrap] of [_output_types] *)
Definition unwrap (val : pytype) : result pytype :=
  try val <-
    match val with
    | TAlias origin args =>
        if String.eqb origin "Output" then
          match args with
          | [t] => Ok t
          | _ => Raise (AssertionError "len(args) == 1")
          end
        else Ok val
    | _ => Ok val
    end;
  if _is_optional_type val then unwrap_optional val else Ok val.

Fixpoint _output_types_loop (props : list (string * (string * pytype)))
    (types : list (string * pytype)) : result (list (string * pytype)) :=
  match props with
  | [] => Ok types
  | (name, (prop_name, hint)) :: props' =>
      try t <- unwrap hint;
      _output_types_loop props' (dict_set prop_name t types)
  end.

Definition _output_types (cls : pytype) : result (list (string * pytype)) :=
  match cls with
  | TOutputType _ props => _output_types_loop props []
  | TResource _ props => _output_types_loop props []
  | _ => Ok []
  end.

(** [{key(k): f(k, v) for k, v in items}] *)
Definition dict_compR {A B} (key : string -> string) (f : string -> A -> result B)
  : list (string * A) -> list (string * B) -> result (list (string * B)) :=
  fix go (items : list (string * A)) (obj : list (string * B)) : result (list (string * B)) :=
    match items with
    | [] => Ok obj
    | (k, v) :: items' =>
        try y <- f k v;
        go items' (dict_set (key k) y obj)
    end.

(** The resource as this module uses it: its class and its
    [translate_output_property] method. *)
Record resource_obj : Type := {
  res_type : pytype;
  translate_output_property : string -> string
}.

Definition class_name (cls : pytype) : string :=
  match cls with
  | TNoneType => "NoneType"
  | TClass name | TOutputType name _ | TResource name _ => name
  | TAlias origin _ => origin
  end.

Section Hydration.
Variable res : resource_obj.

Fixpoint translate_output_properties (output : pyval) (typ : option pytype) {struct output}
  : result pyval :=
  try typ <-
    match typ with
    | Some t =>
        if _is_optional_type t then try t' <- unwrap_optional t; Ok (Some t')
        else Ok typ
    | None => Ok None
    end;
  match output with
  | PDict items | PInstance _ (PDict items) =>
      try get_type <-
        match typ with
        | Some t =>
            if _is_output_type t then
              try types <- _output_types t;
              Ok (fun k => dict_get k types)
            else
              match _get_args t with
              | [a; b] => Ok (fun k : string => if is_str a then Some b else None)
              | _ => Ok (fun k : string => None)
              end
        | None => Ok (fun k : string => None)
        end;
      try translated <-
        dict_compR (translate_output_property res)
          (fun k v => translate_output_properties v (get_type k)) items [];
      match typ with
      | Some t =>
          if _is_output_type t then Ok (PInstance (class_name t) (PDict translated))
          else Ok (PDict translated)
      | None => Ok (PDict translated)
      end
  | PList elems =>
      let element_type :=
        match typ with
        | Some t =>
            match _get_args t with
            | [a] => Some a
            | _ => None
            end
        | None => None
        end in
      try translated <- mapR (fun v => translate_output_properties v element_type) elems;
      Ok (PList translated)
  | _ => Ok output
  end.
End Hydration.

(** ** Output slots *)

(** The futures of the event loop, by identity. A future that has no entry
    is still pending; [Done] and [Failed] are what [set_result] and
    [set_exception] leave behind. *)
Inductive outcome : Type :=
| Done (value : pyval)
| Failed (e : exn).

(** A future is named by a number. *)
Abbreviation future := nat.

Definition set_result (fut : future) (value : pyval) : M (gmap nat outcome) unit :=
  fun loop =>
    match loop !! fut with
    | None => (Ok tt, <[fut := Done value]> loop)
    | Some _ => (Raise (InvalidStateError "invalid state"), loop)
    end.

Definition set_exception (fut : future) (e : exn) : M (gmap nat outcome) unit :=
  fun loop =>
    match loop !! fut with
    | None => (Ok tt, <[fut := Failed e]> loop)
    | Some _ => (Raise (InvalidStateError "invalid state"), loop)
    end.

(** [await fut]: [None] while the reader stays suspended. *)
Definition await (loop : gmap nat outcome) (fut : future) : option (result pyval) :=
  match loop !! fut with
  | None => None
  | Some (Done value) => Some (Ok value)
  | Some (Failed e) => Some (Raise e)
  end.

Definition do_resolve (value_fut known_fut secret_fut : future)
    (value : pyval) (is_known is_secret : bool) (failed : option exn)
  : M (gmap nat outcome) unit :=
  match failed with
  | Some e =>
      exec set_exception value_fut e;
      exec set_exception known_fut e;
      set_exception secret_fut e
  | None =>
      exec set_result value_fut value;
      exec set_result known_fut (PBool is_known);
      set_result secret_fut (PBool is_secret)
  end.

(** A resolver is [functools.partial(do_resolve, resolve_value,
    resolve_is_known, resolve_is_secret)]: the three futures of one slot. *)
Record Resolver : Type := {
  resolve_value : future;
  resolve_is_known : future;
  resolve_is_secret : future
}.

Definition resolve (r : Resolver) : pyval -> bool -> bool -> option exn -> M (gmap nat outcome) unit :=
  do_resolve (resolve_value r) (resolve_is_known r) (resolve_is_secret r).

Definition is_id_or_urn (key : string) : bool :=
  String.eqb key "id" || String.eqb key "urn".

Section ResolveOutputs.
Variable env : settings.
Variable res : resource_obj.

(** First loop of [resolve_outputs]: the engine's outputs. *)
Fixpoint outputs_loop (types : list (string * pytype)) (items : list (string * pyval))
    (all_properties : list (string * pyval)) : result (list (string * pyval)) :=
  match items with
  | [] => Ok all_properties
  | (key, value) :: items' =>
      let translated_key := translate_output_property res key in
      try translated_value <- translate_output_properties res value (dict_get key types);
      outputs_loop types items' (dict_set translated_key translated_value all_properties)
  end.

(** Second loop: the inputs the engine gave no final value for. *)
Fixpoint inputs_loop (types : list (string * pytype)) (items : list (string * wire))
    (all_properties : list (string * pyval)) : result (list (string * pyval)) :=
  match items with
  | [] => Ok all_properties
  | (key, value) :: items' =>
      let translated_key := translate_output_property res key in
      if dict_has translated_key all_properties then inputs_loop types items' all_properties
      else
        try deserialized <- deserialize_property env value None;
        try translated_value <-
          translate_output_properties res deserialized (dict_get key types);
        inputs_loop types items' (dict_set translated_key translated_value all_properties)
  end.

(** The dict [all_properties] as it stands when the resolvers are called. *)
Definition all_properties_of (serialized_props outputs : list (string * wire))
  : result (list (string * pyval)) :=
  try types <- _output_types (res_type res);
  try props <- deserialize_properties env outputs None;
  try items <-
    match props with
    | PDict items => Ok items
    | _ => Raise (AttributeError "items")
    end;
  try all_properties <- outputs_loop types items [];
  if negb (is_dry_run env) || is_legacy_apply_enabled env then
    inputs_loop types serialized_props all_properties
  else Ok all_properties.

(** Body of the third loop. *)
Definition resolve_property (resolvers : list (string * Resolver))
    (item : string * pyval) : M (gmap nat outcome) unit :=
  let (key, value) := item in
  if is_id_or_urn key then ret tt
  else
    match dict_get key resolvers with
    | None => ret tt
    | Some r =>
        do secret_value <-
          lift (if is_rpc_secret value
                then try v <- getitem value "value"; Ok (true, v)
                else Ok (false, value));
        let is_secret := fst secret_value in
        let value := snd secret_value in
        if negb (is_dry_run env) then resolve r value true is_secret None
        else resolve r value (negb (is_none value)) is_secret None
    end.

(** Body of the last loop. *)
Definition resolve_missing (all_properties : list (string * pyval))
    (item : string * Resolver) : M (gmap nat outcome) unit :=
  let (key, r) := item in
  if dict_has key all_properties then ret tt
  else resolve r PNone (negb (is_dry_run env)) false None.

Definition resolve_outputs (serialized_props outputs : list (string * wire))
    (resolvers : list (string * Resolver)) : M (gmap nat outcome) unit :=
  do all_properties <- lift (all_properties_of serialized_props outputs);
  exec forM (resolve_property resolvers) all_properties;
  forM (resolve_missing all_properties) resolvers.
End ResolveOutputs.

Definition resolve_outputs_due_to_exception (resolvers : list (string * Resolver)) (exn : exn)
  : M (gmap nat outcome) unit :=
  forM (fun item : string * Resolver => resolve (snd item) PNone false false (Some exn)) resolvers.


(** ** Binding the output slots of a resource *)

(** The part of the program state that [transfer_properties] changes: how
    many futures [asyncio.Future()] has created so far (a new future is named
    by the next number and is pending), and the attributes set on the
    resource. An attribute is an [Output] over the resource itself, given
    here by its three futures. [read_only] lists the names that the class of
    the resource does not let [__setattr__] assign, such as a property
    without setter. *)
Record construction : Type := {
  created : nat;
  attributes : list (string * Resolver);
  read_only : list string
}.

(** [asyncio.Future()] *)
Definition new_future : M construction nat :=
  fun s => (Ok (created s),
            {| created := S (created s); attributes := attributes s;
               read_only := read_only s |}).

(** [res.__setattr__(name, Output({res}, value, is_known, is_secret))] *)
Definition set_output_attribute (name : string) (slot : Resolver) : M construction unit :=
  fun s =>
    if existsb (String.eqb name) (read_only s) then
      (Raise (AttributeError "can't set attribute"), s)
    else
      (Ok tt, {| created := created s;
                 attributes := dict_set name slot (attributes s);
                 read_only := read_only s |}).

Fixpoint transfer_properties_loop (names : list string) (resolvers : list (string * Resolver))
  : M construction (list (string * Resolver)) :=
  match names with
  | [] => ret resolvers
  | name :: names' =>
      if is_id_or_urn name then transfer_properties_loop names' resolvers
      else
        do resolve_value <- new_future;
        do resolve_is_known <- new_future;
        do resolve_is_secret <- new_future;
        let slot := {| resolve_value := resolve_value;
                       resolve_is_known := resolve_is_known;
                       resolve_is_secret := resolve_is_secret |} in
        exec set_output_attribute name slot;
        transfer_properties_loop names' (dict_set name slot resolvers)
  end.

Definition transfer_properties (props : list (string * pyval))
  : M construction (list (string * Resolver)) :=
  transfer_properties_loop (dict_keys props) [].

(** ** Looking for unknowns *)

(** [known_types.is_unknown] *)
Definition is_unknown (val : pyval) : bool :=
  match val with
  | PUnknown => true
  | _ => false
  end.

(** An instance of an output type is a [dict], the output types being
    subclasses of [dict]: its values are those of the dict it was built from.

    [impl] compares objects by identity ([x is val]). The object at a place
    of the value, a path of indices from the root, is named by [ident]:
    places with the same [ident] hold the same object. [stack] is the list
    of the objects visited so far. *)
Section ContainsUnknowns.
Variable ident : list nat -> nat.

Section Any.
Context {A : Type}.
Variable impl : pyval -> list nat -> list nat -> bool * list nat.
Variable value_of : A -> pyval.

(** [any([impl(x, stack) for x in xs])]: the list comprehension visits
    every element before [any] looks at the results. *)
Fixpoint any_impl (xs : list A) (path : list nat) (i : nat) (stack : list nat)
  : bool * list nat :=
  match xs with
  | [] => (false, stack)
  | x :: xs' =>
      let (b, stack1) := impl (value_of x) (path ++ [i]) stack in
      let (bs, stack2) := any_impl xs' path (S i) stack1 in
      (b || bs, stack2)
  end.
End Any.

Fixpoint contains_unknowns_impl (val : pyval) (path : list nat) (stack : list nat)
  {struct val} : bool * list nat :=
  if is_unknown val then (true, stack)
  else if negb (existsb (Nat.eqb (ident path)) stack) then
    let stack := stack ++ [ident path] in
    match val with
    | PDict items => any_impl contains_unknowns_impl snd items path 0 stack
    | PInstance _ (PDict items) => any_impl contains_unknowns_impl snd items path 0 stack
    | PList elems => any_impl contains_unknowns_impl (fun x => x) elems path 0 stack
    | _ => (false, stack)
    end
  else (false, stack).

Definition contains_unknowns (val : pyval) : bool :=
  fst (contains_unknowns_impl val [] []).
End ContainsUnknowns.

(** * Vocabulary of the properties *)

(** ** Structural induction through lists, dicts and optional attributes *)

Definition opt_holds {A} (P : A -> Prop) (o : option A) : Prop :=
  match o with
  | Some a => P a
  | None => True
  end.

Section PyvalInduction.
Variable P : pyval -> Prop.
Hypothesis HNone : P PNone.
Hypothesis HBool : forall b, P (PBool b).
Hypothesis HNum : forall n, P (PNum n).
Hypothesis HStr : forall s, P (PStr s).
Hypothesis HList : forall elems, Forall P elems -> P (PList elems).
Hypothesis HDict : forall items, Forall (fun kv => P (snd kv)) items -> P (PDict items).
Hypothesis HUnknown : P PUnknown.
Hypothesis HCustomResource : forall urn id, P id -> P (PCustomResource urn id).
Hypothesis HAsset : forall path text uri,
  opt_holds P path -> opt_holds P text -> opt_holds P uri -> P (PAsset path text uri).
Hypothesis HArchive : forall assets path uri,
  opt_holds P assets -> opt_holds P path -> opt_holds P uri -> P (PArchive assets path uri).
Hypothesis HAwaitable : forall outcome, P outcome -> P (PAwaitable outcome).
Hypothesis HFailed : forall e, P (PFailed e).
Hypothesis HOutput : forall rs k s fut, P fut -> P (POutput rs k s fut).
Hypothesis HInputType : forall cls to_dict, opt_holds P to_dict -> P (PInputType cls to_dict).
Hypothesis HInstance : forall cls arg, P arg -> P (PInstance cls arg).
Hypothesis HObject : forall cls, P (PObject cls).

Fixpoint pyval_rect' (v : pyval) : P v :=
  let on_opt (o : option pyval) : opt_holds P o :=
    match o with
    | Some a => pyval_rect' a
    | None => I
    end in
  match v with
  | PNone => HNone
  | PBool b => HBool b
  | PNum n => HNum n
  | PStr s => HStr s
  | PList elems =>
      HList elems
        ((fix on_list (l : list pyval) : Forall P l :=
            match l with
            | [] => List.Forall_nil P
            | x :: l' => List.Forall_cons P x l' (pyval_rect' x) (on_list l')
            end) elems)
  | PDict items =>
      HDict items
        ((fix on_items (l : list (string * pyval)) : Forall (fun kv => P (snd kv)) l :=
            match l with
            | [] => List.Forall_nil _
            | kv :: l' =>
                List.Forall_cons (fun kv => P (snd kv)) kv l' (pyval_rect' (snd kv)) (on_items l')
            end) items)
  | PUnknown => HUnknown
  | PCustomResource urn id => HCustomResource urn id (pyval_rect' id)
  | PAsset path text uri => HAsset path text uri (on_opt path) (on_opt text) (on_opt uri)
  | PArchive assets path uri =>
      HArchive assets path uri (on_opt assets) (on_opt path) (on_opt uri)
  | PAwaitable outcome => HAwaitable outcome (pyval_rect' outcome)
  | PFailed e => HFailed e
  | POutput rs k s fut => HOutput rs k s fut (pyval_rect' fut)
  | PInputType cls to_dict => HInputType cls to_dict (on_opt to_dict)
  | PInstance cls arg => HInstance cls arg (pyval_rect' arg)
  | PObject cls => HObject cls
  end.
End PyvalInduction.

Section WireInduction.
Variable P : wire -> Prop.
Hypothesis HNull : P WNull.
Hypothesis HBool : forall b, P (WBool b).
Hypothesis HNum : forall n, P (WNum n).
Hypothesis HStr : forall s, P (WStr s).
Hypothesis HList : forall values, Forall P values -> P (WList values).
Hypothesis HStruct : forall fields, Forall (fun kv => P (snd kv)) fields -> P (WStruct fields).

Fixpoint wire_rect' (w : wire) : P w :=
  match w with
  | WNull => HNull
  | WBool b => HBool b
  | WNum n => HNum n
  | WStr s => HStr s
  | WList values =>
      HList values
        ((fix on_list (l : list wire) : Forall P l :=
            match l with
            | [] => List.Forall_nil P
            | x :: l' => List.Forall_cons P x l' (wire_rect' x) (on_list l')
            end) values)
  | WStruct fields =>
      HStruct fields
        ((fix on_fields (l : list (string * wire)) : Forall (fun kv => P (snd kv)) l :=
            match l with
            | [] => List.Forall_nil _
            | kv :: l' =>
                List.Forall_cons (fun kv => P (snd kv)) kv l' (wire_rect' (snd kv)) (on_fields l')
            end) fields)
  end.
End WireInduction.

(** ** Entities a value refers to *)

Definition opt_list {A} (f : pyval -> list A) (o : option pyval) : list A :=
  match o with
  | Some v => f v
  | None => []
  end.

(** Every entity named anywhere in the graph: each [CustomResource] and the
    resource set of each [Output], at any depth. *)
Fixpoint referenced (v : pyval) : list resource :=
  match v with
  | PList elems => flat_map referenced elems
  | PDict items => flat_map (fun kv => referenced (snd kv)) items
  | PCustomResource urn id => urn :: referenced id
  | PAsset path text uri =>
      opt_list referenced path ++ opt_list referenced text ++ opt_list referenced uri
  | PArchive assets path uri =>
      opt_list referenced assets ++ opt_list referenced path ++ opt_list referenced uri
  | PAwaitable outcome => referenced outcome
  | POutput rs _ _ fut => rs ++ referenced fut
  | PInputType _ to_dict => opt_list referenced to_dict
  | PInstance _ arg => referenced arg
  | _ => []
  end.

Definition populated (fields : list (option pyval)) : nat :=
  length (filter (fun o : option pyval => bool_decide (is_Some o)) fields).

Definition opt_all (f : pyval -> bool) (o : option pyval) : bool :=
  match o with
  | Some v => f v
  | None => true
  end.

(** No asset or archive of the graph has more than one of its alternative
    fields, and each typed record renders to a dict. *)
Fixpoint one_shape (v : pyval) : bool :=
  match v with
  | PList elems => forallb one_shape elems
  | PDict items => forallb (fun kv => one_shape (snd kv)) items
  | PCustomResource _ id => one_shape id
  | PAsset path text uri =>
      (populated [path; text; uri] <=? 1)%nat
      && opt_all one_shape path && opt_all one_shape text && opt_all one_shape uri
  | PArchive assets path uri =>
      (populated [assets; path; uri] <=? 1)%nat
      && opt_all one_shape assets && opt_all one_shape path && opt_all one_shape uri
  | PAwaitable outcome => one_shape outcome
  | POutput _ _ _ fut => one_shape fut
  | PInputType _ to_dict =>
      match to_dict with
      | Some (PDict items) => forallb (fun kv => one_shape (snd kv)) items
      | Some _ => false
      | None => true
      end
  | PInstance _ arg => one_shape arg
  | _ => true
  end.

(** The alternative that the serializer picks for an asset or an archive:
    the first attribute present, in the order it asks for them. *)
Definition first_populated (fields : list (string * option pyval)) : option (string * pyval) :=
  list_find (fun kv : string * option pyval => bool_decide (is_Some (snd kv))) fields
    ≫= fun ikv => match snd (snd ikv) with
                   | Some v => Some (fst (snd ikv), v)
                   | None => None
                   end.

Definition asset_alternatives (path text uri : option pyval) : list (string * option pyval) :=
  [("path", path); ("text", text); ("uri", uri)].

Definition archive_alternatives (assets path uri : option pyval) : list (string * option pyval) :=
  [("assets", assets); ("path", path); ("uri", uri)].

(** A computation on [deps] only ever appends to it. *)
Definition appends {A} (c : M (list resource) A) : Prop :=
  forall deps r deps', c deps = (r, deps') -> exists added, deps' = deps ++ added.

(** ** Settings of concrete runs *)

(** [pulumi up] against an engine that accepts secrets *)
Definition update_run : settings :=
  {| is_dry_run := false; is_legacy_apply_enabled := false; monitor_supports_secrets := true |}.

(** [pulumi preview] *)
Definition preview_run : settings :=
  {| is_dry_run := true; is_legacy_apply_enabled := false; monitor_supports_secrets := true |}.

(** [pulumi preview] with legacy apply enabled *)
Definition legacy_preview_run : settings :=
  {| is_dry_run := true; is_legacy_apply_enabled := true; monitor_supports_secrets := true |}.

(** ** Secret wrappers *)

(** The value with its own secret wrapper, if it has one, taken off: what
    [unwrap_rpc_secret] returns when it returns. *)
Definition stripped (value : pyval) : pyval :=
  if is_rpc_secret value then
    match getitem value "value" with
    | Ok payload => payload
    | Raise _ => value
    end
  else value.

(** [unwrap_rpc_secret] returns on the value: a dict with the secret
    signature has its ["value"]. *)
Definition unwraps (v : pyval) : Prop := unwrap_rpc_secret v = Ok (stripped v).

(** ** Round trips *)

Fixpoint distinct (keys : list string) : bool :=
  match keys with
  | [] => true
  | k :: keys' => negb (existsb (String.eqb k) keys') && distinct keys'
  end.

(** A native value built only from scalars, lists and dicts (whose keys,
    as in any Python dict, are distinct). *)
Fixpoint plain (v : pyval) : bool :=
  match v with
  | PNone | PBool _ | PNum _ | PStr _ => true
  | PList elems => forallb plain elems
  | PDict items => distinct (dict_keys items) && forallb (fun kv => plain (snd kv)) items
  | _ => false
  end.

(** No string of the value is the [UNKNOWN] sentinel and no dict of it has
    the signature key. *)
Fixpoint unreserved (v : pyval) : bool :=
  match v with
  | PStr s => negb (String.eqb s UNKNOWN)
  | PList elems => forallb unreserved elems
  | PDict items =>
      negb (dict_has _special_sig_key items) && forallb (fun kv => unreserved (snd kv)) items
  | _ => true
  end.

(** Every number of the value is an integer of magnitude at most [2^53]:
    the doubles hold these exactly. *)
Fixpoint exact_numbers (v : pyval) : bool :=
  match v with
  | PNum n => (Z.abs n <=? 2 ^ 53)%Z
  | PList elems => forallb exact_numbers elems
  | PDict items => forallb (fun kv => exact_numbers (snd kv)) items
  | _ => true
  end.

(** The value without the dict entries that are [None], at every depth;
    list elements stay. *)
Fixpoint prune (v : pyval) : pyval :=
  match v with
  | PList elems => PList (map prune elems)
  | PDict items =>
      PDict (List.filter (fun kv => negb (is_none (snd kv)))
               (map (fun kv => (fst kv, prune (snd kv))) items))
  | _ => v
  end.

(** The protobuf value that [to_wire] makes of a plain value. *)
Fixpoint wire_of_plain (v : pyval) : wire :=
  match v with
  | PBool b => WBool b
  | PNum n => WNum n
  | PStr s => WStr s
  | PList elems => WList (map wire_of_plain elems)
  | PDict items => WStruct (map (fun kv => (fst kv, wire_of_plain (snd kv))) items)
  | _ => WNull
  end.

(** Serialize without key translation, store in a [Struct], deserialize. *)
Definition roundtrip (env : settings) (keep_unknowns : option bool) (v : pyval) : result pyval :=
  match serialize_property env None v [] with
  | (Ok p, _) => try w <- to_wire p; deserialize_property env w keep_unknowns
  | (Raise e, _) => Raise e
  end.

(** "Equal modulo Null-dropping", read as widely as the words allow: the
    second value is the first one from which some list elements and dict
    entries that are [None] have been removed, at any depth. *)
Inductive null_dropped : pyval -> pyval -> Prop :=
| nd_same v : null_dropped v v
| nd_list elems elems' :
    null_dropped_list elems elems' -> null_dropped (PList elems) (PList elems')
| nd_dict items items' :
    null_dropped_items items items' -> null_dropped (PDict items) (PDict items')
with null_dropped_list : list pyval -> list pyval -> Prop :=
| ndl_nil : null_dropped_list [] []
| ndl_keep x x' l l' :
    null_dropped x x' -> null_dropped_list l l' -> null_dropped_list (x :: l) (x' :: l')
| ndl_drop l l' : null_dropped_list l l' -> null_dropped_list (PNone :: l) l'
with null_dropped_items : list (string * pyval) -> list (string * pyval) -> Prop :=
| ndi_nil : null_dropped_items [] []
| ndi_keep k x x' d d' :
    null_dropped x x' -> null_dropped_items d d' ->
    null_dropped_items ((k, x) :: d) ((k, x') :: d')
| ndi_drop k d d' : null_dropped_items d d' -> null_dropped_items ((k, PNone) :: d) d'.

(** ** Slots *)

Definition futures_of (r : Resolver) : list future :=
  [resolve_value r; resolve_is_known r; resolve_is_secret r].

Definition all_futures (resolvers : list (string * Resolver)) : list future :=
  flat_map (fun item => futures_of (snd item)) resolvers.

(** Awaiting the three futures of the slot returns these results. *)
Definition slot_fulfilled (loop : gmap nat outcome) (r : Resolver)
    (value : pyval) (is_known is_secret : bool) : Prop :=
  await loop (resolve_value r) = Some (Ok value) /\
  await loop (resolve_is_known r) = Some (Ok (PBool is_known)) /\
  await loop (resolve_is_secret r) = Some (Ok (PBool is_secret)).

(** Awaiting any of the three futures of the slot raises [e]. *)
Definition slot_poisoned (loop : gmap nat outcome) (r : Resolver) (e : exn) : Prop :=
  forall fut, In fut (futures_of r) -> await loop fut = Some (Raise e).

(** What [resolve r value is_known is_secret failed] leaves in the three
    futures when it goes through. *)
Definition slot_after (loop : gmap nat outcome) (r : Resolver)
    (args : pyval * bool * bool * option exn) : Prop :=
  let '(value, is_known, is_secret, failed) := args in
  match failed with
  | Some e => slot_poisoned loop r e
  | None => slot_fulfilled loop r value is_known is_secret
  end.

(** The futures that a loop body writes for an item, when the body either
    does nothing or resolves one slot. *)
Definition touched {X} (target : X -> option (Resolver * (pyval * bool * bool * option exn)))
    (x : X) : list future :=
  match target x with
  | Some (r, _) => futures_of r
  | None => []
  end.

(** What the two loops of [resolve_outputs] do with an item. *)
Definition property_target (env : settings) (resolvers : list (string * Resolver))
    (item : string * pyval) : option (Resolver * (pyval * bool * bool * option exn)) :=
  if is_id_or_urn (fst item) then None
  else
    match dict_get (fst item) resolvers with
    | Some r =>
        let value := stripped (snd item) in
        Some (r, (value,
                  if is_dry_run env then negb (is_none value) else true,
                  is_rpc_secret (snd item),
                  None))
    | None => None
    end.

Definition missing_target (env : settings) (all_properties : list (string * pyval))
    (item : string * Resolver) : option (Resolver * (pyval * bool * bool * option exn)) :=
  if dict_has (fst item) all_properties then None
  else Some (snd item, (PNone, negb (is_dry_run env), false, None)).

(** ** A resource of the scenarios *)

(** A resource class with one declared string property, whose
    [translate_output_property] is the default one (the identity). *)
Definition scenario_resource : resource_obj :=
  {| res_type := TResource "Bucket" [("x", ("x", TClass "str"))];
     translate_output_property := fun prop => prop |}.

(** A computation on the futures leaves every future that is done as it is. *)
Definition never_overwrites {A} (c : M (gmap nat outcome) A) : Prop :=
  forall (loop : gmap nat outcome) fut o,
    loop !! fut = Some o -> snd (c loop) !! fut = Some o.


(** * Vocabulary of the further properties *)

(** Every typed record of the graph has a [_to_dict] and it returns a dict. *)
Fixpoint renders_dicts (v : pyval) : bool :=
  match v with
  | PList elems => forallb renders_dicts elems
  | PDict items => forallb (fun kv => renders_dicts (snd kv)) items
  | PCustomResource _ id => renders_dicts id
  | PAsset path text uri =>
      opt_all renders_dicts path && opt_all renders_dicts text && opt_all renders_dicts uri
  | PArchive assets path uri =>
      opt_all renders_dicts assets && opt_all renders_dicts path && opt_all renders_dicts uri
  | PAwaitable outcome => renders_dicts outcome
  | POutput _ _ _ fut => renders_dicts fut
  | PInputType _ to_dict =>
      match to_dict with
      | Some (PDict items) => forallb (fun kv => renders_dicts (snd kv)) items
      | _ => false
      end
  | PInstance _ arg => renders_dicts arg
  | _ => true
  end.

(** A value that [struct[key] = value] accepts: [None], booleans, numbers,
    strings, and lists and dicts of such values. *)
Fixpoint wire_ready (v : pyval) : bool :=
  match v with
  | PNone | PBool _ | PNum _ | PStr _ => true
  | PList elems => forallb wire_ready elems
  | PDict items => forallb (fun kv => wire_ready (snd kv)) items
  | _ => false
  end.

(** An [Unknown] sits in the value, under lists, dict values and the values
    of instances of output types. *)
Fixpoint occurs_unknown (v : pyval) : bool :=
  match v with
  | PUnknown => true
  | PList elems => existsb occurs_unknown elems
  | PDict items => existsb (fun kv => occurs_unknown (snd kv)) items
  | PInstance _ (PDict items) => existsb (fun kv => occurs_unknown (snd kv)) items
  | _ => false
  end.

(** What [contains_unknowns] descends into: the elements of a list, the
    values of a dict, those of an instance of an output type. *)
Definition children (v : pyval) : list pyval :=
  match v with
  | PList elems => elems
  | PDict items => dict_values items
  | PInstance _ (PDict items) => dict_values items
  | _ => []
  end.

(** The value at a place. *)
Fixpoint at_path (v : pyval) (p : list nat) : option pyval :=
  match p with
  | [] => Some v
  | i :: p' =>
      match nth_error (children v) i with
      | Some c => at_path c p'
      | None => None
      end
  end.

(** [ident] names the objects of [v]: two places with the same identity
    hold the same object, hence the same value. An object may sit at several
    places. *)
Definition identifies (ident : list nat -> nat) (v : pyval) : Prop :=
  forall p q x y,
    at_path v p = Some x -> at_path v q = Some y -> ident p = ident q -> x = y.

Fixpoint weight (v : pyval) : nat :=
  match v with
  | PList elems => S (list_sum (map weight elems))
  | PDict items => S (list_sum (map (fun kv => weight (snd kv)) items))
  | PInstance _ (PDict items) => S (list_sum (map (fun kv => weight (snd kv)) items))
  | _ => 1
  end.

(** The object [id] sits at a place strictly above [p]. *)
Definition ancestor_of (ident : list nat -> nat) (p : list nat) (id : nat) : Prop :=
  exists q r, p = q ++ r /\ r <> [] /\ ident q = id.

(** No [Unknown] sits in the object [id] of [root]. *)
Definition clean_object (ident : list nat -> nat) (root : pyval) (id : nat) : Prop :=
  forall q x, at_path root q = Some x -> ident q = id -> occurs_unknown x = false.

(** Every [Struct] of the protobuf value has distinct field names, as the
    map it is. *)
Fixpoint distinct_fields (w : wire) : bool :=
  match w with
  | WList values => forallb distinct_fields values
  | WStruct fields =>
      distinct (dict_keys fields) && forallb (fun kv => distinct_fields (snd kv)) fields
  | _ => true
  end.

(** A map signed as a secret sits in the protobuf value, under lists and
    under the fields of maps that carry no signature. *)
Fixpoint has_secret (w : wire) : bool :=
  match w with
  | WList values => existsb has_secret values
  | WStruct fields =>
      match dict_get _special_sig_key fields with
      | Some sig => wire_eq_str sig _special_secret_sig
      | None => existsb (fun kv => has_secret (snd kv)) fields
      end
  | _ => false
  end.

(** The value with every dict key renamed by [tr], at every depth under
    lists and dicts; where two keys of a dict get the same name, the later
    entry takes the place of the earlier one. An instance of an output type
    is a dict, and a plain dict is what is made of it. *)
Fixpoint rename_keys (tr : string -> string) (v : pyval) : pyval :=
  match v with
  | PDict items | PInstance _ (PDict items) =>
      PDict (fold_left (fun acc kv => dict_set (tr (fst kv)) (rename_keys tr (snd kv)) acc)
               items [])
  | PList elems => PList (map (rename_keys tr) elems)
  | _ => v
  end.

(** A type hint without arguments that is neither [NoneType] nor an output
    type: [str], [int], a user class. *)
Definition is_bare_class (typ : option pytype) : bool :=
  match typ with
  | None => true
  | Some (TClass _) => true
  | _ => false
  end.

(** The stages of [translate_output_properties]: the type once an
    [Optional] is unwrapped, the type looked up for the value under a key of
    a dict, and the type of the elements of a list. *)
Definition unwrapped_type (typ : option pytype) : result (option pytype) :=
  match typ with
  | Some t =>
      if _is_optional_type t then try t' <- unwrap_optional t; Ok (Some t')
      else Ok typ
  | None => Ok None
  end.

Definition value_types (typ : option pytype) : result (string -> option pytype) :=
  match typ with
  | Some t =>
      if _is_output_type t then
        try types <- _output_types t;
        Ok (fun k => dict_get k types)
      else
        match _get_args t with
        | [a; b] => Ok (fun k : string => if is_str a then Some b else None)
        | _ => Ok (fun k : string => None)
        end
  | None => Ok (fun k : string => None)
  end.

Definition element_type_of (typ : option pytype) : option pytype :=
  match typ with
  | Some t =>
      match _get_args t with
      | [a] => Some a
      | _ => None
      end
  | None => None
  end.

(** [typ(translated) if typ and _is_output_type(typ) else translated] *)
Definition instantiated (typ : option pytype) (translated : list (string * pyval)) : pyval :=
  match typ with
  | Some t =>
      if _is_output_type t then PInstance (class_name t) (PDict translated)
      else PDict translated
  | None => PDict translated
  end.

Definition is_container (v : pyval) : bool :=
  match v with
  | PDict _ | PList _ => true
  | _ => false
  end.

(** The resolvers have distinct names and distinct futures, and all these
    futures are still pending: the state in which [transfer_properties]
    leaves them. *)
Definition ready (resolvers : list (string * Resolver)) (loop : gmap nat outcome) : Prop :=
  List.NoDup (dict_keys resolvers) /\
  List.NoDup (all_futures resolvers) /\
  forall fut, In fut (all_futures resolvers) -> await loop fut = None.

(** A computation on the futures changes none outside [futs]. *)
Definition writes_within {A} (futs : list future) (c : M (gmap nat outcome) A) : Prop :=
  forall (loop : gmap nat outcome) fut, ~ In fut futs -> snd (c loop) !! fut = loop !! fut.

(** Assets and archives as the program makes them: an asset with exactly one
    of path, text, uri, a string; an archive with exactly one of path, uri, a
    string, or of assets, a dict of such values with distinct names none of
    which is the signature key. A dict of such values is counted in. *)
Fixpoint asset_graph (v : pyval) : bool :=
  match v with
  | PAsset (Some (PStr _)) None None => true
  | PAsset None (Some (PStr _)) None => true
  | PAsset None None (Some (PStr _)) => true
  | PArchive None (Some (PStr _)) None => true
  | PArchive None None (Some (PStr _)) => true
  | PArchive (Some (PDict items)) None None =>
      distinct (dict_keys items) && negb (dict_has _special_sig_key items) &&
      forallb (fun kv => asset_graph (snd kv)) items
  | PDict items =>
      distinct (dict_keys items) && negb (dict_has _special_sig_key items) &&
      forallb (fun kv => asset_graph (snd kv)) items
  | _ => false
  end.

(** What [serialize_property] makes of such a value, and the protobuf value
    that [to_wire] makes of that. *)
Fixpoint asset_serialized (v : pyval) : pyval :=
  match v with
  | PAsset (Some p) _ _ => PDict [(_special_sig_key, PStr _special_asset_sig); ("path", p)]
  | PAsset None (Some t) _ => PDict [(_special_sig_key, PStr _special_asset_sig); ("text", t)]
  | PAsset None None (Some u) => PDict [(_special_sig_key, PStr _special_asset_sig); ("uri", u)]
  | PArchive (Some a) _ _ =>
      PDict [(_special_sig_key, PStr _special_archive_sig); ("assets", asset_serialized a)]
  | PArchive None (Some p) _ =>
      PDict [(_special_sig_key, PStr _special_archive_sig); ("path", p)]
  | PArchive None None (Some u) =>
      PDict [(_special_sig_key, PStr _special_archive_sig); ("uri", u)]
  | PDict items => PDict (map (fun kv => (fst kv, asset_serialized (snd kv))) items)
  | _ => v
  end.

Fixpoint asset_wire (v : pyval) : wire :=
  match v with
  | PStr s => WStr s
  | PAsset (Some p) _ _ =>
      WStruct [(_special_sig_key, WStr _special_asset_sig); ("path", asset_wire p)]
  | PAsset None (Some t) _ =>
      WStruct [(_special_sig_key, WStr _special_asset_sig); ("text", asset_wire t)]
  | PAsset None None (Some u) =>
      WStruct [(_special_sig_key, WStr _special_asset_sig); ("uri", asset_wire u)]
  | PArchive (Some a) _ _ =>
      WStruct [(_special_sig_key, WStr _special_archive_sig); ("assets", asset_wire a)]
  | PArchive None (Some p) _ =>
      WStruct [(_special_sig_key, WStr _special_archive_sig); ("path", asset_wire p)]
  | PArchive None None (Some u) =>
      WStruct [(_special_sig_key, WStr _special_archive_sig); ("uri", asset_wire u)]
  | PDict items => WStruct (map (fun kv => (fst kv, asset_wire (snd kv))) items)
  | _ => WNull
  end.

(** The exceptions of the awaitables of the graph that complete by raising,
    wherever [serialize_property] may come to await them. *)
Fixpoint failures (v : pyval) : list exn :=
  match v with
  | PFailed e => [e]
  | PList elems => flat_map failures elems
  | PDict items => flat_map (fun kv => failures (snd kv)) items
  | PCustomResource _ id => failures id
  | PAsset path text uri =>
      opt_list failures path ++ opt_list failures text ++ opt_list failures uri
  | PArchive assets path uri =>
      opt_list failures assets ++ opt_list failures path ++ opt_list failures uri
  | PAwaitable outcome => failures outcome
  | POutput _ _ _ fut => failures fut
  | PInputType _ to_dict => opt_list failures to_dict
  | PInstance _ arg => failures arg
  | _ => []
  end.

(** No map of the protobuf value carries the signature key. *)
Fixpoint unsigned (w : wire) : bool :=
  match w with
  | WList values => forallb unsigned values
  | WStruct fields =>
      negb (dict_has _special_sig_key fields) &&
      forallb (fun kv => unsigned (snd kv)) fields
  | _ => true
  end.

(** The resource lets [__setattr__] assign every name that
    [transfer_properties] is going to bind. *)
Definition settable (names : list string) (s : construction) : Prop :=
  forall name, In name names -> is_id_or_urn name = false -> ~ In name (read_only s).

(** An instance of an output type. *)
Definition is_instance (v : pyval) : bool :=
  match v with
  | PInstance _ _ => true
  | _ => false
  end.

(** No output type occurs in the type hint, at the top or among its type
    arguments at any depth: hydrating against it consults no class for its
    declared properties and instantiates nothing. *)
Fixpoint output_type_free (t : pytype) : bool :=
  match t with
  | TOutputType _ _ => false
  | TAlias _ args => forallb output_type_free args
  | _ => true
  end.

Definition hint_output_type_free (typ : option pytype) : bool :=
  match typ with
  | Some t => output_type_free t
  | None => true
  end.

(** No map of the protobuf value is signed as an asset or as an archive:
    deserializing the value constructs no asset and no archive. *)
Fixpoint asset_free (w : wire) : bool :=
  match w with
  | WList values => forallb asset_free values
  | WStruct fields =>
      match dict_get _special_sig_key fields with
      | Some sig =>
          negb (wire_eq_str sig _special_asset_sig) &&
          negb (wire_eq_str sig _special_archive_sig)
      | None => true
      end && forallb (fun kv => asset_free (snd kv)) fields
  | _ => true
  end.

(** * Lemmas and theorems *)

(** ** Induction that also reaches the dict a typed record renders to *)

Section PyvalDeepInduction.
Variable P : pyval -> Prop.
Hypothesis HNone : P PNone.
Hypothesis HBool : forall b, P (PBool b).
Hypothesis HNum : forall n, P (PNum n).
Hypothesis HStr : forall s, P (PStr s).
Hypothesis HList : forall elems, Forall P elems -> P (PList elems).
Hypothesis HDict : forall items, Forall (fun kv => P (snd kv)) items -> P (PDict items).
Hypothesis HUnknown : P PUnknown.
Hypothesis HCustomResource : forall urn id, P id -> P (PCustomResource urn id).
Hypothesis HAsset : forall path text uri,
  opt_holds P path -> opt_holds P text -> opt_holds P uri -> P (PAsset path text uri).
Hypothesis HArchive : forall assets path uri,
  opt_holds P assets -> opt_holds P path -> opt_holds P uri -> P (PArchive assets path uri).
Hypothesis HAwaitable : forall outcome, P outcome -> P (PAwaitable outcome).
Hypothesis HFailed : forall e, P (PFailed e).
Hypothesis HOutput : forall rs k s fut, P fut -> P (POutput rs k s fut).
Hypothesis HInputTypeDict : forall cls items,
  Forall (fun kv => P (snd kv)) items -> P (PInputType cls (Some (PDict items))).
Hypothesis HInputTypeInstance : forall cls cls' items,
  Forall (fun kv => P (snd kv)) items ->
  P (PInputType cls (Some (PInstance cls' (PDict items)))).
Hypothesis HInputType : forall cls to_dict,
  match to_dict with
  | Some (PDict _) | Some (PInstance _ (PDict _)) => False
  | _ => True
  end ->
  opt_holds P to_dict -> P (PInputType cls to_dict).
Hypothesis HInstanceDict : forall cls items,
  Forall (fun kv => P (snd kv)) items -> P (PInstance cls (PDict items)).
Hypothesis HInstance : forall cls arg,
  match arg with PDict _ => False | _ => True end -> P arg -> P (PInstance cls arg).
Hypothesis HObject : forall cls, P (PObject cls).

Let Q (v : pyval) : Prop :=
  P v /\ match v with
         | PDict items | PInstance _ (PDict items) =>
             Forall (fun kv => P (snd kv)) items
         | _ => True
         end.

Lemma pyval_deep_ind (v : pyval) : P v.
Proof.
  assert (HQ : Q v); [| exact (proj1 HQ)].
  induction v using pyval_rect'; unfold Q in *; cbv beta in *;
    try (split; [| exact I]); auto.
  - apply HList. eapply Forall_impl; [eassumption |]. now intros x [? _].
  - assert (Forall (fun kv => P (snd kv)) items)
      by (eapply Forall_impl; [eassumption |]; now intros x [? _]).
    split; auto.
  - apply HCustomResource. tauto.
  - apply HAsset; [destruct path | destruct text | destruct uri]; simpl in *; tauto.
  - apply HArchive; [destruct assets | destruct path | destruct uri]; simpl in *; tauto.
  - apply HAwaitable. tauto.
  - apply HOutput. tauto.
  - destruct to_dict as [d |]; [| now apply HInputType].
    simpl in *. destruct d; try (apply HInputType; simpl; tauto).
    + apply HInputTypeDict. tauto.
    + destruct d; try (apply HInputType; simpl; tauto).
      apply HInputTypeInstance. tauto.
  - destruct v; try (split; [apply HInstance; simpl; tauto | exact I]).
    destruct IHv as [_ Hitems]. split; [apply HInstanceDict |]; exact Hitems.
Qed.
End PyvalDeepInduction.

(** Distinctness of the keys of a dict written out in full. *)
Ltac solve_NoDup :=
  repeat (apply List.NoDup_cons; [simpl; intuition discriminate |]); apply List.NoDup_nil.

(** ** The monad *)

Lemma bind_ok {S A B} (c : M S A) (k : A -> M S B) s a s' :
  c s = (Ok a, s') -> bind c k s = k a s'.
Proof. intros H. unfold bind. now rewrite H. Qed.

Lemma bind_raise {S A B} (c : M S A) (k : A -> M S B) s e s' :
  c s = (Raise e, s') -> bind c k s = (Raise e, s').
Proof. intros H. unfold bind. now rewrite H. Qed.

Lemma bind_inv_ok {S A B} (c : M S A) (k : A -> M S B) s b s2 :
  bind c k s = (Ok b, s2) -> exists a s1, c s = (Ok a, s1) /\ k a s1 = (Ok b, s2).
Proof.
  unfold bind. destruct (c s) as [[a | e] s1]; [eauto | discriminate].
Qed.

Lemma bind_inv {S A B} (c : M S A) (k : A -> M S B) s r s2 :
  bind c k s = (r, s2) ->
  (exists a s1, c s = (Ok a, s1) /\ k a s1 = (r, s2)) \/
  (exists e, c s = (Raise e, s2) /\ r = Raise e).
Proof.
  unfold bind. destruct (c s) as [[a | e] s1]; [eauto | ].
  intros [= <- <-]. eauto.
Qed.

Lemma rbind_inv_ok {A B} (c : result A) (k : A -> result B) b :
  rbind c k = Ok b -> exists a, c = Ok a /\ k a = Ok b.
Proof. destruct c; simpl; [eauto | discriminate]. Qed.

(** ** Dictionaries *)

Section DictFacts.
Context {A : Type}.
Implicit Types (d : list (string * A)) (k : string) (v : A).

Lemma dict_get_set_eq d k v : dict_get k (dict_set k v d) = Some v.
Proof.
  induction d as [| [k' v'] d IH]; simpl.
  - now rewrite String.eqb_refl.
  - destruct (String.eqb k k') eqn:E; simpl.
    + now rewrite String.eqb_refl.
    + now rewrite E.
Qed.

Lemma dict_get_set_ne d k k' v : k <> k' -> dict_get k' (dict_set k v d) = dict_get k' d.
Proof.
  intros Hne. induction d as [| [k0 v0] d IH]; simpl.
  - destruct (String.eqb k' k) eqn:E; [| reflexivity].
    apply String.eqb_eq in E. congruence.
  - destruct (String.eqb k k0) eqn:E; simpl.
    + apply String.eqb_eq in E. subst k0.
      destruct (String.eqb k' k) eqn:E'; [| reflexivity].
      apply String.eqb_eq in E'. congruence.
    + now rewrite IH.
Qed.

Lemma dict_get_set d k k' v :
  dict_get k' (dict_set k v d) = if String.eqb k' k then Some v else dict_get k' d.
Proof.
  destruct (String.eqb k' k) eqn:E.
  - apply String.eqb_eq in E. subst. apply dict_get_set_eq.
  - apply String.eqb_neq in E. apply dict_get_set_ne. congruence.
Qed.

Lemma dict_get_None d k : dict_get k d = None <-> ~ In k (dict_keys d).
Proof.
  induction d as [| [k' v'] d IH]; simpl.
  - tauto.
  - destruct (String.eqb k k') eqn:E.
    + apply String.eqb_eq in E. subst. split; [discriminate | tauto].
    + apply String.eqb_neq in E. rewrite IH. split; [intros H [?|?]; [congruence | tauto] | tauto].
Qed.

Lemma dict_get_In d k v : dict_get k d = Some v -> In (k, v) d.
Proof.
  induction d as [| [k' v'] d IH]; simpl; [discriminate |].
  destruct (String.eqb k k') eqn:E.
  - apply String.eqb_eq in E. intros [= ->]. subst. now left.
  - intros H. right. auto.
Qed.

Lemma dict_get_NoDup d k v : List.NoDup (dict_keys d) -> In (k, v) d -> dict_get k d = Some v.
Proof.
  induction d as [| [k' v'] d IH]; simpl; [tauto |].
  intros Hnd [Heq | Hin].
  - injection Heq as -> ->. now rewrite String.eqb_refl.
  - inversion Hnd as [| ? ? Hk Hnd']; subst.
    destruct (String.eqb k k') eqn:E.
    + apply String.eqb_eq in E. subst. exfalso. apply Hk.
      change (In (fst (k', v)) (map fst d)). now apply in_map.
    + auto.
Qed.

Lemma dict_set_fresh d k v : dict_get k d = None -> dict_set k v d = d ++ [(k, v)].
Proof.
  induction d as [| [k' v'] d IH]; simpl; [reflexivity |].
  destruct (String.eqb k k'); [discriminate |].
  intros H. now rewrite IH.
Qed.

Lemma dict_keys_set d k v :
  dict_keys (dict_set k v d) = if dict_has k d then dict_keys d else dict_keys d ++ [k].
Proof.
  unfold dict_has. induction d as [| [k' v'] d IH]; simpl; [reflexivity |].
  destruct (String.eqb k k') eqn:E; simpl.
  - apply String.eqb_eq in E. now subst.
  - rewrite IH. now destruct (dict_get k d).
Qed.

Lemma dict_set_NoDup d k v : List.NoDup (dict_keys d) -> List.NoDup (dict_keys (dict_set k v d)).
Proof.
  intros Hnd. rewrite dict_keys_set. unfold dict_has.
  destruct (dict_get k d) eqn:E; [assumption |].
  apply dict_get_None in E.
  apply NoDup_ListNoDup. apply NoDup_ListNoDup in Hnd.
  apply NoDup_app. split; [assumption |]. split.
  - intros x Hx Hx'. apply list_elem_of_In in Hx. apply list_elem_of_In in Hx'.
    simpl in Hx'. destruct Hx' as [-> | []]. tauto.
  - apply NoDup_singleton.
Qed.
End DictFacts.

(** ** Loops in the monad *)

Lemma appends_ret {A} (a : A) : appends (ret a).
Proof. intros deps r deps' [= <- <-]. exists []. now rewrite app_nil_r. Qed.

Lemma appends_raise {A} e : appends (@raise _ A e).
Proof. intros deps r deps' [= <- <-]. exists []. now rewrite app_nil_r. Qed.

Lemma appends_modify (l : list resource) : appends (modify (fun deps => deps ++ l)).
Proof. intros deps r deps' [= <- <-]. now exists l. Qed.

Lemma appends_bind {A B} (c : M (list resource) A) (k : A -> M (list resource) B) :
  appends c -> (forall a, appends (k a)) -> appends (bind c k).
Proof.
  intros Hc Hk deps r deps' H.
  apply bind_inv in H as [(a & s1 & H1 & H2) | (e & H1 & ->)].
  - apply Hc in H1 as [l1 ->]. apply Hk in H2 as [l2 ->].
    exists (l1 ++ l2). now rewrite app_assoc.
  - now apply Hc in H1.
Qed.

Lemma appends_mapM {A B} (f : A -> M (list resource) B) l :
  Forall (fun x => appends (f x)) l -> appends (mapM f l).
Proof.
  induction 1 as [| x l Hx Hl IH]; simpl.
  - apply appends_ret.
  - apply appends_bind; [assumption |]. intros y.
    apply appends_bind; [assumption |]. intros ys. apply appends_ret.
Qed.

Lemma appends_dict_buildM {A B} key (f : A -> M (list resource) B) items :
  Forall (fun kv => appends (f (snd kv))) items ->
  forall obj, appends (dict_buildM key f items obj).
Proof.
  induction 1 as [| [k v] items Hx Hl IH]; intros obj; simpl.
  - apply appends_ret.
  - apply appends_bind; [assumption |]. intros y. apply IH.
Qed.

(** ** Serializer: the equations of [serialize_property] *)

Section SerializerFacts.
Variable env : settings.
Variable t : option (string -> string).

Lemma serialize_property_list elems :
  serialize_property env t (PList elems) =
  (do props <- mapM (serialize_property env t) elems; ret (PList props)).
Proof. reflexivity. Qed.

Lemma serialize_property_dict items :
  serialize_property env t (PDict items) =
  (do obj <- dict_buildM (transform_key t true) (serialize_property env t) items [];
   ret (PDict obj)).
Proof. reflexivity. Qed.

Lemma serialize_property_output rs k s fut :
  serialize_property env t (POutput rs k s fut) =
  (exec modify (fun deps => deps ++ rs);
   do value <- serialize_property env t fut;
   if negb k then ret (PStr UNKNOWN)
   else if s && monitor_supports_secrets env then
     ret (PDict [(_special_sig_key, PStr _special_secret_sig); ("value", value)])
   else ret value).
Proof. reflexivity. Qed.

Lemma serialize_property_input_type_dict cls items :
  serialize_property env t (PInputType cls (Some (PDict items))) =
  (do obj <- dict_buildM (transform_key t false) (serialize_property env t) items [];
   ret (PDict obj)).
Proof. reflexivity. Qed.

Lemma serialize_property_input_type_instance cls cls' items :
  serialize_property env t (PInputType cls (Some (PInstance cls' (PDict items)))) =
  serialize_property env t (PInputType cls (Some (PDict items))).
Proof. reflexivity. Qed.

Lemma serialize_property_instance cls items :
  serialize_property env t (PInstance cls (PDict items)) =
  serialize_property env t (PDict items).
Proof. reflexivity. Qed.

Lemma serialize_property_instance_other cls arg :
  match arg with PDict _ => False | _ => True end ->
  serialize_property env t (PInstance cls arg) =
  raise (ValueError (String.append "unexpected input of type " cls)).
Proof. destruct arg; intros H; try reflexivity; contradiction. Qed.

Lemma serialize_property_input_type_other cls d :
  match d with PDict _ | PInstance _ (PDict _) => False | _ => True end ->
  serialize_property env t (PInputType cls (Some d)) =
  if isLegalProtobufValue d then ret d
  else raise (ValueError (String.append "unexpected input of type " (type_name d))).
Proof.
  destruct d as [| | | | | | | | | | | | | | cls' arg |]; intros H;
    try reflexivity; try contradiction.
  destruct arg; try reflexivity; contradiction.
Qed.

Lemma serialize_property_appends v : appends (serialize_property env t v).
Proof.
  induction v using pyval_deep_ind;
    try (simpl; first [apply appends_ret | apply appends_raise]).
  - rewrite serialize_property_list.
    apply appends_bind; [now apply appends_mapM |]. intros; apply appends_ret.
  - rewrite serialize_property_dict.
    apply appends_bind; [now apply appends_dict_buildM |]. intros; apply appends_ret.
  - simpl. apply appends_bind; [apply appends_modify | auto].
  - destruct path as [p |]; [| destruct text as [x |]; [| destruct uri as [u |]]]; simpl in *;
      try apply appends_raise;
      (apply appends_bind; [assumption | intros; apply appends_ret]).
  - destruct assets as [p |]; [| destruct path as [x |]; [| destruct uri as [u |]]]; simpl in *;
      try apply appends_raise;
      (apply appends_bind; [assumption | intros; apply appends_ret]).
  - simpl. assumption.
  - rewrite serialize_property_output.
    apply appends_bind; [apply appends_modify |]. intros _.
    apply appends_bind; [assumption |]. intros value.
    destruct (negb k); [apply appends_ret |].
    destruct (s && _); apply appends_ret.
  - rewrite serialize_property_input_type_dict.
    apply appends_bind; [| intros; apply appends_ret].
    now apply appends_dict_buildM.
  - rewrite serialize_property_input_type_instance, serialize_property_input_type_dict.
    apply appends_bind; [| intros; apply appends_ret].
    now apply appends_dict_buildM.
  - destruct to_dict as [d |]; [| apply appends_raise].
    rewrite serialize_property_input_type_other by assumption.
    destruct (isLegalProtobufValue d); [apply appends_ret | apply appends_raise].
  - rewrite serialize_property_instance, serialize_property_dict.
    apply appends_bind; [now apply appends_dict_buildM |]. intros; apply appends_ret.
  - rewrite serialize_property_instance_other by assumption. apply appends_raise.
Qed.
End SerializerFacts.

Lemma appends_In {A} (c : M (list resource) A) deps r deps' x :
  appends c -> c deps = (r, deps') -> In x deps -> In x deps'.
Proof.
  intros Hc H Hin. apply Hc in H as [added ->]. apply in_or_app. now left.
Qed.

(** What one element contributes to [deps] is still there after the loop. *)
Section LoopsCollect.
Context {A B : Type}.
Variable f : A -> M (list resource) B.
Variable refs : A -> list resource.
Variable ok : A -> bool.
Hypothesis f_appends : forall x, appends (f x).

Let collects (x : A) : Prop :=
  forall deps w deps', ok x = true -> f x deps = (Ok w, deps') ->
  forall r, In r (refs x) -> In r deps'.

Lemma mapM_collects l :
  Forall collects l ->
  forall deps ws deps', forallb ok l = true -> mapM f l deps = (Ok ws, deps') ->
  forall r, In r (flat_map refs l) -> In r deps'.
Proof.
  induction 1 as [| x l Hx Hl IH]; intros deps ws deps' Hok Hrun r Hr; simpl in *.
  - contradiction.
  - apply andb_true_iff in Hok as [Hokx Hokl].
    apply bind_inv_ok in Hrun as (y & d1 & Hfx & Hrun).
    apply bind_inv_ok in Hrun as (ys & d2 & Hrest & Hret).
    injection Hret as <- <-.
    apply in_app_or in Hr as [Hr | Hr].
    + eapply appends_In;
        [apply (appends_mapM f), Forall_forall; intros; apply f_appends | exact Hrest |].
      eapply Hx; eauto.
    + eapply IH; eauto.
Qed.

Lemma dict_buildM_collects key items :
  Forall (fun kv => collects (snd kv)) items ->
  forall obj deps out deps', forallb (fun kv => ok (snd kv)) items = true ->
  dict_buildM key f items obj deps = (Ok out, deps') ->
  forall r, In r (flat_map (fun kv => refs (snd kv)) items) -> In r deps'.
Proof.
  induction 1 as [| [k v] items Hx Hl IH]; intros obj deps out deps' Hok Hrun r Hr; simpl in *.
  - contradiction.
  - apply andb_true_iff in Hok as [Hokx Hokl].
    apply bind_inv_ok in Hrun as (y & d1 & Hfx & Hrun).
    apply in_app_or in Hr as [Hr | Hr].
    + eapply appends_In;
        [apply (appends_dict_buildM key f), Forall_forall; intros; apply f_appends
        | exact Hrun |].
      eapply Hx; eauto.
    + eapply IH; eauto.
Qed.
End LoopsCollect.

Section SerializerDeps.
Variable env : settings.
Variable t : option (string -> string).

Lemma serialize_property_collects v :
  forall deps w deps', one_shape v = true ->
  serialize_property env t v deps = (Ok w, deps') ->
  forall r, In r (referenced v) -> In r deps'.
Proof.
  induction v using pyval_deep_ind; intros deps w deps' Hshape Hrun r Hr;
    try (simpl in Hr; contradiction).
  - (* list *)
    rewrite serialize_property_list in Hrun.
    apply bind_inv_ok in Hrun as (props & d1 & Hrun & Hret). injection Hret as <- <-.
    eapply (mapM_collects _ referenced one_shape); eauto using serialize_property_appends.
  - (* dict *)
    rewrite serialize_property_dict in Hrun.
    apply bind_inv_ok in Hrun as (obj & d1 & Hrun & Hret). injection Hret as <- <-.
    eapply (dict_buildM_collects _ referenced one_shape); eauto using serialize_property_appends.
  - (* resource *)
    simpl in Hrun, Hr, Hshape.
    apply bind_inv_ok in Hrun as ([] & d1 & Hmod & Hrun). injection Hmod as <-.
    destruct Hr as [<- | Hr].
    + eapply appends_In; [apply serialize_property_appends | exact Hrun |].
      apply in_or_app. right. now left.
    + eauto.
  - (* asset *)
    simpl in Hshape. unfold populated in Hshape.
    destruct path as [p |], text as [x |], uri as [u |]; simpl in *;
      try discriminate; try contradiction; rewrite ?app_nil_r in Hr;
      apply bind_inv_ok in Hrun as (y & d1 & Hrun & Hret); injection Hret as <- <-;
      rewrite ?andb_true_r in Hshape; eauto.
  - (* archive *)
    simpl in Hshape. unfold populated in Hshape.
    destruct assets as [p |], path as [x |], uri as [u |]; simpl in *;
      try discriminate; try contradiction; rewrite ?app_nil_r in Hr;
      apply bind_inv_ok in Hrun as (y & d1 & Hrun & Hret); injection Hret as <- <-;
      rewrite ?andb_true_r in Hshape; eauto.
  - (* awaitable *)
    simpl in *. eauto.
  - (* output *)
    rewrite serialize_property_output in Hrun. simpl in Hr, Hshape.
    apply bind_inv_ok in Hrun as ([] & d1 & Hmod & Hrun). injection Hmod as <-.
    apply bind_inv_ok in Hrun as (value & d2 & Hrun & Hret).
    assert (d2 = deps') as ->.
    { destruct (negb k); [now injection Hret |]. destruct (s && _); now injection Hret. }
    apply in_app_or in Hr as [Hr | Hr].
    + eapply appends_In; [apply serialize_property_appends | exact Hrun |].
      apply in_or_app. now right.
    + eauto.
  - (* typed record rendering to a dict *)
    rewrite serialize_property_input_type_dict in Hrun. simpl in Hr, Hshape.
    apply bind_inv_ok in Hrun as (obj & d1 & Hrun & Hret). injection Hret as <- <-.
    eapply (dict_buildM_collects _ referenced one_shape); eauto using serialize_property_appends.
  - (* typed record rendering to an instance of an output type *)
    discriminate.
  - (* typed record, other renderings *)
    destruct to_dict as [d |]; [| discriminate].
    destruct d; try discriminate; contradiction.
  - (* instance of an output type *)
    rewrite serialize_property_instance, serialize_property_dict in Hrun.
    simpl in Hr, Hshape.
    apply bind_inv_ok in Hrun as (obj & d1 & Hrun & Hret). injection Hret as <- <-.
    eapply (dict_buildM_collects _ referenced one_shape); eauto using serialize_property_appends.
  - (* an instance holding no dict *)
    rewrite serialize_property_instance_other in Hrun by assumption. discriminate.
Qed.
End SerializerDeps.

(** ** Serializer: what becomes of [None] *)

Lemma to_wire_null v : to_wire v = Ok WNull -> v = PNone.
Proof.
  destruct v; simpl; try discriminate; try reflexivity.
  - destruct (double_of_int n); discriminate.
  - destruct (mapR to_wire elems); discriminate.
  - destruct (dict_buildR to_wire (fun _ => true) items []); discriminate.
Qed.

Lemma Forall_dict_set {A} (P : string * A -> Prop) k v d :
  P (k, v) -> Forall P d -> Forall P (dict_set k v d).
Proof.
  intros Hkv. induction 1 as [| [k' v'] d Hx Hd IH]; simpl.
  - now constructor.
  - destruct (String.eqb k k'); constructor; auto.
Qed.

Section SerializePropertiesFacts.
Variable env : settings.
Variable t : option (string -> string).

Lemma serialize_properties_step_skip k v struct deps pd :
  serialize_property env t v [] = (Ok PNone, deps) ->
  serialize_properties_step env t k v struct pd = (Ok struct, pd).
Proof.
  intros H. unfold serialize_properties_step, bind, with_fresh_deps. now rewrite H.
Qed.

Lemma serialize_properties_loop_app pre rest :
  forall struct pd,
  serialize_properties_loop env t (pre ++ rest) struct pd =
  bind (serialize_properties_loop env t pre struct)
       (serialize_properties_loop env t rest) pd.
Proof.
  induction pre as [| [k v] pre IH]; intros struct pd.
  - reflexivity.
  - simpl. unfold bind at 1 2 3.
    destruct (serialize_properties_step env t k v struct pd) as [[struct' | e] pd1];
      [apply IH | reflexivity].
Qed.

Lemma serialize_properties_step_nonnull k v struct pd fields pd' :
  Forall (fun kw : string * wire => snd kw <> WNull) struct ->
  serialize_properties_step env t k v struct pd = (Ok fields, pd') ->
  Forall (fun kw : string * wire => snd kw <> WNull) fields.
Proof.
  intros Hstruct Hrun. unfold serialize_properties_step in Hrun.
  apply bind_inv_ok in Hrun as ([result deps] & pd1 & Hser & Hrun).
  cbv zeta in Hrun. cbn [fst snd] in Hrun.
  destruct (is_none result) eqn:Hnone.
  - unfold ret in Hrun. injection Hrun as <- <-. assumption.
  - apply bind_inv_ok in Hrun as (w & pd2 & Hw & Hrun).
    apply bind_inv_ok in Hrun as ([] & pd3 & Hmod & Hrun).
    unfold ret in Hrun. injection Hrun as <- <-.
    apply Forall_dict_set; [| assumption].
    unfold lift in Hw. injection Hw as Hw _.
    simpl. intros ->. apply to_wire_null in Hw. subst result. discriminate.
Qed.

Lemma serialize_properties_loop_nonnull inputs :
  forall struct pd fields pd',
  Forall (fun kw : string * wire => snd kw <> WNull) struct ->
  serialize_properties_loop env t inputs struct pd = (Ok fields, pd') ->
  Forall (fun kw : string * wire => snd kw <> WNull) fields.
Proof.
  induction inputs as [| [k v] inputs IH]; intros struct pd fields pd' Hstruct Hrun.
  - injection Hrun as <- <-. assumption.
  - simpl in Hrun.
    apply bind_inv_ok in Hrun as (struct' & pd1 & Hstep & Hrun).
    eapply IH; [| eassumption].
    eapply serialize_properties_step_nonnull; eassumption.
Qed.

(** Without colliding keys a dict is serialized entry by entry, and each
    entry stays, whatever its value serializes to. *)
Lemma dict_buildM_entries {S A B} key (f : A -> M S B) items :
  forall obj s ys s',
  List.NoDup (dict_keys obj ++ map key (dict_keys items)) ->
  mapM f (dict_values items) s = (Ok ys, s') ->
  dict_buildM key f items obj s = (Ok (obj ++ combine (map key (dict_keys items)) ys), s').
Proof.
  induction items as [| [k v] items IH]; intros obj s ys s' Hnd Hrun; simpl in *.
  - injection Hrun as <- <-. now rewrite app_nil_r.
  - apply bind_inv_ok in Hrun as (y & s1 & Hy & Hrun).
    apply bind_inv_ok in Hrun as (ys' & s2 & Hys & Hret).
    injection Hret as <- <-.
    erewrite bind_ok; [| exact Hy].
    assert (Hfresh : dict_get (key k) obj = None).
    { apply dict_get_None. intros Hin.
      apply NoDup_ListNoDup in Hnd. apply NoDup_app in Hnd as (_ & Hdisj & _).
      apply (Hdisj (key k)); [now apply list_elem_of_In | left]. }
    rewrite (dict_set_fresh _ _ _ Hfresh).
    erewrite IH; [| | exact Hys].
    + now rewrite <- app_assoc.
    + unfold dict_keys in *. rewrite map_app. simpl. rewrite <- app_assoc. exact Hnd.
Qed.
End SerializePropertiesFacts.

(** C1 (as stated, refuted). An entry of a nested dict whose value serializes
    to [None] is not dropped: [serialize_property] returns the dict with the
    entry in it, and [serialize_properties] puts it on the wire as an explicit
    null. *)
Lemma C1_nested_null_is_kept :
  let inner := PDict [("a", PNone)] in
  fst (serialize_property update_run None PNone []) = Ok PNone /\
  (exists obj,
     fst (serialize_property update_run None inner []) = Ok (PDict obj) /\
     dict_get "a" obj = Some PNone) /\
  (exists fields nested,
     fst (serialize_properties update_run None [("p", inner)] []) = Ok (WStruct fields) /\
     dict_get "p" fields = Some (WStruct nested) /\
     dict_get "a" nested = Some WNull).
Proof.
  split; [reflexivity |]. split.
  - exists [("a", PNone)]. split; reflexivity.
  - exists [("p", WStruct [("a", WNull)])], [("a", WNull)]. repeat split; reflexivity.
Qed.

(** C1 (amended). [serialize_properties] treats a top-level property whose
    value serializes to [None] as if it were not among the inputs, so no
    top-level entry of the wire map is null; [serialize_property] keeps every
    entry of a nested dict, whatever its value serializes to, [None]
    included. *)
Theorem C1_null_dropped_at_top_level_only (env : settings) (t : option (string -> string)) :
  (forall pre k v post deps pd,
     serialize_property env t v [] = (Ok PNone, deps) ->
     serialize_properties env t (pre ++ (k, v) :: post) pd =
     serialize_properties env t (pre ++ post) pd) /\
  (forall inputs pd w pd',
     serialize_properties env t inputs pd = (Ok w, pd') ->
     exists fields, w = WStruct fields /\ forall k x, In (k, x) fields -> x <> WNull) /\
  (forall items deps ws deps',
     List.NoDup (map (transform_key t true) (dict_keys items)) ->
     mapM (serialize_property env t) (dict_values items) deps = (Ok ws, deps') ->
     serialize_property env t (PDict items) deps =
     (Ok (PDict (combine (map (transform_key t true) (dict_keys items)) ws)), deps')).
Proof.
  repeat split.
  - intros pre k v post deps pd Hnone.
    assert (E : serialize_properties_loop env t (pre ++ (k, v) :: post) [] pd =
                serialize_properties_loop env t (pre ++ post) [] pd).
    { rewrite !serialize_properties_loop_app. unfold bind.
      destruct (serialize_properties_loop env t pre [] pd) as [[struct | e] pd1];
        [| reflexivity].
      simpl. unfold bind.
      now rewrite (serialize_properties_step_skip env t k v struct deps pd1 Hnone). }
    unfold serialize_properties, bind. now rewrite E.
  - intros inputs pd w pd' Hrun. unfold serialize_properties in Hrun.
    apply bind_inv_ok in Hrun as (fields & pd1 & Hloop & Hret). injection Hret as <- <-.
    exists fields. split; [reflexivity |]. intros k x Hin.
    eapply serialize_properties_loop_nonnull in Hloop; [| constructor].
    rewrite Forall_forall in Hloop. apply (Hloop (k, x)). now apply list_elem_of_In.
  - intros items deps ws deps' Hnd Hrun. rewrite serialize_property_dict.
    erewrite bind_ok; [reflexivity |].
    now apply (dict_buildM_entries (transform_key t true) (serialize_property env t) items []).
Qed.

Lemma C1_null_dropped_at_top_level_only_witness :
  serialize_properties update_run None [("a", PStr "hello"); ("gone", PNone); ("b", PNum 1)] [] =
  serialize_properties update_run None [("a", PStr "hello"); ("b", PNum 1)] [] /\
  serialize_property update_run None (PDict [("x", PNone); ("y", PNum 2)]) [] =
  (Ok (PDict [("x", PNone); ("y", PNum 2)]), []).
Proof.
  split.
  - apply (proj1 (C1_null_dropped_at_top_level_only update_run None)
             [("a", PStr "hello")] "gone" PNone [("b", PNum 1)] [] []).
    reflexivity.
  - apply (proj2 (proj2 (C1_null_dropped_at_top_level_only update_run None))
             [("x", PNone); ("y", PNum 2)] [] [PNone; PNum 2] []).
    + simpl. solve_NoDup.
    + reflexivity.
Defined.

(** ** Serializer: outputs that are not known yet *)

(** C2 (as stated, refuted). An [Output] whose [_is_known] is false does not
    serialize to the sentinel whatever its value: the value is serialized
    before [_is_known] is looked at, so over a value that cannot be
    serialized, or over an awaitable that fails, the call raises. *)
Lemma C2_unknown_output_over_unserializable_value :
  serialize_property update_run None (POutput ["urn:r"] false false (PObject "set")) [] =
    (Raise (ValueError "unexpected input of type set"), ["urn:r"]) /\
  serialize_property preview_run None
    (POutput [] false true (PAwaitable (PFailed (RuntimeError "lookup failed")))) [] =
    (Raise (RuntimeError "lookup failed"), []).
Proof. split; reflexivity. Qed.

(** C2 (amended). For an [Output] whose [_is_known] is false, the value is
    serialized first, into the same [deps]: when that returns, the call
    returns the [UNKNOWN] sentinel, whatever the value serialized to; when
    that raises, the call raises the same exception. [deserialize_property]
    turns the sentinel into [Unknown()] in a dry run, and also outside one
    when [keep_unknowns] is true; outside a dry run with [keep_unknowns]
    absent or false it turns it into [None]. *)
Theorem C2_unknown_output_and_sentinel (env : settings) (t : option (string -> string))
    (rs : list resource) (is_secret : bool) (fut : pyval) (deps : list resource)
    (keep_unknowns : option bool) :
  (forall w deps',
     serialize_property env t fut (deps ++ rs) = (Ok w, deps') ->
     serialize_property env t (POutput rs false is_secret fut) deps =
     (Ok (PStr UNKNOWN), deps')) /\
  (forall e deps',
     serialize_property env t fut (deps ++ rs) = (Raise e, deps') ->
     serialize_property env t (POutput rs false is_secret fut) deps = (Raise e, deps')) /\
  (is_dry_run env = true \/ keep_unknowns = Some true ->
   deserialize_property env (WStr UNKNOWN) keep_unknowns = Ok PUnknown) /\
  (is_dry_run env = false ->
   keep_unknowns = None \/ keep_unknowns = Some false ->
   deserialize_property env (WStr UNKNOWN) keep_unknowns = Ok PNone).
Proof.
  split; [| split; [| split]].
  - intros w deps' Hfut.
    rewrite serialize_property_output.
    erewrite bind_ok; [| reflexivity].
    erewrite bind_ok; [| exact Hfut].
    reflexivity.
  - intros e deps' Hfut.
    rewrite serialize_property_output.
    erewrite bind_ok; [| reflexivity].
    now erewrite bind_raise.
  - intros [Hdry | ->]; simpl.
    + now rewrite Hdry.
    + now rewrite orb_true_r.
  - intros Hdry [-> | ->]; simpl; now rewrite Hdry.
Qed.

Lemma C2_unknown_output_and_sentinel_witness :
  serialize_property update_run None
    (POutput ["urn:bucket"] false true (PAwaitable (PDict [("arn", PStr "aws:s3")]))) [] =
    (Ok (PStr UNKNOWN), ["urn:bucket"]) /\
  deserialize_property update_run (WStr UNKNOWN) (Some true) = Ok PUnknown /\
  deserialize_property update_run (WStr UNKNOWN) (Some false) = Ok PNone /\
  deserialize_property preview_run (WStr UNKNOWN) None = Ok PUnknown.
Proof.
  split; [| split; [| split]].
  - apply (proj1 (C2_unknown_output_and_sentinel update_run None ["urn:bucket"] true
                    (PAwaitable (PDict [("arn", PStr "aws:s3")])) [] None)
             (PDict [("arn", PStr "aws:s3")]) ["urn:bucket"]).
    reflexivity.
  - apply (proj1 (proj2 (proj2 (C2_unknown_output_and_sentinel update_run None [] false
                                  PNone [] (Some true)))));
      right; reflexivity.
  - apply (proj2 (proj2 (proj2 (C2_unknown_output_and_sentinel update_run None [] false
                                  PNone [] (Some false)))));
      [reflexivity | right; reflexivity].
  - apply (proj1 (proj2 (proj2 (C2_unknown_output_and_sentinel preview_run None [] false
                                  PNone [] None))));
      left; reflexivity.
Defined.

(** ** Serializer: assets and archives *)

(** C3 (as stated, refuted). An asset with two of its alternative fields
    serializes without failing, as the first of them; so does an archive. *)
Lemma C3_two_alternatives_serialize :
  serialize_property update_run None
    (PAsset (Some (PStr "index.html")) (Some (PStr "<html/>")) None) [] =
    (Ok (PDict [(_special_sig_key, PStr _special_asset_sig); ("path", PStr "index.html")]), []) /\
  serialize_property update_run None
    (PArchive None (Some (PStr "site.zip")) (Some (PStr "https://example.com/site.zip"))) [] =
    (Ok (PDict [(_special_sig_key, PStr _special_archive_sig); ("path", PStr "site.zip")]), []).
Proof. split; reflexivity. Qed.

(** C3 (amended). An asset with none of [path], [text], [uri] (an archive
    with none of [assets], [path], [uri]) makes the call fail with an
    [AssertionError]. With one or more of them the call does not fail on that
    account: the first one present, in that order, is serialized and placed
    under its name in the signature map; the others are ignored. *)
Theorem C3_asset_and_archive_alternatives (env : settings) (t : option (string -> string))
    (deps : list resource) :
  (forall path text uri,
     serialize_property env t (PAsset path text uri) deps =
     match first_populated (asset_alternatives path text uri) with
     | None => (Raise (AssertionError "unknown asset type"), deps)
     | Some (name, v) =>
         (do w <- serialize_property env t v;
          ret (PDict [(_special_sig_key, PStr _special_asset_sig); (name, w)])) deps
     end) /\
  (forall assets path uri,
     serialize_property env t (PArchive assets path uri) deps =
     match first_populated (archive_alternatives assets path uri) with
     | None => (Raise (AssertionError "unknown archive type"), deps)
     | Some (name, v) =>
         (do w <- serialize_property env t v;
          ret (PDict [(_special_sig_key, PStr _special_archive_sig); (name, w)])) deps
     end).
Proof.
  split.
  - intros [p |] [x |] [u |]; reflexivity.
  - intros [a |] [p |] [u |]; reflexivity.
Qed.

(** ** Serializer: dependencies *)

(** C4 (as stated, refuted). A resource referenced from an alternative field
    that the serializer does not pick is left out of [deps]. *)
Lemma C4_reference_in_ignored_alternative :
  let v := PAsset (Some (PStr "index.html"))
                  (Some (PCustomResource "urn:bucket" (PStr "bucket-1"))) None in
  In "urn:bucket" (referenced v) /\
  exists w deps',
    serialize_property update_run None v [] = (Ok w, deps') /\ ~ In "urn:bucket" deps'.
Proof.
  split.
  - simpl. now left.
  - eexists _, _. split; [reflexivity |]. simpl. tauto.
Qed.

(** C4 (amended). In a graph where no asset or archive has more than one of
    its alternative fields and each typed record renders to a dict, when
    [serialize_property] returns, [deps] holds what it held before and every
    entity referenced anywhere in the graph: each [CustomResource] and each
    resource of an [Output], also inside lists, dicts, assets, archives,
    awaited values and rendered typed records. *)
Theorem C4_deps_complete (env : settings) (t : option (string -> string))
    (v : pyval) (deps : list resource) (w : pyval) (deps' : list resource) :
  one_shape v = true ->
  serialize_property env t v deps = (Ok w, deps') ->
  (forall r, In r deps -> In r deps') /\
  (forall r, In r (referenced v) -> In r deps').
Proof.
  intros Hshape Hrun. split.
  - intros r. eapply appends_In; [apply serialize_property_appends | exact Hrun].
  - eapply serialize_property_collects; eassumption.
Qed.

Lemma C4_deps_complete_witness :
  In "urn:bucket"
    (snd (serialize_property update_run None
            (PDict [("bucket", PCustomResource "urn:bucket"
                                 (POutput ["urn:bucket"] true false
                                    (PAwaitable (PStr "bucket-1"))));
                    ("files", PList [PAsset None
                                       (Some (POutput ["urn:role"] true false
                                                (PAwaitable (PStr "text")))) None])]) [])) /\
  In "urn:role"
    (snd (serialize_property update_run None
            (PDict [("bucket", PCustomResource "urn:bucket"
                                 (POutput ["urn:bucket"] true false
                                    (PAwaitable (PStr "bucket-1"))));
                    ("files", PList [PAsset None
                                       (Some (POutput ["urn:role"] true false
                                                (PAwaitable (PStr "text")))) None])]) [])).
Proof.
  pose proof (C4_deps_complete update_run None
    (PDict [("bucket", PCustomResource "urn:bucket"
                         (POutput ["urn:bucket"] true false (PAwaitable (PStr "bucket-1"))));
            ("files", PList [PAsset None
                               (Some (POutput ["urn:role"] true false
                                        (PAwaitable (PStr "text")))) None])])
    []
    (PDict [("bucket", PStr "bucket-1");
            ("files", PList [PDict [(_special_sig_key, PStr _special_asset_sig);
                                    ("text", PStr "text")]])])
    ["urn:bucket"; "urn:bucket"; "urn:role"] eq_refl eq_refl) as [_ Hrefs].
  split; apply Hrefs; simpl; tauto.
Defined.

(** ** Loops with exceptions only *)

Section MapRFacts.
Context {A B : Type}.
Variable f : A -> result B.

Lemma mapR_cons x l :
  mapR f (x :: l) = (try y <- f x; try ys <- mapR f l; Ok (y :: ys)).
Proof. reflexivity. Qed.

Lemma mapR_Forall2 l ys : mapR f l = Ok ys <-> Forall2 (fun x y => f x = Ok y) l ys.
Proof.
  revert ys. induction l as [| x l IH]; intros ys; simpl.
  - split; [intros [= <-]; constructor | intros H; inversion H; reflexivity].
  - split.
    + intros H. apply rbind_inv_ok in H as (y & Hy & H).
      apply rbind_inv_ok in H as (ys' & Hys & H). injection H as <-.
      constructor; [assumption | now apply IH].
    + intros H. inversion H as [| ? y ? ys' Hy Hys]; subst.
      rewrite Hy. simpl. apply IH in Hys. rewrite Hys. reflexivity.
Qed.

Lemma mapR_length l ys : mapR f l = Ok ys -> length ys = length l.
Proof. intros H. apply mapR_Forall2 in H. symmetry. eapply Forall2_length, H. Qed.

Lemma mapR_total (g : A -> B) l : Forall (fun x => f x = Ok (g x)) l -> mapR f l = Ok (map g l).
Proof.
  induction 1 as [| x l Hx Hl IH]; simpl; [reflexivity |].
  rewrite Hx. simpl. rewrite IH. reflexivity.
Qed.

Lemma mapR_results (P : B -> Prop) l ys :
  (forall x y, f x = Ok y -> P y) -> mapR f l = Ok ys -> Forall P ys.
Proof.
  intros HP H. apply mapR_Forall2 in H.
  induction H; constructor; eauto.
Qed.
End MapRFacts.

Lemma mapR_map_total {A B D} (f : B -> result D) (g : A -> B) (h : A -> D) (l : list A) :
  Forall (fun x => f (g x) = Ok (h x)) l -> mapR f (map g l) = Ok (map h l).
Proof.
  intros H.
  induction H as [| x l Hx Hl IH]; [reflexivity |].
  cbn [map]. rewrite mapR_cons, Hx. cbn [rbind]. now rewrite IH.
Qed.

Section DictBuildRFacts.
Context {A B : Type}.
Variable f : A -> result B.
Variable keep : B -> bool.

Lemma dict_buildR_get_None k items :
  forall obj out,
  dict_buildR f keep items obj = Ok out ->
  dict_get k items = None -> dict_get k obj = None -> dict_get k out = None.
Proof.
  induction items as [| [k' v] items IH]; intros obj out Hrun Hitems Hobj; simpl in *.
  - now injection Hrun as <-.
  - apply rbind_inv_ok in Hrun as (y & Hy & Hrun).
    destruct (String.eqb k k') eqn:E; [discriminate |].
    eapply IH; [exact Hrun | assumption |].
    destruct (keep y); [| assumption].
    rewrite dict_get_set, E. assumption.
Qed.

Lemma dict_buildR_NoDup items :
  forall obj out,
  dict_buildR f keep items obj = Ok out ->
  List.NoDup (dict_keys obj) -> List.NoDup (dict_keys out).
Proof.
  induction items as [| [k v] items IH]; intros obj out Hrun Hnd; simpl in *.
  - now injection Hrun as <-.
  - apply rbind_inv_ok in Hrun as (y & Hy & Hrun).
    eapply IH; [exact Hrun |].
    destruct (keep y); [now apply dict_set_NoDup | assumption].
Qed.

Lemma dict_buildR_results (P : B -> Prop) items :
  (forall x y, f x = Ok y -> P y) ->
  forall obj out,
  dict_buildR f keep items obj = Ok out ->
  Forall (fun kv => P (snd kv)) obj -> Forall (fun kv => P (snd kv)) out.
Proof.
  intros HP. induction items as [| [k v] items IH]; intros obj out Hrun Hobj; simpl in *.
  - now injection Hrun as <-.
  - apply rbind_inv_ok in Hrun as (y & Hy & Hrun).
    eapply IH; [exact Hrun |].
    destruct (keep y); [| assumption].
    apply Forall_dict_set; [| assumption]. simpl. eauto.
Qed.

Lemma dict_buildR_kept items :
  forall obj out,
  dict_buildR f keep items obj = Ok out ->
  Forall (fun kv => keep (snd kv) = true) obj ->
  Forall (fun kv => keep (snd kv) = true) out.
Proof.
  induction items as [| [k v] items IH]; intros obj out Hrun Hobj; simpl in *.
  - now injection Hrun as <-.
  - apply rbind_inv_ok in Hrun as (y & Hy & Hrun).
    eapply IH; [exact Hrun |].
    destruct (keep y) eqn:E; [| assumption].
    apply Forall_dict_set; assumption.
Qed.

(** With distinct keys the loop keeps, in order, the entries it is told to
    keep. *)
Lemma dict_buildR_entries items :
  forall obj ys,
  List.NoDup (dict_keys obj ++ dict_keys items) ->
  mapR f (dict_values items) = Ok ys ->
  dict_buildR f keep items obj =
  Ok (obj ++ List.filter (fun kv => keep (snd kv)) (combine (dict_keys items) ys)).
Proof.
  induction items as [| [k v] items IH]; intros obj ys Hnd Hrun; simpl in *.
  - injection Hrun as <-. now rewrite app_nil_r.
  - apply rbind_inv_ok in Hrun as (y & Hy & Hrun).
    apply rbind_inv_ok in Hrun as (ys' & Hys & Hret). injection Hret as <-.
    rewrite Hy. simpl.
    destruct (keep y) eqn:E.
    + assert (Hfresh : dict_get k obj = None).
      { apply dict_get_None. intros Hin.
        apply NoDup_ListNoDup in Hnd. apply NoDup_app in Hnd as (_ & Hdisj & _).
        apply (Hdisj k); [now apply list_elem_of_In | left]. }
      rewrite (dict_set_fresh _ _ _ Hfresh).
      rewrite (IH _ ys'); [| | exact Hys].
      * now rewrite <- app_assoc.
      * unfold dict_keys in *. rewrite map_app. simpl. rewrite <- app_assoc. exact Hnd.
    + apply IH; [| exact Hys].
      apply NoDup_ListNoDup in Hnd. apply NoDup_ListNoDup.
      apply NoDup_app in Hnd as (Ha & Hdisj & Hb).
      apply NoDup_app. repeat split; [assumption | | now inversion Hb].
      intros x Hx Hx'. apply (Hdisj x Hx). now right.
Qed.
End DictBuildRFacts.

Lemma combine_keys_map {A B} (g : A -> B) (items : list (string * A)) :
  combine (dict_keys items) (map g (dict_values items)) =
  map (fun kv => (fst kv, g (snd kv))) items.
Proof.
  induction items as [| [k v] items IH]; simpl; [reflexivity |]. now rewrite <- IH.
Qed.

Lemma filter_all {A} (p : A -> bool) (l : list A) :
  Forall (fun x => p x = true) l -> List.filter p l = l.
Proof.
  induction 1 as [| x l Hx Hl IH]; simpl; [reflexivity |]. now rewrite Hx, IH.
Qed.

(** ** Deserializer: the equations of [deserialize_property] *)

Section DeserializerFacts.
Variable env : settings.

Lemma deserialize_property_list vs ku :
  deserialize_property env (WList vs) ku =
  (try values <- mapR (fun v => deserialize_property env v ku) vs;
   if existsb is_rpc_secret values then
     try raw <- mapR unwrap_rpc_secret values;
     Ok (secret_wrapper (PList raw))
   else Ok (PList values)).
Proof. reflexivity. Qed.

Lemma deserialize_property_struct fields ku :
  deserialize_property env (WStruct fields) ku =
  (try props <- deserialize_properties env fields ku;
   match props with
   | PDict items =>
       if existsb is_rpc_secret (dict_values items) then
         try raw <- dict_buildR unwrap_rpc_secret (fun _ => true) items [];
         Ok (secret_wrapper (PDict raw))
       else Ok props
   | _ => Ok props
   end).
Proof. reflexivity. Qed.

Lemma deserialize_properties_plain fields ku :
  dict_get _special_sig_key fields = None ->
  deserialize_properties env fields ku =
  (try output <-
     dict_buildR (fun v => deserialize_property env v ku)
       (fun value => negb (is_none value)) fields [];
   Ok (PDict output)).
Proof.
  intros H. unfold deserialize_properties, deserialize_properties_of. now rewrite H.
Qed.

Lemma is_rpc_secret_wrapper payload : is_rpc_secret (secret_wrapper payload) = true.
Proof. reflexivity. Qed.

Lemma unwrap_secret_wrapper payload :
  unwrap_rpc_secret (secret_wrapper payload) = Ok payload.
Proof. reflexivity. Qed.

Lemma stripped_wrapper payload : stripped (secret_wrapper payload) = payload.
Proof. reflexivity. Qed.

Lemma stripped_not_secret v : is_rpc_secret v = false -> stripped v = v.
Proof. intros H. unfold stripped. now rewrite H. Qed.

Lemma unwrap_not_secret v : is_rpc_secret v = false -> unwrap_rpc_secret v = Ok v.
Proof. intros H. unfold unwrap_rpc_secret. now rewrite H. Qed.

Lemma unwraps_not_secret v : is_rpc_secret v = false -> unwraps v.
Proof.
  intros H. unfold unwraps. now rewrite unwrap_not_secret, stripped_not_secret.
Qed.

Lemma deserialize_properties_unwraps fields ku v :
  deserialize_properties env fields ku = Ok v -> unwraps v.
Proof.
  unfold deserialize_properties, deserialize_properties_of.
  destruct (dict_get _special_sig_key fields) as [sig |] eqn:Hsig.
  - destruct (wire_eq_str sig _special_asset_sig).
    { destruct (dict_get "path" fields); [intros [= <-]; reflexivity |].
      destruct (dict_get "text" fields); [intros [= <-]; reflexivity |].
      destruct (dict_get "uri" fields); [intros [= <-]; reflexivity | discriminate]. }
    destruct (wire_eq_str sig _special_archive_sig).
    { destruct (dict_get_with _ "assets" fields) as [[a | e] |];
        [intros [= <-]; reflexivity | discriminate |].
      destruct (dict_get "path" fields); [intros [= <-]; reflexivity |].
      destruct (dict_get "uri" fields); [intros [= <-]; reflexivity | discriminate]. }
    destruct (wire_eq_str sig _special_secret_sig); [| discriminate].
    destruct (dict_get_with _ "value" fields) as [[a | e] |]; try discriminate.
    intros [= <-]. reflexivity.
  - intros H. apply rbind_inv_ok in H as (output & Hout & H). injection H as <-.
    apply unwraps_not_secret. simpl.
    now rewrite (dict_buildR_get_None _ _ _ _ _ _ Hout Hsig eq_refl).
Qed.

Lemma deserialize_property_unwraps w ku v :
  deserialize_property env w ku = Ok v -> unwraps v.
Proof.
  destruct w as [| b | n | s | vs | fields].
  - intros [= <-]. reflexivity.
  - intros [= <-]. reflexivity.
  - intros [= <-]. reflexivity.
  - simpl. destruct (String.eqb s UNKNOWN); intros [= <-]; [| reflexivity].
    destruct (is_dry_run env || truthy ku); reflexivity.
  - rewrite deserialize_property_list. intros H.
    apply rbind_inv_ok in H as (values & Hvalues & H).
    destruct (existsb is_rpc_secret values).
    + apply rbind_inv_ok in H as (raw & Hraw & H). injection H as <-. reflexivity.
    + injection H as <-. reflexivity.
  - rewrite deserialize_property_struct. intros H.
    apply rbind_inv_ok in H as (props & Hprops & H).
    apply deserialize_properties_unwraps in Hprops.
    destruct props; try (injection H as <-; assumption).
    destruct (existsb is_rpc_secret (dict_values items)).
    + apply rbind_inv_ok in H as (raw & Hraw & H). injection H as <-. reflexivity.
    + injection H as <-. assumption.
Qed.

(** Results of a deserialized list or map: how [deserialize_property]
    finishes once the members are there. *)
Lemma deserialize_property_list_of vs ku values :
  mapR (fun v => deserialize_property env v ku) vs = Ok values ->
  deserialize_property env (WList vs) ku =
  Ok (if existsb is_rpc_secret values
      then secret_wrapper (PList (map stripped values))
      else PList values).
Proof.
  intros Hvalues. rewrite deserialize_property_list, Hvalues. simpl.
  destruct (existsb is_rpc_secret values); [| reflexivity].
  rewrite (mapR_total _ stripped); [reflexivity |].
  eapply mapR_results; [| exact Hvalues]. intros x y. apply deserialize_property_unwraps.
Qed.

Lemma deserialize_properties_plain_items fields ku items :
  dict_get _special_sig_key fields = None ->
  deserialize_properties env fields ku = Ok (PDict items) ->
  List.NoDup (dict_keys items) /\
  Forall (fun kv => unwraps (snd kv)) items /\
  Forall (fun kv => is_none (snd kv) = false) items.
Proof.
  intros Hsig H. rewrite (deserialize_properties_plain _ _ Hsig) in H.
  apply rbind_inv_ok in H as (output & Hout & H). injection H as <-.
  repeat split.
  - eapply dict_buildR_NoDup; [exact Hout | constructor].
  - eapply (dict_buildR_results _ _ unwraps); [| exact Hout | constructor].
    intros x y. apply deserialize_property_unwraps.
  - eapply Forall_impl;
      [eapply dict_buildR_kept; [exact Hout | constructor] |].
    intros kv. simpl. now destruct (is_none (snd kv)).
Qed.

Lemma deserialize_property_struct_of fields ku items :
  dict_get _special_sig_key fields = None ->
  deserialize_properties env fields ku = Ok (PDict items) ->
  deserialize_property env (WStruct fields) ku =
  Ok (if existsb is_rpc_secret (dict_values items)
      then secret_wrapper (PDict (map (fun kv => (fst kv, stripped (snd kv))) items))
      else PDict items).
Proof.
  intros Hsig Hprops.
  destruct (deserialize_properties_plain_items _ _ _ Hsig Hprops) as (Hnd & Hunwraps & _).
  rewrite deserialize_property_struct, Hprops. simpl.
  destruct (existsb is_rpc_secret (dict_values items)); [| reflexivity].
  rewrite (dict_buildR_entries _ _ _ [] (map stripped (dict_values items))).
  - simpl. rewrite combine_keys_map, filter_all; [reflexivity |].
    apply Forall_forall. reflexivity.
  - exact Hnd.
  - apply mapR_total. unfold dict_values. apply Forall_map.
    exact Hunwraps.
Qed.
End DeserializerFacts.

(** The deserializer builds no instance of an output type. *)
Lemma deserialize_property_not_instance env w ku v :
  deserialize_property env w ku = Ok v -> is_instance v = false.
Proof.
  destruct w as [| b | n | s | vs | fields]; simpl; intros H.
  1-3: injection H as <-; reflexivity.
  - destruct (String.eqb s UNKNOWN); injection H as <-; [| reflexivity].
    now destruct (is_dry_run env || truthy ku).
  - destruct (mapR _ vs) as [values | e]; simpl in H; [| discriminate].
    destruct (existsb is_rpc_secret values).
    + destruct (mapR unwrap_rpc_secret values); simpl in H; [| discriminate].
      injection H as <-. reflexivity.
    + injection H as <-. reflexivity.
  - unfold deserialize_properties_of in H.
    repeat match type of H with
           | context [match ?x with _ => _ end] =>
               destruct x eqn:?; simpl in H; try discriminate
           | context [rbind ?x _] =>
               lazymatch x with rbind _ _ => fail | _ => idtac end;
               destruct x eqn:?; simpl in H; try discriminate
           end;
      injection H as <-; reflexivity.
Qed.

(** ** Deserializer: secrets bubble up *)

(** C5. When a member of a wire list, or of a wire map without the
    signature key, deserializes to a secret wrapper, [deserialize_property]
    returns one secret wrapper around the container, in which every member
    has lost its own wrapper and the other members are as they were; a list
    inside a list bubbles once at each level, leaving a single wrapper. *)
Theorem C5_secret_bubbling (env : settings) (keep_unknowns : option bool) :
  (forall vs values,
     mapR (fun v => deserialize_property env v keep_unknowns) vs = Ok values ->
     existsb is_rpc_secret values = true ->
     deserialize_property env (WList vs) keep_unknowns =
     Ok (secret_wrapper (PList (map stripped values)))) /\
  (forall fields items,
     dict_get _special_sig_key fields = None ->
     deserialize_properties env fields keep_unknowns = Ok (PDict items) ->
     existsb is_rpc_secret (dict_values items) = true ->
     deserialize_property env (WStruct fields) keep_unknowns =
     Ok (secret_wrapper (PDict (map (fun kv => (fst kv, stripped (snd kv))) items)))) /\
  (forall vs values,
     mapR (fun v => deserialize_property env v keep_unknowns) vs = Ok values ->
     existsb is_rpc_secret values = true ->
     deserialize_property env (WList [WList vs]) keep_unknowns =
     Ok (secret_wrapper (PList [PList (map stripped values)]))) /\
  (forall payload, stripped (secret_wrapper payload) = payload) /\
  (forall v, is_rpc_secret v = false -> stripped v = v).
Proof.
  repeat split.
  - intros vs values Hvalues Hsecret.
    rewrite (deserialize_property_list_of _ _ _ _ Hvalues). now rewrite Hsecret.
  - intros fields items Hsig Hprops Hsecret.
    rewrite (deserialize_property_struct_of _ _ _ _ Hsig Hprops). now rewrite Hsecret.
  - intros vs values Hvalues Hsecret.
    apply (deserialize_property_list_of env [WList vs] keep_unknowns
             [secret_wrapper (PList (map stripped values))]).
    rewrite mapR_cons.
    rewrite (deserialize_property_list_of _ _ _ _ Hvalues). now rewrite Hsecret.
  - apply stripped_not_secret.
Qed.

Lemma C5_secret_bubbling_witness :
  let secret_one := WStruct [(_special_sig_key, WStr _special_secret_sig); ("value", WNum 1)] in
  deserialize_property update_run (WList [WStr "a"; secret_one]) None =
    Ok (secret_wrapper (PList [PStr "a"; PNum 1])) /\
  deserialize_property update_run (WStruct [("user", WStr "a"); ("password", secret_one)]) None =
    Ok (secret_wrapper (PDict [("user", PStr "a"); ("password", PNum 1)])) /\
  deserialize_property update_run (WList [WList [WStr "a"; secret_one]]) None =
    Ok (secret_wrapper (PList [PList [PStr "a"; PNum 1]])).
Proof.
  intros secret_one.
  destruct (C5_secret_bubbling update_run None) as (Hlist & Hstruct & Hnested & _).
  split; [| split].
  - apply (Hlist [WStr "a"; secret_one] [PStr "a"; secret_wrapper (PNum 1)]); reflexivity.
  - apply (Hstruct [("user", WStr "a"); ("password", secret_one)]
                   [("user", PStr "a"); ("password", secret_wrapper (PNum 1))]); reflexivity.
  - apply (Hnested [WStr "a"; secret_one] [PStr "a"; secret_wrapper (PNum 1)]); reflexivity.
Defined.

(** ** Deserializer: lists keep their elements *)

Lemma existsb_false_Forall {A} (p : A -> bool) l :
  existsb p l = false -> Forall (fun x => p x = false) l.
Proof.
  induction l as [| x l IH]; simpl; [constructor |].
  intros H. apply orb_false_iff in H as [Hx Hl]. constructor; auto.
Qed.

Lemma map_stripped_none_secret values :
  existsb is_rpc_secret values = false -> map stripped values = values.
Proof.
  intros H. apply existsb_false_Forall in H.
  induction H as [| x l Hx Hl IH]; simpl; [reflexivity |].
  now rewrite stripped_not_secret, IH.
Qed.

(** C10. The list that [deserialize_property] returns for a wire list,
    whether bare or inside the secret wrapper, has the length of the wire
    list and at each position the deserialized element of that position
    (without its secret wrapper), a [None] included. Only the entries of a
    map are dropped when they deserialize to [None]. *)
Theorem C10_list_elements_kept (env : settings) (keep_unknowns : option bool) :
  (forall vs values,
     mapR (fun v => deserialize_property env v keep_unknowns) vs = Ok values ->
     exists elems,
       (deserialize_property env (WList vs) keep_unknowns = Ok (PList elems) \/
        deserialize_property env (WList vs) keep_unknowns = Ok (secret_wrapper (PList elems))) /\
       length elems = length vs /\
       (forall i w, vs !! i = Some w ->
          exists v, deserialize_property env w keep_unknowns = Ok v /\
                    elems !! i = Some (stripped v)) /\
       (forall i w, vs !! i = Some w ->
          deserialize_property env w keep_unknowns = Ok PNone -> elems !! i = Some PNone)) /\
  (forall fields ys,
     dict_get _special_sig_key fields = None ->
     List.NoDup (dict_keys fields) ->
     mapR (fun v => deserialize_property env v keep_unknowns) (dict_values fields) = Ok ys ->
     deserialize_properties env fields keep_unknowns =
     Ok (PDict (List.filter (fun kv => negb (is_none (snd kv))) (combine (dict_keys fields) ys)))).
Proof.
  split.
  - intros vs values Hvalues.
    pose proof (deserialize_property_list_of _ _ _ _ Hvalues) as Hres.
    pose proof (proj1 (mapR_Forall2 _ _ _) Hvalues) as Hrel.
    assert (Helems : exists elems,
               (deserialize_property env (WList vs) keep_unknowns = Ok (PList elems) \/
                deserialize_property env (WList vs) keep_unknowns =
                  Ok (secret_wrapper (PList elems))) /\
               elems = map stripped values).
    { destruct (existsb is_rpc_secret values) eqn:Hsecret.
      - exists (map stripped values). split; [now right | reflexivity].
      - exists values. split; [now left |].
        symmetry. now apply map_stripped_none_secret. }
    destruct Helems as (elems & Hdes & ->).
    assert (Hat : forall i w, vs !! i = Some w ->
               exists v, deserialize_property env w keep_unknowns = Ok v /\
                         map stripped values !! i = Some (stripped v)).
    { intros i w Hi.
      destruct (Forall2_lookup_l _ _ _ _ _ Hrel Hi) as (v & Hv & Hw).
      exists v. split; [assumption |].
      rewrite list_lookup_fmap. now rewrite Hv. }
    exists (map stripped values). repeat split.
    + exact Hdes.
    + rewrite length_map. eapply mapR_length, Hvalues.
    + exact Hat.
    + intros i w Hi Hnone. destruct (Hat i w Hi) as (v & Hv & Hlook).
      rewrite Hv in Hnone. injection Hnone as ->. exact Hlook.
  - intros fields ys Hsig Hnd Hys.
    rewrite (deserialize_properties_plain _ _ _ Hsig).
    rewrite (dict_buildR_entries _ _ _ [] ys); [reflexivity | exact Hnd | exact Hys].
Qed.

Lemma C10_list_elements_kept_witness :
  deserialize_property update_run (WList [WNull; WStr UNKNOWN; WNum 3]) None =
    Ok (PList [PNone; PNone; PNum 3]) /\
  deserialize_properties update_run [("a", WNull); ("b", WStr UNKNOWN); ("c", WNum 3)] None =
    Ok (PDict [("c", PNum 3)]).
Proof.
  destruct (C10_list_elements_kept update_run None) as (Hlist & Hmap).
  split.
  - destruct (Hlist [WNull; WStr UNKNOWN; WNum 3] [PNone; PNone; PNum 3] eq_refl)
      as (elems & _ & _ & _ & _).
    reflexivity.
  - apply (Hmap [("a", WNull); ("b", WStr UNKNOWN); ("c", WNum 3)] [PNone; PNone; PNum 3]).
    + reflexivity.
    + simpl. solve_NoDup.
    + reflexivity.
Defined.

(** ** Round trip of plain values *)

Lemma distinct_NoDup keys : distinct keys = true -> List.NoDup keys.
Proof.
  induction keys as [| k keys IH]; simpl; [constructor |].
  intros H. apply andb_true_iff in H as [Hk Hrest].
  constructor; [| auto].
  intros Hin. apply negb_true_iff in Hk.
  assert (existsb (String.eqb k) keys = true); [| congruence].
  apply existsb_exists. exists k. split; [assumption | apply String.eqb_refl].
Qed.

Lemma mapM_id {S A} (f : A -> M S A) l s :
  Forall (fun x => forall s, f x s = (Ok x, s)) l -> mapM f l s = (Ok l, s).
Proof.
  induction 1 as [| x l Hx Hl IH]; simpl; [reflexivity |].
  erewrite bind_ok; [| apply Hx]. erewrite bind_ok; [| apply IH]. reflexivity.
Qed.

Lemma combine_keys_values {A} (items : list (string * A)) :
  combine (dict_keys items) (dict_values items) = items.
Proof. induction items as [| [k v] items IH]; simpl; [reflexivity |]. now rewrite IH. Qed.

Lemma combine_keys_map_snd {A B} (g : A -> B) (items : list (string * A)) :
  combine (dict_keys items) (map (fun kv => g (snd kv)) items) =
  map (fun kv => (fst kv, g (snd kv))) items.
Proof. induction items as [| [k v] items IH]; simpl; [reflexivity |]. now rewrite <- IH. Qed.

Lemma dict_get_filter_map_None {A B} (g : A -> B) (p : string * B -> bool) k
    (items : list (string * A)) :
  dict_get k items = None ->
  dict_get k (List.filter p (map (fun kv => (fst kv, g (snd kv))) items)) = None.
Proof.
  induction items as [| [k' v] items IH]; simpl; [reflexivity |].
  destruct (String.eqb k k') eqn:E; [discriminate |]. intros H.
  destruct (p (k', g v)); simpl; [rewrite E |]; auto.
Qed.

Lemma dict_get_map_values {A B} (g : A -> B) k (items : list (string * A)) :
  dict_get k (map (fun kv => (fst kv, g (snd kv))) items) = option_map g (dict_get k items).
Proof.
  induction items as [| [k' v] items IH]; simpl; [reflexivity |].
  now destruct (String.eqb k k').
Qed.

Lemma dict_keys_map_values {A B} (g : A -> B) (items : list (string * A)) :
  dict_keys (map (fun kv => (fst kv, g (snd kv))) items) = dict_keys items.
Proof. induction items as [| [k v] items IH]; simpl; [reflexivity |]. now rewrite IH. Qed.

Lemma dict_values_map_values {A B} (g : A -> B) (items : list (string * A)) :
  dict_values (map (fun kv => (fst kv, g (snd kv))) items) = map g (dict_values items).
Proof. induction items as [| [k v] items IH]; simpl; [reflexivity |]. now rewrite IH. Qed.

Section RoundTrip.
Variable env : settings.

Lemma serialize_property_plain v :
  plain v = true -> forall deps, serialize_property env None v deps = (Ok v, deps).
Proof.
  induction v using pyval_rect'; intros Hplain deps; try discriminate; try reflexivity.
  - rewrite serialize_property_list. simpl in Hplain.
    erewrite bind_ok; [reflexivity |]. apply mapM_id.
    rewrite forallb_forall in Hplain. rewrite Forall_forall in H |- *.
    intros x Hx. apply H; [assumption |]. apply Hplain. now apply list_elem_of_In.
  - rewrite serialize_property_dict. simpl in Hplain.
    apply andb_true_iff in Hplain as [Hkeys Hplain].
    erewrite bind_ok; [reflexivity |].
    rewrite (dict_buildM_entries (transform_key None true) _ items [] deps
               (dict_values items) deps).
    + simpl. unfold transform_key. rewrite map_id. now rewrite combine_keys_values.
    + simpl. unfold transform_key. rewrite map_id. now apply distinct_NoDup.
    + apply mapM_id. unfold dict_values. apply Forall_map.
      rewrite forallb_forall in Hplain. rewrite Forall_forall in H |- *.
      intros kv Hkv. apply H; [assumption |]. apply Hplain. now apply list_elem_of_In.
Qed.

Lemma double_of_int_exact n : (Z.abs n <=? 2 ^ 53)%Z = true -> double_of_int n = Ok n.
Proof. intros H. unfold double_of_int. now rewrite H. Qed.

Lemma to_wire_plain v :
  plain v = true -> exact_numbers v = true -> to_wire v = Ok (wire_of_plain v).
Proof.
  induction v using pyval_rect'; intros Hplain Hexact; try discriminate; try reflexivity.
  - simpl in *. now rewrite double_of_int_exact.
  - simpl in *. rewrite (mapR_total _ wire_of_plain); [reflexivity |].
    rewrite forallb_forall in Hplain, Hexact. rewrite Forall_forall in H |- *.
    intros x Hx. pose proof Hx as Hx'. apply list_elem_of_In in Hx'. auto.
  - simpl in Hplain, Hexact. apply andb_true_iff in Hplain as [Hkeys Hplain].
    change (to_wire (PDict items)) with
      (try fields <- dict_buildR to_wire (fun _ => true) items []; Ok (WStruct fields)).
    rewrite (dict_buildR_entries _ _ _ [] (map wire_of_plain (dict_values items))).
    + simpl. rewrite combine_keys_map, filter_all; [reflexivity |].
      apply Forall_forall. reflexivity.
    + now apply distinct_NoDup.
    + apply mapR_total. unfold dict_values. apply Forall_map.
      rewrite forallb_forall in Hplain, Hexact. rewrite Forall_forall in H |- *.
      intros kv Hkv. pose proof Hkv as Hkv'. apply list_elem_of_In in Hkv'. auto.
Qed.

Lemma prune_not_secret v :
  plain v = true -> unreserved v = true -> is_rpc_secret (prune v) = false.
Proof.
  destruct v; try reflexivity; try discriminate. simpl. intros _ H.
  apply andb_true_iff in H as [Hsig _]. apply negb_true_iff in Hsig.
  unfold dict_has in Hsig.
  destruct (dict_get _special_sig_key items) eqn:E; [discriminate |].
  now rewrite (dict_get_filter_map_None prune _ _ _ E).
Qed.

Lemma deserialize_property_plain ku v :
  plain v = true -> unreserved v = true ->
  deserialize_property env (wire_of_plain v) ku = Ok (prune v).
Proof.
  induction v using pyval_rect'; intros Hplain Hun; try discriminate; try reflexivity.
  - simpl in *. apply negb_true_iff in Hun. now rewrite Hun.
  - simpl in Hplain, Hun.
    assert (Helems : Forall (fun x => deserialize_property env (wire_of_plain x) ku
                                      = Ok (prune x) /\ plain x = true /\ unreserved x = true) elems).
    { rewrite forallb_forall in Hplain, Hun. rewrite Forall_forall in H |- *.
      intros x Hx. pose proof Hx as Hx'. apply list_elem_of_In in Hx'. auto. }
    change (wire_of_plain (PList elems)) with (WList (map wire_of_plain elems)).
    rewrite (deserialize_property_list_of _ _ _ (map prune elems)).
    + assert (existsb is_rpc_secret (map prune elems) = false) as ->; [| reflexivity].
      clear -Helems. induction Helems as [| x l (_ & Hp & Hx) _ IH]; simpl; [reflexivity |].
      now rewrite prune_not_secret, IH.
    + apply mapR_map_total. eapply Forall_impl; [exact Helems |]. now intros x [Hx _].
  - simpl in Hplain, Hun.
    apply andb_true_iff in Hplain as [Hkeys Hplain].
    apply andb_true_iff in Hun as [Hsig Hun].
    apply negb_true_iff in Hsig. unfold dict_has in Hsig.
    destruct (dict_get _special_sig_key items) eqn:Esig; [discriminate |]. clear Hsig.
    assert (Hitems : Forall (fun kv => deserialize_property env (wire_of_plain (snd kv)) ku
                                       = Ok (prune (snd kv)) /\ plain (snd kv) = true /\
                                         unreserved (snd kv) = true)
                       items).
    { rewrite forallb_forall in Hplain, Hun. rewrite Forall_forall in H |- *.
      intros x Hx. pose proof Hx as Hx'. apply list_elem_of_In in Hx'. auto. }
    change (wire_of_plain (PDict items)) with
      (WStruct (map (fun kv => (fst kv, wire_of_plain (snd kv))) items)).
    set (fields := map (fun kv => (fst kv, wire_of_plain (snd kv))) items).
    set (pruned := List.filter (fun kv : string * pyval => negb (is_none (snd kv)))
                     (map (fun kv => (fst kv, prune (snd kv))) items)).
    assert (Hsigf : dict_get _special_sig_key fields = None).
    { unfold fields. now rewrite dict_get_map_values, Esig. }
    assert (Hprops : deserialize_properties env fields ku = Ok (PDict pruned)).
    { rewrite (deserialize_properties_plain _ _ _ Hsigf).
      rewrite (dict_buildR_entries _ _ _ []
                 (map (fun kv : string * pyval => prune (snd kv)) items)).
      - simpl. unfold fields. rewrite dict_keys_map_values.
        rewrite combine_keys_map_snd. reflexivity.
      - simpl. unfold fields. rewrite dict_keys_map_values. now apply distinct_NoDup.
      - unfold fields. rewrite dict_values_map_values.
        unfold dict_values. rewrite map_map.
        apply (mapR_map_total _ (fun kv => wire_of_plain (snd kv))
                 (fun kv : string * pyval => prune (snd kv))).
        eapply Forall_impl; [exact Hitems |]. now intros x [Hx _]. }
    rewrite (deserialize_property_struct_of _ _ _ _ Hsigf Hprops).
    assert (existsb is_rpc_secret (dict_values pruned) = false) as ->; [| reflexivity].
    unfold pruned. clear -Hitems.
    induction Hitems as [| [k x] l (_ & Hp & Hx) _ IH]; [reflexivity |].
    simpl in *. destruct (is_none (prune x)); simpl; [assumption |].
    now rewrite prune_not_secret, IH.
Qed.

Lemma prune_none v : is_none (prune v) = true -> v = PNone.
Proof. destruct v; simpl; try discriminate. reflexivity. Qed.

Lemma prune_null_dropped v : null_dropped v (prune v).
Proof.
  induction v using pyval_rect'; try apply nd_same.
  - simpl. apply nd_list.
    induction H as [| x l Hx Hl IH]; simpl; constructor; assumption.
  - simpl. apply nd_dict.
    induction H as [| [k x] l Hx Hl IH]; simpl; [constructor |].
    destruct (is_none (prune x)) eqn:E; simpl.
    + apply prune_none in E. subst x. now apply ndi_drop.
    + now apply ndi_keep.
Qed.
End RoundTrip.




(** ** Futures *)

Lemma set_result_pending fut value (loop : gmap nat outcome) :
  loop !! fut = None -> set_result fut value loop = (Ok tt, <[fut := Done value]> loop).
Proof. intros H. unfold set_result. now rewrite H. Qed.

Lemma set_exception_pending fut e (loop : gmap nat outcome) :
  loop !! fut = None -> set_exception fut e loop = (Ok tt, <[fut := Failed e]> loop).
Proof. intros H. unfold set_exception. now rewrite H. Qed.

(** A future that is done stays as it is, whatever is attempted later. *)
Lemma set_result_settled fut value (loop : gmap nat outcome) g o :
  loop !! g = Some o -> snd (set_result fut value loop) !! g = Some o.
Proof.
  intros H. unfold set_result. destruct (loop !! fut) eqn:E; simpl; [assumption |].
  rewrite lookup_insert_ne; [assumption |]. intros Heq. subst. rewrite H in E. discriminate.
Qed.

Lemma set_exception_settled fut e (loop : gmap nat outcome) g o :
  loop !! g = Some o -> snd (set_exception fut e loop) !! g = Some o.
Proof.
  intros H. unfold set_exception. destruct (loop !! fut) eqn:E; simpl; [assumption |].
  rewrite lookup_insert_ne; [assumption |]. intros Heq. subst. rewrite H in E. discriminate.
Qed.

Lemma await_done (loop : gmap nat outcome) fut value :
  loop !! fut = Some (Done value) -> await loop fut = Some (Ok value).
Proof. intros H. unfold await. now rewrite H. Qed.

Lemma await_failed (loop : gmap nat outcome) fut e :
  loop !! fut = Some (Failed e) -> await loop fut = Some (Raise e).
Proof. intros H. unfold await. now rewrite H. Qed.

Lemma await_agree (loop loop' : gmap nat outcome) fut :
  loop' !! fut = loop !! fut -> await loop' fut = await loop fut.
Proof. intros H. unfold await. now rewrite H. Qed.

(** [resolve] on a slot whose three futures are distinct and pending. *)
Lemma resolve_pending (r : Resolver) value is_known is_secret failed (loop : gmap nat outcome) :
  List.NoDup (futures_of r) ->
  (forall fut, In fut (futures_of r) -> loop !! fut = None) ->
  exists loop',
    resolve r value is_known is_secret failed loop = (Ok tt, loop') /\
    slot_after loop' r (value, is_known, is_secret, failed) /\
    (forall fut, ~ In fut (futures_of r) -> loop' !! fut = loop !! fut).
Proof.
  destruct r as [vf kf sf]. unfold futures_of, resolve, do_resolve. simpl.
  intros Hnd Hpending.
  inversion Hnd as [| ? ? Hv Hnd1]; subst. inversion Hnd1 as [| ? ? Hk Hnd2]; subst.
  simpl in Hv, Hk.
  assert (vf <> kf) by intuition congruence.
  assert (vf <> sf) by intuition congruence.
  assert (kf <> sf) by intuition congruence.
  assert (loop !! vf = None) by (apply Hpending; tauto).
  assert (loop !! kf = None) by (apply Hpending; tauto).
  assert (loop !! sf = None) by (apply Hpending; tauto).
  destruct failed as [e |].
  - exists (<[sf := Failed e]> (<[kf := Failed e]> (<[vf := Failed e]> loop))).
    repeat split.
    + erewrite bind_ok; [| now apply set_exception_pending].
      erewrite bind_ok; [| apply set_exception_pending; now rewrite lookup_insert_ne].
      apply set_exception_pending. now rewrite !lookup_insert_ne.
    + intros fut [<- | [<- | [<- | []]]]; apply await_failed; simpl.
      * rewrite !lookup_insert_ne by congruence. apply lookup_insert_eq.
      * rewrite lookup_insert_ne by congruence. apply lookup_insert_eq.
      * apply lookup_insert_eq.
    + intros fut Hfut. rewrite !lookup_insert_ne; [reflexivity | tauto ..].
  - exists (<[sf := Done (PBool is_secret)]>
              (<[kf := Done (PBool is_known)]> (<[vf := Done value]> loop))).
    repeat split.
    + erewrite bind_ok; [| now apply set_result_pending].
      erewrite bind_ok; [| apply set_result_pending; now rewrite lookup_insert_ne].
      apply set_result_pending. now rewrite !lookup_insert_ne.
    + apply await_done. simpl. rewrite !lookup_insert_ne by congruence. apply lookup_insert_eq.
    + apply await_done. simpl. rewrite lookup_insert_ne by congruence. apply lookup_insert_eq.
    + apply await_done. simpl. apply lookup_insert_eq.
    + intros fut Hfut. rewrite !lookup_insert_ne; [reflexivity | tauto ..].
Qed.

Lemma slot_after_agree (loop loop' : gmap nat outcome) r args :
  (forall fut, In fut (futures_of r) -> loop' !! fut = loop !! fut) ->
  slot_after loop r args -> slot_after loop' r args.
Proof.
  intros Hagree. destruct args as [[[value is_known] is_secret] [e |]]; simpl.
  - intros H fut Hfut. rewrite (await_agree loop loop'); auto.
  - intros (Hv & Hk & Hs). unfold slot_fulfilled.
    rewrite !(await_agree loop loop'); [auto | apply Hagree; simpl; tauto ..].
Qed.

(** ** Loops that resolve slots *)

Lemma NoDup_flat_map_inv {A B} (g : A -> list B) x l :
  List.NoDup (flat_map g (x :: l)) ->
  List.NoDup (g x) /\ List.NoDup (flat_map g l) /\
  (forall z, In z (g x) -> ~ In z (flat_map g l)).
Proof.
  simpl. intros H. apply NoDup_ListNoDup in H. apply NoDup_app in H as (H1 & H2 & H3).
  repeat split; [now apply NoDup_ListNoDup | now apply NoDup_ListNoDup |].
  intros z Hz Hz'. apply (H2 z); now apply list_elem_of_In.
Qed.

Section ResolvingLoop.
Context {X : Type}.
(** What the body does with an item: nothing, or resolve a slot. *)
Variable target : X -> option (Resolver * (pyval * bool * bool * option exn)).
Variable body : X -> M (gmap nat outcome) unit.

Lemma forM_resolves items :
  (forall x, In x items -> forall loop,
     body x loop =
     match target x with
     | Some (r, (value, is_known, is_secret, failed)) =>
         resolve r value is_known is_secret failed loop
     | None => (Ok tt, loop)
     end) ->
  forall loop : gmap nat outcome,
  List.NoDup (flat_map (touched target) items) ->
  (forall fut, In fut (flat_map (touched target) items) -> loop !! fut = None) ->
  exists loop',
    forM body items loop = (Ok tt, loop') /\
    (forall x r args, In x items -> target x = Some (r, args) -> slot_after loop' r args) /\
    (forall fut, ~ In fut (flat_map (touched target) items) -> loop' !! fut = loop !! fut).
Proof.
  induction items as [| x items IH]; intros body_target loop Hnd Hpending.
  - exists loop. split; [reflexivity | split; [intros ? ? ? [] | reflexivity]].
  - apply NoDup_flat_map_inv in Hnd as (Hx & Hrest & Hdisj).
    assert (Hpx : forall fut, In fut (touched target x) -> loop !! fut = None).
    { intros fut Hfut. apply Hpending. simpl. apply in_or_app. now left. }
    assert (Hstep : exists loop1,
               body x loop = (Ok tt, loop1) /\
               (forall r args, target x = Some (r, args) -> slot_after loop1 r args) /\
               (forall fut, ~ In fut (touched target x) -> loop1 !! fut = loop !! fut)).
    { rewrite body_target by now left. unfold touched in Hx, Hpx |- *.
      destruct (target x) as [[r [[[value is_known] is_secret] failed]] |].
      - destruct (resolve_pending r value is_known is_secret failed loop Hx Hpx)
          as (loop1 & Hrun & Hslot & Hframe).
        exists loop1. split; [assumption | split; [| assumption]].
        intros r' args' [= <- <-]. assumption.
      - exists loop. split; [reflexivity | split; [discriminate | reflexivity]]. }
    destruct Hstep as (loop1 & Hrun1 & Hslot1 & Hframe1).
    destruct (IH (fun y Hy => body_target y (or_intror Hy)) loop1 Hrest)
      as (loop' & Hrun & Hslots & Hframe).
    { intros fut Hfut. rewrite Hframe1.
      - apply Hpending. simpl. apply in_or_app. now right.
      - intros Hin. now apply (Hdisj fut). }
    exists loop'. split; [| split].
    + simpl. erewrite bind_ok; [exact Hrun | exact Hrun1].
    + intros y r args [<- | Hy] Hty.
      * apply (slot_after_agree loop1); [| now apply Hslot1].
        intros fut Hfut. apply Hframe. apply Hdisj. unfold touched. now rewrite Hty.
      * eapply Hslots; eassumption.
    + intros fut Hfut. simpl in Hfut.
      rewrite Hframe, Hframe1; [reflexivity | |]; intros Hin; apply Hfut, in_or_app; tauto.
Qed.
End ResolvingLoop.


(** ** What a call that returned has done *)

Lemma never_overwrites_ret {A} (a : A) : never_overwrites (ret a).
Proof. intros loop fut o H. exact H. Qed.

Lemma never_overwrites_lift {A} (r : result A) : never_overwrites (lift r).
Proof. intros loop fut o H. exact H. Qed.

Lemma never_overwrites_set_result fut value : never_overwrites (set_result fut value).
Proof. intros loop g o H. now apply set_result_settled. Qed.

Lemma never_overwrites_set_exception fut e : never_overwrites (set_exception fut e).
Proof. intros loop g o H. now apply set_exception_settled. Qed.

Lemma never_overwrites_bind {A B} (c : M (gmap nat outcome) A) (k : A -> M (gmap nat outcome) B) :
  never_overwrites c -> (forall a, never_overwrites (k a)) -> never_overwrites (bind c k).
Proof.
  intros Hc Hk loop fut o H. unfold bind.
  pose proof (Hc loop fut o H) as H1.
  destruct (c loop) as [[a | e] loop1]; simpl in *; [now apply Hk | assumption].
Qed.

Lemma never_overwrites_forM {X} (body : X -> M (gmap nat outcome) unit) items :
  (forall x, never_overwrites (body x)) -> never_overwrites (forM body items).
Proof.
  intros Hbody. induction items as [| x items IH]; simpl.
  - apply never_overwrites_ret.
  - apply never_overwrites_bind; auto.
Qed.

Lemma never_overwrites_resolve r value is_known is_secret failed :
  never_overwrites (resolve r value is_known is_secret failed).
Proof.
  unfold resolve, do_resolve. destruct failed as [e |];
    repeat (apply never_overwrites_bind; [| intros _]);
    first [apply never_overwrites_set_exception | apply never_overwrites_set_result].
Qed.

Lemma set_result_returned fut value (loop loop' : gmap nat outcome) :
  set_result fut value loop = (Ok tt, loop') -> loop' !! fut = Some (Done value).
Proof.
  unfold set_result. destruct (loop !! fut); [discriminate |].
  intros [= <-]. apply lookup_insert_eq.
Qed.

Lemma set_exception_returned fut e (loop loop' : gmap nat outcome) :
  set_exception fut e loop = (Ok tt, loop') -> loop' !! fut = Some (Failed e).
Proof.
  unfold set_exception. destruct (loop !! fut); [discriminate |].
  intros [= <-]. apply lookup_insert_eq.
Qed.

Lemma settled_after {A} (c : M (gmap nat outcome) A) (loop loop' : gmap nat outcome) a fut o :
  never_overwrites c -> c loop = (a, loop') -> loop !! fut = Some o -> loop' !! fut = Some o.
Proof.
  intros Hc Hrun H. pose proof (Hc loop fut o H) as H'. now rewrite Hrun in H'.
Qed.

(** When [resolve] returns, the slot holds what it was given. *)
Lemma resolve_returned r value is_known is_secret failed (loop loop' : gmap nat outcome) :
  resolve r value is_known is_secret failed loop = (Ok tt, loop') ->
  slot_after loop' r (value, is_known, is_secret, failed).
Proof.
  destruct r as [vf kf sf]. unfold resolve, do_resolve. simpl. intros Hrun.
  destruct failed as [e |].
  - apply bind_inv_ok in Hrun as ([] & l1 & H1 & Hrun).
    apply bind_inv_ok in Hrun as ([] & l2 & H2 & H3).
    pose proof (set_exception_returned _ _ _ _ H1) as Hv.
    pose proof (set_exception_returned _ _ _ _ H2) as Hk.
    pose proof (set_exception_returned _ _ _ _ H3) as Hs.
    pose proof (settled_after _ _ _ _ _ _ (never_overwrites_set_exception kf e) H2 Hv) as Hv2.
    pose proof (settled_after _ _ _ _ _ _ (never_overwrites_set_exception sf e) H3 Hv2) as Hv3.
    pose proof (settled_after _ _ _ _ _ _ (never_overwrites_set_exception sf e) H3 Hk) as Hk3.
    intros fut [<- | [<- | [<- | []]]]; now apply await_failed.
  - apply bind_inv_ok in Hrun as ([] & l1 & H1 & Hrun).
    apply bind_inv_ok in Hrun as ([] & l2 & H2 & H3).
    pose proof (set_result_returned _ _ _ _ H1) as Hv.
    pose proof (set_result_returned _ _ _ _ H2) as Hk.
    pose proof (set_result_returned _ _ _ _ H3) as Hs.
    pose proof (settled_after _ _ _ _ _ _
                  (never_overwrites_set_result kf (PBool is_known)) H2 Hv) as Hv2.
    pose proof (settled_after _ _ _ _ _ _
                  (never_overwrites_set_result sf (PBool is_secret)) H3 Hv2) as Hv3.
    pose proof (settled_after _ _ _ _ _ _
                  (never_overwrites_set_result sf (PBool is_secret)) H3 Hk) as Hk3.
    repeat split; now apply await_done.
Qed.

Lemma await_settled (loop loop' : gmap nat outcome) fut x :
  (forall g o, loop !! g = Some o -> loop' !! g = Some o) ->
  await loop fut = Some x -> await loop' fut = Some x.
Proof.
  intros Hext. unfold await.
  destruct (loop !! fut) as [o |] eqn:E; [| discriminate].
  now rewrite (Hext fut o E).
Qed.

Lemma slot_after_settled (loop loop' : gmap nat outcome) r args :
  (forall g o, loop !! g = Some o -> loop' !! g = Some o) ->
  slot_after loop r args -> slot_after loop' r args.
Proof.
  intros Hext. destruct args as [[[value is_known] is_secret] [e |]]; simpl.
  - intros H fut Hfut. apply (await_settled loop); auto.
  - intros (Hv & Hk & Hs). repeat split; now apply (await_settled loop).
Qed.

(** In a loop that returned, the body returned on each item, and what it
    left in the futures is still there at the end. *)
Lemma forM_returned {X} (body : X -> M (gmap nat outcome) unit) items x :
  (forall y, never_overwrites (body y)) ->
  In x items ->
  forall loop loop' : gmap nat outcome,
  forM body items loop = (Ok tt, loop') ->
  exists la lb,
    body x la = (Ok tt, lb) /\
    (forall g o, loop !! g = Some o -> la !! g = Some o) /\
    (forall g o, lb !! g = Some o -> loop' !! g = Some o).
Proof.
  intros Hbody. induction items as [| y items IH]; intros Hin loop loop' Hrun; [contradiction |].
  simpl in Hrun. apply bind_inv_ok in Hrun as ([] & l1 & Hy & Hrest).
  destruct Hin as [-> | Hin].
  - exists loop, l1. split; [exact Hy | split; [auto |]].
    intros g o Hg.
    apply (settled_after _ _ _ _ _ _ (never_overwrites_forM body items Hbody) Hrest Hg).
  - destruct (IH Hin l1 loop' Hrest) as (la & lb & Hx & Hpre & Hpost).
    exists la, lb. split; [exact Hx | split; [| exact Hpost]].
    intros g o Hg. apply Hpre.
    apply (settled_after _ _ _ _ _ _ (Hbody y) Hy Hg).
Qed.

(** ** Poisoning *)

Lemma await_pending (loop : gmap nat outcome) fut : await loop fut = None <-> loop !! fut = None.
Proof.
  unfold await. destruct (loop !! fut) as [[v | e] |]; split; intros; congruence.
Qed.

(** C8. Called on resolvers whose futures are distinct and still pending,
    [resolve_outputs_due_to_exception] returns; and whenever it returns,
    every future of every slot of the map has failed with the exception
    given: awaiting the value, the is-known or the is-secret future raises
    it, and so it stays whatever [set_result] or [set_exception] is
    attempted afterwards. *)
Theorem C8_poisoning (resolvers : list (string * Resolver)) (exn : exn)
    (loop : gmap nat outcome) :
  (List.NoDup (all_futures resolvers) ->
   (forall fut, In fut (all_futures resolvers) -> await loop fut = None) ->
   exists loop', resolve_outputs_due_to_exception resolvers exn loop = (Ok tt, loop')) /\
  (forall loop',
     resolve_outputs_due_to_exception resolvers exn loop = (Ok tt, loop') ->
     (forall name r, In (name, r) resolvers -> slot_poisoned loop' r exn) /\
     (forall name r fut, In (name, r) resolvers -> In fut (futures_of r) ->
        forall other value e,
          await (snd (set_result other value loop')) fut = Some (Raise exn) /\
          await (snd (set_exception other e loop')) fut = Some (Raise exn))).
Proof.
  split.
  - intros Hnd Hpending.
    set (target := fun item : string * Resolver =>
                     Some (snd item, (PNone, false, false, Some exn))).
    destruct (forM_resolves target
                (fun item : string * Resolver => resolve (snd item) PNone false false (Some exn))
                resolvers (fun x _ loop => eq_refl) loop Hnd)
      as (loop' & Hrun & _).
    { intros fut Hfut. apply await_pending. now apply Hpending. }
    now exists loop'.
  - intros loop' Hrun.
    assert (Hpoisoned : forall name r, In (name, r) resolvers -> slot_poisoned loop' r exn).
    { intros name r Hin.
      destruct (forM_returned _ resolvers (name, r)
                  (fun y => never_overwrites_resolve (snd y) PNone false false (Some exn))
                  Hin loop loop' Hrun) as (la & lb & Hbody & _ & Hpost).
      apply resolve_returned in Hbody.
      apply (slot_after_settled lb loop' r (PNone, false, false, Some exn) Hpost Hbody). }
    split; [exact Hpoisoned |].
    intros name r fut Hin Hfut other value e.
    pose proof (Hpoisoned name r Hin fut Hfut) as Hawait.
    unfold await in Hawait.
    destruct (loop' !! fut) as [[v | e'] |] eqn:Hlook; try discriminate.
    injection Hawait as ->.
    split; apply await_failed; [now apply set_result_settled | now apply set_exception_settled].
Qed.

Lemma C8_poisoning_witness :
  let resolvers := [("a", Build_Resolver 0 1 2); ("b", Build_Resolver 3 4 5)] in
  exists loop',
    resolve_outputs_due_to_exception resolvers (RuntimeError "create failed") ∅ = (Ok tt, loop') /\
    (forall fut, In fut [0; 1; 2; 3; 4; 5] ->
       await loop' fut = Some (Raise (RuntimeError "create failed"))).
Proof.
  intros resolvers.
  destruct (C8_poisoning resolvers (RuntimeError "create failed") ∅) as (Hreturns & Hthen).
  destruct Hreturns as (loop' & Hrun).
  - unfold resolvers, all_futures, futures_of. simpl. solve_NoDup.
  - intros fut _. reflexivity.
  - exists loop'. split; [exact Hrun |].
    destruct (Hthen loop' Hrun) as (Hpoisoned & _).
    intros fut Hfut.
    assert (Ha : slot_poisoned loop' (Build_Resolver 0 1 2) (RuntimeError "create failed"))
      by (apply (Hpoisoned "a"); simpl; tauto).
    assert (Hb : slot_poisoned loop' (Build_Resolver 3 4 5) (RuntimeError "create failed"))
      by (apply (Hpoisoned "b"); simpl; tauto).
    simpl in Hfut.
    destruct Hfut as [<- | [<- | [<- | [<- | [<- | [<- | []]]]]]];
      first [apply Ha; simpl; tauto | apply Hb; simpl; tauto].
Defined.

(** A slot that is already done makes the call raise instead. *)
Lemma resolve_outputs_due_to_exception_on_done_slot :
  let loop : gmap nat outcome := {[ 0 := Done (PStr "early") ]} in
  resolve_outputs_due_to_exception [("a", Build_Resolver 0 1 2)] (RuntimeError "late") loop =
  (Raise (InvalidStateError "invalid state"), loop).
Proof. reflexivity. Qed.

(** ** Distinct futures of distinct resolvers *)

Lemma NoDup_flat_map_In {A B} (g : A -> list B) l x :
  List.NoDup (flat_map g l) -> In x l -> List.NoDup (g x).
Proof.
  induction l as [| y l IH]; intros Hnd Hin; [contradiction |].
  apply NoDup_flat_map_inv in Hnd as (Hy & Hrest & _).
  destruct Hin as [<- | Hin]; auto.
Qed.

Lemma NoDup_flat_map_disjoint {A B} (g : A -> list B) l x y z :
  List.NoDup (flat_map g l) -> In x l -> In y l -> x <> y ->
  In z (g x) -> In z (g y) -> False.
Proof.
  induction l as [| a l IH]; intros Hnd Hx Hy Hne Hzx Hzy; [contradiction |].
  apply NoDup_flat_map_inv in Hnd as (_ & Hrest & Hdisj).
  destruct Hx as [<- | Hx], Hy as [<- | Hy].
  - congruence.
  - apply (Hdisj z Hzx). apply in_flat_map. eauto.
  - apply (Hdisj z Hzy). apply in_flat_map. eauto.
  - eauto.
Qed.

Lemma resolvers_disjoint resolvers k r k' r' fut :
  List.NoDup (all_futures resolvers) ->
  In (k, r) resolvers -> In (k', r') resolvers -> k <> k' ->
  In fut (futures_of r) -> In fut (futures_of r') -> False.
Proof.
  intros Hnd Hin Hin' Hne Hf Hf'.
  apply (NoDup_flat_map_disjoint (fun item : string * Resolver => futures_of (snd item))
           resolvers (k, r) (k', r') fut); auto.
  congruence.
Qed.

Lemma dict_has_false {A} k (d : list (string * A)) :
  dict_has k d = false <-> dict_get k d = None.
Proof. unfold dict_has. destruct (dict_get k d); split; congruence. Qed.

Lemma In_dict_keys {A} k v (d : list (string * A)) : In (k, v) d -> In k (dict_keys d).
Proof. intros H. change k with (fst (k, v)). now apply in_map. Qed.

Section ResolveOutputsFacts.
Variable env : settings.
Variable resolvers : list (string * Resolver).
Hypothesis resolvers_keys : List.NoDup (dict_keys resolvers).
Hypothesis resolvers_futures : List.NoDup (all_futures resolvers).

Lemma property_target_inv item r args :
  property_target env resolvers item = Some (r, args) ->
  In (fst item, r) resolvers /\ is_id_or_urn (fst item) = false.
Proof.
  unfold property_target. destruct (is_id_or_urn (fst item)); [discriminate |].
  destruct (dict_get (fst item) resolvers) as [r' |] eqn:E; [| discriminate].
  intros [= <- _]. split; [now apply dict_get_In | reflexivity].
Qed.

Lemma touched_property_In item fut :
  In fut (touched (property_target env resolvers) item) ->
  exists r, In (fst item, r) resolvers /\ In fut (futures_of r).
Proof.
  unfold touched.
  destruct (property_target env resolvers item) as [[r args] |] eqn:E; [| contradiction].
  apply property_target_inv in E as [Hin _]. eauto.
Qed.

Lemma touched_missing_In ap item fut :
  In fut (touched (missing_target env ap) item) ->
  dict_get (fst item) ap = None /\ In fut (futures_of (snd item)).
Proof.
  unfold touched, missing_target.
  destruct (dict_has (fst item) ap) eqn:E; [contradiction |].
  apply dict_has_false in E. auto.
Qed.

Lemma touched_properties_NoDup ap :
  List.NoDup (dict_keys ap) ->
  List.NoDup (flat_map (touched (property_target env resolvers)) ap).
Proof.
  induction ap as [| item ap IH]; intros Hnd; [constructor |].
  inversion Hnd as [| ? ? Hfresh Hnd']; subst.
  simpl. apply NoDup_ListNoDup. apply NoDup_app. split; [| split].
  - apply NoDup_ListNoDup. unfold touched.
    destruct (property_target env resolvers item) as [[r args] |] eqn:E; [| constructor].
    apply property_target_inv in E as [Hin _].
    apply (NoDup_flat_map_In (fun item : string * Resolver => futures_of (snd item))
             resolvers (fst item, r) resolvers_futures Hin).
  - intros fut Hfut Hfut'. apply list_elem_of_In in Hfut. apply list_elem_of_In in Hfut'.
    apply touched_property_In in Hfut as (r & Hin & Hf).
    apply in_flat_map in Hfut' as (item' & Hitem' & Hfut').
    apply touched_property_In in Hfut' as (r' & Hin' & Hf').
    apply (resolvers_disjoint resolvers (fst item) r (fst item') r' fut); auto.
    intros Heq. apply Hfresh. rewrite Heq. now apply in_map.
  - apply NoDup_ListNoDup. auto.
Qed.

Lemma touched_missing_NoDup ap rest :
  List.NoDup (flat_map (fun item : string * Resolver => futures_of (snd item)) rest) ->
  List.NoDup (flat_map (touched (missing_target env ap)) rest) /\
  (forall fut, In fut (flat_map (touched (missing_target env ap)) rest) ->
     In fut (flat_map (fun item : string * Resolver => futures_of (snd item)) rest)).
Proof.
  induction rest as [| item rest IH]; intros Hnd; [split; [constructor | tauto] |].
  apply NoDup_flat_map_inv in Hnd as (Hitem & Hrest & Hdisj).
  destruct (IH Hrest) as (IHnd & IHsub).
  assert (Hsub : forall fut, In fut (touched (missing_target env ap) item) ->
                             In fut (futures_of (snd item))).
  { intros fut Hfut. now apply touched_missing_In in Hfut. }
  split.
  - simpl. apply NoDup_ListNoDup. apply NoDup_app. split; [| split].
    + apply NoDup_ListNoDup. unfold touched, missing_target.
      destruct (dict_has (fst item) ap); [constructor | assumption].
    + intros fut Hfut Hfut'. apply list_elem_of_In in Hfut. apply list_elem_of_In in Hfut'.
      apply (Hdisj fut); auto.
    + now apply NoDup_ListNoDup.
  - intros fut Hfut. apply in_flat_map in Hfut as (x & Hx & Hfut).
    apply touched_missing_In in Hfut as (_ & Hfut).
    apply in_flat_map. eauto.
Qed.

Lemma resolve_property_target item :
  unwraps (snd item) ->
  forall loop,
  resolve_property env resolvers item loop =
  match property_target env resolvers item with
  | Some (r, (value, is_known, is_secret, failed)) =>
      resolve r value is_known is_secret failed loop
  | None => (Ok tt, loop)
  end.
Proof.
  intros Hunwraps loop. destruct item as [key value].
  unfold resolve_property, property_target. simpl fst; simpl snd.
  destruct (is_id_or_urn key); [reflexivity |].
  destruct (dict_get key resolvers) as [r |]; [| reflexivity].
  unfold unwraps, unwrap_rpc_secret in Hunwraps. simpl in Hunwraps.
  destruct (is_rpc_secret value) eqn:Hsecret.
  - rewrite Hunwraps. unfold bind, lift. simpl.
    destruct (is_dry_run env); reflexivity.
  - injection Hunwraps as Hstripped. rewrite <- Hstripped. unfold bind, lift. simpl.
    destruct (is_dry_run env); reflexivity.
Qed.

Lemma resolve_missing_target ap item loop :
  resolve_missing env ap item loop =
  match missing_target env ap item with
  | Some (r, (value, is_known, is_secret, failed)) =>
      resolve r value is_known is_secret failed loop
  | None => (Ok tt, loop)
  end.
Proof.
  destruct item as [key r]. unfold resolve_missing, missing_target. simpl.
  destruct (dict_has key ap); reflexivity.
Qed.

(** The last two loops of [resolve_outputs], given [all_properties]. *)
Lemma resolve_loops ap (loop : gmap nat outcome) :
  List.NoDup (dict_keys ap) ->
  Forall (fun kv => unwraps (snd kv)) ap ->
  (forall fut, In fut (all_futures resolvers) -> loop !! fut = None) ->
  exists loop',
    (exec forM (resolve_property env resolvers) ap;
     forM (resolve_missing env ap) resolvers) loop = (Ok tt, loop') /\
    forall name r, In (name, r) resolvers ->
      match dict_get name ap with
      | None => slot_fulfilled loop' r PNone (negb (is_dry_run env)) false
      | Some v =>
          is_id_or_urn name = false ->
          slot_fulfilled loop' r (stripped v)
            (if is_dry_run env then negb (is_none (stripped v)) else true)
            (is_rpc_secret v)
      end.
Proof.
  intros Hap Hunwraps Hpending.
  destruct (forM_resolves (property_target env resolvers) (resolve_property env resolvers) ap)
    with (loop := loop) as (loop1 & Hrun1 & Hslots1 & Hframe1).
  { intros item Hitem. apply resolve_property_target.
    rewrite Forall_forall in Hunwraps. apply Hunwraps. now apply list_elem_of_In. }
  { now apply touched_properties_NoDup. }
  { intros fut Hfut. apply in_flat_map in Hfut as (item & _ & Hfut).
    apply touched_property_In in Hfut as (r & Hin & Hf).
    apply Hpending. apply in_flat_map. exists (fst item, r). auto. }
  destruct (touched_missing_NoDup ap resolvers resolvers_futures) as (Hnd4 & Hsub4).
  destruct (forM_resolves (missing_target env ap) (resolve_missing env ap) resolvers)
    with (loop := loop1) as (loop' & Hrun & Hslots & Hframe).
  { intros item _. apply resolve_missing_target. }
  { exact Hnd4. }
  { intros fut Hfut. rewrite Hframe1; [apply Hpending; now apply Hsub4 |].
    intros Hfut1.
    apply in_flat_map in Hfut as (item & Hitem & Hfut).
    apply touched_missing_In in Hfut as (Hmissing & Hf).
    apply in_flat_map in Hfut1 as (item1 & Hitem1 & Hfut1).
    apply touched_property_In in Hfut1 as (r1 & Hin1 & Hf1).
    destruct item as [k r]. simpl in *.
    apply (resolvers_disjoint resolvers k r (fst item1) r1 fut); auto.
    intros ->. apply dict_get_None in Hmissing. apply Hmissing.
    now apply in_map. }
  exists loop'. split.
  - erewrite bind_ok; [exact Hrun | exact Hrun1].
  - intros name r Hin.
    destruct (dict_get name ap) as [v |] eqn:Hget.
    + intros Hid.
      assert (Htarget : property_target env resolvers (name, v) =
                        Some (r, (stripped v,
                                  if is_dry_run env then negb (is_none (stripped v)) else true,
                                  is_rpc_secret v, None))).
      { unfold property_target. simpl. rewrite Hid.
        now rewrite (dict_get_NoDup resolvers name r resolvers_keys Hin). }
      pose proof (Hslots1 (name, v) r _ (dict_get_In _ _ _ Hget) Htarget) as Hslot.
      apply (slot_after_agree loop1 loop' r
               (stripped v, if is_dry_run env then negb (is_none (stripped v)) else true,
                is_rpc_secret v, None)); [| exact Hslot].
      intros fut Hf. apply Hframe. intros Hfut.
      apply in_flat_map in Hfut as ([k' r'] & Hitem & Hfut).
      apply touched_missing_In in Hfut as (Hmissing & Hf'). simpl in *.
      apply (resolvers_disjoint resolvers name r k' r' fut); auto.
      intros ->. congruence.
    + apply (Hslots (name, r) r (PNone, negb (is_dry_run env), false, None) Hin).
      unfold missing_target. simpl.
      now rewrite (proj2 (dict_has_false name ap) Hget).
Qed.
End ResolveOutputsFacts.

(** ** The dict [all_properties] *)

Lemma dict_get_with_get {A B} (f : A -> B) k (d : list (string * A)) :
  dict_get_with f k d = option_map f (dict_get k d).
Proof.
  induction d as [| [k' v] d IH]; simpl; [reflexivity |].
  now destruct (String.eqb k k').
Qed.

Lemma deserialize_properties_get_None env fields ku items k :
  deserialize_properties env fields ku = Ok (PDict items) ->
  dict_get k fields = None -> dict_get k items = None.
Proof.
  unfold deserialize_properties, deserialize_properties_of. intros H Hk.
  destruct (dict_get _special_sig_key fields) as [sig |] eqn:Hsig.
  - destruct (wire_eq_str sig _special_asset_sig).
    { destruct (dict_get "path" fields); [discriminate |].
      destruct (dict_get "text" fields); [discriminate |].
      destruct (dict_get "uri" fields); discriminate. }
    destruct (wire_eq_str sig _special_archive_sig).
    { destruct (dict_get_with _ "assets" fields) as [[a | e] |]; try discriminate.
      destruct (dict_get "path" fields); [discriminate |].
      destruct (dict_get "uri" fields); discriminate. }
    destruct (wire_eq_str sig _special_secret_sig); [| discriminate].
    rewrite dict_get_with_get in H.
    destruct (dict_get "value" fields) as [payload |] eqn:Hvalue; [| discriminate].
    simpl in H. destruct (deserialize_property env payload None); [| discriminate].
    injection H as <-. simpl.
    destruct (String.eqb k _special_sig_key) eqn:E1.
    { apply String.eqb_eq in E1. subst. congruence. }
    destruct (String.eqb k "value") eqn:E2; [| reflexivity].
    apply String.eqb_eq in E2. subst. congruence.
  - apply rbind_inv_ok in H as (output & Hout & H). injection H as <-.
    eapply dict_buildR_get_None; [exact Hout | exact Hk | reflexivity].
Qed.

Section AllProperties.
Variable env : settings.
Variable res : resource_obj.
Let tr := translate_output_property res.

Lemma translate_output_properties_str s typ v :
  translate_output_properties res (PStr s) typ = Ok v -> v = PStr s.
Proof.
  simpl. intros H. apply rbind_inv_ok in H as (typ' & _ & H). now injection H.
Qed.

Lemma outputs_loop_NoDup types items :
  forall ap0 ap,
  outputs_loop res types items ap0 = Ok ap ->
  List.NoDup (dict_keys ap0) -> List.NoDup (dict_keys ap).
Proof.
  induction items as [| [key value] items IH]; intros ap0 ap Hrun Hnd; simpl in Hrun.
  - now injection Hrun as <-.
  - apply rbind_inv_ok in Hrun as (tv & _ & Hrun).
    eapply IH; [exact Hrun |]. now apply dict_set_NoDup.
Qed.

Lemma inputs_loop_NoDup types items :
  forall ap0 ap,
  inputs_loop env res types items ap0 = Ok ap ->
  List.NoDup (dict_keys ap0) -> List.NoDup (dict_keys ap).
Proof.
  induction items as [| [key value] items IH]; intros ap0 ap Hrun Hnd; simpl in Hrun.
  - now injection Hrun as <-.
  - destruct (dict_has (translate_output_property res key) ap0); [eauto |].
    apply rbind_inv_ok in Hrun as (d & _ & Hrun).
    apply rbind_inv_ok in Hrun as (tv & _ & Hrun).
    eapply IH; [exact Hrun |]. now apply dict_set_NoDup.
Qed.

Lemma all_properties_of_NoDup serialized outputs ap :
  all_properties_of env res serialized outputs = Ok ap -> List.NoDup (dict_keys ap).
Proof.
  unfold all_properties_of. intros H.
  apply rbind_inv_ok in H as (types & _ & H).
  apply rbind_inv_ok in H as (props & _ & H).
  apply rbind_inv_ok in H as (items & _ & H).
  apply rbind_inv_ok in H as (ap1 & Hout & H).
  apply outputs_loop_NoDup in Hout; [| constructor].
  destruct (negb (is_dry_run env) || is_legacy_apply_enabled env).
  - eapply inputs_loop_NoDup; eassumption.
  - now injection H as <-.
Qed.

Lemma outputs_loop_get_None types items name :
  forall ap0 ap,
  outputs_loop res types items ap0 = Ok ap ->
  dict_get name ap0 = None ->
  (forall k v, In (k, v) items -> tr k <> name) ->
  dict_get name ap = None.
Proof.
  induction items as [| [key value] items IH]; intros ap0 ap Hrun Hnone Hkeys;
    simpl in Hrun.
  - now injection Hrun as <-.
  - apply rbind_inv_ok in Hrun as (tv & _ & Hrun).
    eapply IH; [exact Hrun | |].
    + rewrite dict_get_set_ne; [assumption |]. apply (Hkeys key value). now left.
    + intros k v Hin. apply (Hkeys k v). now right.
Qed.

Lemma inputs_loop_keeps types items name v :
  forall ap0 ap,
  inputs_loop env res types items ap0 = Ok ap ->
  dict_get name ap0 = Some v -> dict_get name ap = Some v.
Proof.
  induction items as [| [key value] items IH]; intros ap0 ap Hrun Hget; simpl in Hrun.
  - now injection Hrun as <-.
  - destruct (dict_has (translate_output_property res key) ap0) eqn:Ehas; [eauto |].
    apply rbind_inv_ok in Hrun as (d & _ & Hrun).
    apply rbind_inv_ok in Hrun as (tv & _ & Hrun).
    eapply IH; [exact Hrun |].
    rewrite dict_get_set_ne; [assumption |].
    intros Heq. apply dict_has_false in Ehas. rewrite Heq in Ehas. congruence.
Qed.

(** An input string that the engine returned nothing for stands in. *)
Lemma inputs_loop_backfills types items name seed :
  seed <> UNKNOWN ->
  (forall k, tr k = name <-> k = name) ->
  forall ap0 ap,
  inputs_loop env res types items ap0 = Ok ap ->
  dict_get name ap0 = None ->
  dict_get name items = Some (WStr seed) ->
  dict_get name ap = Some (PStr seed).
Proof.
  intros Hseed Htr.
  induction items as [| [key value] items IH]; intros ap0 ap Hrun Hnone Hget;
    simpl in Hrun, Hget; [discriminate |].
  destruct (String.eqb name key) eqn:Ekey.
  - apply String.eqb_eq in Ekey. subst key. injection Hget as ->.
    assert (Hname : translate_output_property res name = name) by now apply Htr.
    rewrite Hname in Hrun.
    rewrite (proj2 (dict_has_false name ap0) Hnone) in Hrun.
    apply rbind_inv_ok in Hrun as (d & Hd & Hrun).
    apply rbind_inv_ok in Hrun as (tv & Htv & Hrun).
    simpl in Hd. apply String.eqb_neq in Hseed. rewrite Hseed in Hd. injection Hd as <-.
    apply translate_output_properties_str in Htv. subst tv.
    eapply inputs_loop_keeps; [exact Hrun |]. apply dict_get_set_eq.
  - apply String.eqb_neq in Ekey.
    assert (Hne : translate_output_property res key <> name).
    { intros Heq. apply Ekey. symmetry. now apply Htr. }
    destruct (dict_has (translate_output_property res key) ap0); [eauto |].
    apply rbind_inv_ok in Hrun as (d & _ & Hrun).
    apply rbind_inv_ok in Hrun as (tv & _ & Hrun).
    eapply IH; [exact Hrun | | exact Hget].
    now rewrite dict_get_set_ne.
Qed.

Lemma all_properties_of_backfills serialized outputs ap name seed :
  negb (is_dry_run env) || is_legacy_apply_enabled env = true ->
  seed <> UNKNOWN ->
  (forall k, tr k = name <-> k = name) ->
  all_properties_of env res serialized outputs = Ok ap ->
  dict_get name outputs = None ->
  dict_get name serialized = Some (WStr seed) ->
  dict_get name ap = Some (PStr seed).
Proof.
  intros Hbackfill Hseed Htr H Hout Hin. unfold all_properties_of in H.
  apply rbind_inv_ok in H as (types & _ & H).
  apply rbind_inv_ok in H as (props & Hprops & H).
  apply rbind_inv_ok in H as (items & Hitems & H).
  apply rbind_inv_ok in H as (ap1 & Hap1 & H).
  rewrite Hbackfill in H.
  destruct props; try discriminate. injection Hitems as ->.
  eapply inputs_loop_backfills; [exact Hseed | exact Htr | exact H | | exact Hin].
  eapply outputs_loop_get_None; [exact Hap1 | reflexivity |].
  intros k v Hkv Heq. apply (proj1 (Htr k)) in Heq. subst k.
  pose proof (deserialize_properties_get_None _ _ _ _ _ Hprops Hout) as Hnone.
  apply dict_get_None in Hnone. apply Hnone. eapply In_dict_keys, Hkv.
Qed.
End AllProperties.

(** ** Resolution of the outputs *)

Lemma resolve_outputs_resolves env res serialized outputs resolvers ap
    (loop : gmap nat outcome) :
  all_properties_of env res serialized outputs = Ok ap ->
  Forall (fun kv => unwraps (snd kv)) ap ->
  List.NoDup (dict_keys resolvers) ->
  List.NoDup (all_futures resolvers) ->
  (forall fut, In fut (all_futures resolvers) -> await loop fut = None) ->
  exists loop',
    resolve_outputs env res serialized outputs resolvers loop = (Ok tt, loop') /\
    forall name r, In (name, r) resolvers ->
      match dict_get name ap with
      | None => slot_fulfilled loop' r PNone (negb (is_dry_run env)) false
      | Some v =>
          is_id_or_urn name = false ->
          slot_fulfilled loop' r (stripped v)
            (if is_dry_run env then negb (is_none (stripped v)) else true)
            (is_rpc_secret v)
      end.
Proof.
  intros Hap Hunwraps Hkeys Hfutures Hpending.
  destruct (resolve_loops env resolvers Hkeys Hfutures ap loop) as (loop' & Hrun & Hslots).
  - eapply all_properties_of_NoDup, Hap.
  - exact Hunwraps.
  - intros fut Hfut. apply await_pending. now apply Hpending.
  - exists loop'. split; [| exact Hslots].
    unfold resolve_outputs. erewrite bind_ok; [exact Hrun |]. unfold lift. now rewrite Hap.
Qed.

Lemma never_overwrites_resolve_property env resolvers item :
  never_overwrites (resolve_property env resolvers item).
Proof.
  destruct item as [key value]. unfold resolve_property.
  destruct (is_id_or_urn key); [apply never_overwrites_ret |].
  destruct (dict_get key resolvers) as [r |]; [| apply never_overwrites_ret].
  apply never_overwrites_bind; [apply never_overwrites_lift |]. intros secret_value.
  destruct (negb (is_dry_run env)); apply never_overwrites_resolve.
Qed.

Lemma never_overwrites_resolve_missing env ap item :
  never_overwrites (resolve_missing env ap item).
Proof.
  destruct item as [key r]. unfold resolve_missing.
  destruct (dict_has key ap); [apply never_overwrites_ret | apply never_overwrites_resolve].
Qed.

(** The three stages of a call of [resolve_outputs] that returned. *)
Lemma resolve_outputs_returned env res serialized outputs resolvers
    (loop loop' : gmap nat outcome) :
  resolve_outputs env res serialized outputs resolvers loop = (Ok tt, loop') ->
  exists ap loop1,
    all_properties_of env res serialized outputs = Ok ap /\
    forM (resolve_property env resolvers) ap loop = (Ok tt, loop1) /\
    forM (resolve_missing env ap) resolvers loop1 = (Ok tt, loop').
Proof.
  unfold resolve_outputs. intros Hrun.
  apply bind_inv_ok in Hrun as (ap & l0 & Hap & Hrun).
  unfold lift in Hap. injection Hap as Hap <-.
  apply bind_inv_ok in Hrun as ([] & loop1 & H3 & H4).
  exists ap, loop1. auto.
Qed.

(** C9. When the first two loops of [resolve_outputs] have built
    [all_properties] and the resolvers' futures are distinct and pending,
    [resolve_outputs] returns; and whenever it returns, every resolver whose
    name is not a key of [all_properties] has its slot fulfilled with value
    [None], is-known equal to "not a dry run" and is-secret false. *)
Theorem C9_missing_properties (env : settings) (res : resource_obj)
    (serialized outputs : list (string * wire)) (resolvers : list (string * Resolver))
    (loop : gmap nat outcome) :
  (forall all_properties,
     all_properties_of env res serialized outputs = Ok all_properties ->
     Forall (fun kv => unwraps (snd kv)) all_properties ->
     List.NoDup (dict_keys resolvers) ->
     List.NoDup (all_futures resolvers) ->
     (forall fut, In fut (all_futures resolvers) -> await loop fut = None) ->
     exists loop', resolve_outputs env res serialized outputs resolvers loop = (Ok tt, loop')) /\
  (forall loop',
     resolve_outputs env res serialized outputs resolvers loop = (Ok tt, loop') ->
     exists all_properties,
       all_properties_of env res serialized outputs = Ok all_properties /\
       forall name r, In (name, r) resolvers -> dict_get name all_properties = None ->
         slot_fulfilled loop' r PNone (negb (is_dry_run env)) false).
Proof.
  split.
  - intros ap Hap Hunwraps Hkeys Hfutures Hpending.
    destruct (resolve_outputs_resolves env res serialized outputs resolvers ap loop
                Hap Hunwraps Hkeys Hfutures Hpending) as (loop' & Hrun & _).
    now exists loop'.
  - intros loop' Hrun.
    apply resolve_outputs_returned in Hrun as (ap & loop1 & Hap & _ & Hlast).
    exists ap. split; [exact Hap |].
    intros name r Hin Hnone.
    destruct (forM_returned _ resolvers (name, r)
                (never_overwrites_resolve_missing env ap) Hin loop1 loop' Hlast)
      as (la & lb & Hbody & _ & Hpost).
    unfold resolve_missing in Hbody.
    rewrite (proj2 (dict_has_false name ap) Hnone) in Hbody.
    apply resolve_returned in Hbody.
    apply (slot_after_settled lb loop' r (PNone, negb (is_dry_run env), false, None)
             Hpost Hbody).
Qed.

Lemma C9_missing_properties_witness :
  let resolvers := [("x", Build_Resolver 0 1 2); ("y", Build_Resolver 3 4 5)] in
  exists loop',
    resolve_outputs preview_run scenario_resource [("x", WStr "seed")] [("x", WStr "final")]
      resolvers ∅ = (Ok tt, loop') /\
    slot_fulfilled loop' (Build_Resolver 3 4 5) PNone false false.
Proof.
  intros resolvers.
  destruct (C9_missing_properties preview_run scenario_resource
              [("x", WStr "seed")] [("x", WStr "final")] resolvers ∅) as (Hreturns & Hthen).
  destruct (Hreturns [("x", PStr "final")]) as (loop' & Hrun).
  - reflexivity.
  - repeat constructor.
  - simpl. solve_NoDup.
  - unfold resolvers, all_futures, futures_of. simpl. solve_NoDup.
  - intros fut _. reflexivity.
  - exists loop'. split; [exact Hrun |].
    destruct (Hthen loop' Hrun) as (ap & Hap & Hslots).
    injection Hap as <-.
    apply (Hslots "y"); [simpl; tauto | reflexivity].
Defined.

(** C7. In a dry run with legacy apply enabled, when the engine's outputs
    have no entry for a property, the serialized inputs have a string for it
    and the resource's translation leaves that name alone and gives it to no
    other: [resolve_outputs] returns when [all_properties] gets built and the
    resolvers' futures are distinct and pending; and whenever it returns, the
    property's slot is fulfilled with that string, is-known true and
    is-secret false. With ["x"] and ["seed"] this is the scenario of the
    specification. *)
Theorem C7_backfill_in_preview (env : settings) (res : resource_obj)
    (serialized outputs : list (string * wire)) (resolvers : list (string * Resolver))
    (loop : gmap nat outcome) (name seed : string) (r : Resolver) :
  is_dry_run env = true ->
  is_legacy_apply_enabled env = true ->
  (forall k, translate_output_property res k = name <-> k = name) ->
  is_id_or_urn name = false ->
  seed <> UNKNOWN ->
  dict_get name outputs = None ->
  dict_get name serialized = Some (WStr seed) ->
  dict_get name resolvers = Some r ->
  (forall all_properties,
     all_properties_of env res serialized outputs = Ok all_properties ->
     Forall (fun kv => unwraps (snd kv)) all_properties ->
     List.NoDup (dict_keys resolvers) ->
     List.NoDup (all_futures resolvers) ->
     (forall fut, In fut (all_futures resolvers) -> await loop fut = None) ->
     exists loop', resolve_outputs env res serialized outputs resolvers loop = (Ok tt, loop')) /\
  (forall loop',
     resolve_outputs env res serialized outputs resolvers loop = (Ok tt, loop') ->
     slot_fulfilled loop' r (PStr seed) true false).
Proof.
  intros Hdry Hlegacy Htr Hid Hseed Hout Hin Hr. split.
  - intros ap Hap Hunwraps Hkeys Hfutures Hpending.
    destruct (resolve_outputs_resolves env res serialized outputs resolvers ap loop
                Hap Hunwraps Hkeys Hfutures Hpending) as (loop' & Hrun & _).
    now exists loop'.
  - intros loop' Hrun.
    apply resolve_outputs_returned in Hrun as (ap & loop1 & Hap & Hthird & Hlast).
    assert (Hget : dict_get name ap = Some (PStr seed)).
    { apply (all_properties_of_backfills env res serialized outputs ap name seed); auto.
      rewrite Hlegacy. apply orb_true_r. }
    destruct (forM_returned _ ap (name, PStr seed)
                (never_overwrites_resolve_property env resolvers)
                (dict_get_In _ _ _ Hget) loop loop1 Hthird)
      as (la & lb & Hbody & _ & Hpost).
    unfold resolve_property in Hbody. rewrite Hid, Hr in Hbody.
    apply bind_inv_ok in Hbody as (secret_value & l0 & Hsv & Hbody).
    cbn [is_rpc_secret] in Hsv. unfold lift in Hsv. injection Hsv as <- <-.
    cbv zeta in Hbody. rewrite Hdry in Hbody. cbn [negb fst snd is_none] in Hbody.
    apply resolve_returned in Hbody.
    apply (slot_after_settled lb loop' r (PStr seed, true, false, None)); [| exact Hbody].
    intros g o Hg. apply Hpost in Hg.
    apply (settled_after _ _ _ _ _ _
             (never_overwrites_forM _ resolvers (never_overwrites_resolve_missing env ap))
             Hlast Hg).
Qed.

Lemma C7_backfill_in_preview_witness :
  exists loop',
    resolve_outputs legacy_preview_run scenario_resource [("x", WStr "seed")] []
      [("x", Build_Resolver 0 1 2)] ∅ = (Ok tt, loop') /\
    slot_fulfilled loop' (Build_Resolver 0 1 2) (PStr "seed") true false.
Proof.
  destruct (C7_backfill_in_preview legacy_preview_run scenario_resource
              [("x", WStr "seed")] [] [("x", Build_Resolver 0 1 2)] ∅
              "x" "seed" (Build_Resolver 0 1 2)) as (Hreturns & Hthen).
  - reflexivity.
  - reflexivity.
  - intros k. simpl. tauto.
  - reflexivity.
  - discriminate.
  - reflexivity.
  - reflexivity.
  - reflexivity.
  - destruct (Hreturns [("x", PStr "seed")]) as (loop' & Hrun).
    + reflexivity.
    + repeat constructor.
    + simpl. solve_NoDup.
    + unfold all_futures, futures_of. simpl. solve_NoDup.
    + intros fut _. reflexivity.
    + exists loop'. split; [exact Hrun | now apply Hthen].
Defined.


(** * Further properties *)

(** ** Serializer *)

(** X1. Whatever [serialize_property] does, also when it raises, the [deps]
    list afterwards is the list before with entries appended: nothing is
    removed or reordered. *)
Theorem X1_deps_only_grow (env : settings) (t : option (string -> string)) (v : pyval)
    (deps : list resource) (r : result pyval) (deps' : list resource) :
  serialize_property env t v deps = (r, deps') ->
  exists added, deps' = deps ++ added.
Proof. apply serialize_property_appends. Qed.

Lemma X1_deps_only_grow_witness :
  exists added,
    snd (serialize_property update_run None
           (PList [PCustomResource "urn:a" (PStr "a-1"); PObject "set"]) ["urn:before"]) =
    ["urn:before"] ++ added.
Proof.
  apply (X1_deps_only_grow update_run None
           (PList [PCustomResource "urn:a" (PStr "a-1"); PObject "set"]) ["urn:before"]
           (Raise (ValueError "unexpected input of type set")) ["urn:before"; "urn:a"]).
  reflexivity.
Defined.

(** *** What comes out can be stored in a [Struct] *)

Lemma mapM_results {S A B} (f : A -> M S B) (P : B -> Prop) l :
  Forall (fun x => forall s y s', f x s = (Ok y, s') -> P y) l ->
  forall s ys s', mapM f l s = (Ok ys, s') -> Forall P ys.
Proof.
  induction 1 as [| x l Hx Hl IH]; intros s ys s' Hrun; simpl in Hrun.
  - injection Hrun as <- <-. constructor.
  - apply bind_inv_ok in Hrun as (y & s1 & Hy & Hrun).
    apply bind_inv_ok in Hrun as (ys' & s2 & Hys & Hret).
    injection Hret as <- <-. constructor; eauto.
Qed.

Lemma dict_buildM_results {S A B} key (f : A -> M S B) (P : B -> Prop) items :
  Forall (fun kv => forall s y s', f (snd kv) s = (Ok y, s') -> P y) items ->
  forall obj s out s',
  dict_buildM key f items obj s = (Ok out, s') ->
  Forall (fun kv => P (snd kv)) obj -> Forall (fun kv => P (snd kv)) out.
Proof.
  induction 1 as [| [k v] items Hx Hl IH]; intros obj s out s' Hrun Hobj; simpl in Hrun.
  - now injection Hrun as <- <-.
  - apply bind_inv_ok in Hrun as (y & s1 & Hy & Hrun).
    eapply IH; [exact Hrun |]. apply Forall_dict_set; [| assumption]. simpl. eauto.
Qed.

Lemma forallb_Forall {A} (p : A -> bool) l : forallb p l = true <-> Forall (fun x => p x = true) l.
Proof.
  induction l as [| x l IH]; simpl.
  - split; [constructor | reflexivity].
  - rewrite andb_true_iff, IH. split.
    + intros [Hx Hl]. now constructor.
    + intros H. inversion H. auto.
Qed.

Lemma Forall_and_impl {A} (P Q R : A -> Prop) l :
  Forall P l -> Forall Q l -> (forall x, P x -> Q x -> R x) -> Forall R l.
Proof.
  intros HP HQ Himpl. induction HP as [| x l Hx Hl IH]; [constructor |].
  inversion HQ; subst. constructor; auto.
Qed.

Lemma serialize_property_wire_ready env t v :
  renders_dicts v = true ->
  forall deps w deps', serialize_property env t v deps = (Ok w, deps') -> wire_ready w = true.
Proof.
  induction v using pyval_deep_ind; intros Hr deps w deps' Hrun;
    try (simpl in Hrun; injection Hrun as <- <-; reflexivity);
    try (simpl in Hrun; discriminate).
  - rewrite serialize_property_list in Hrun. simpl in Hr.
    apply bind_inv_ok in Hrun as (props & d1 & Hrun & Hret). injection Hret as <- <-.
    simpl. apply forallb_Forall.
    eapply mapM_results; [| exact Hrun].
    apply forallb_Forall in Hr.
    eapply Forall_and_impl; [exact H | exact Hr |]. intros x Hx Hrx s y s'. now apply Hx.
  - rewrite serialize_property_dict in Hrun. simpl in Hr.
    apply bind_inv_ok in Hrun as (obj & d1 & Hrun & Hret). injection Hret as <- <-.
    simpl. apply forallb_Forall.
    eapply (dict_buildM_results _ _ (fun y => wire_ready y = true)); [| exact Hrun | constructor].
    apply forallb_Forall in Hr.
    eapply Forall_and_impl; [exact H | exact Hr |]. intros x Hx Hrx s y s'. now apply Hx.
  - simpl in Hrun, Hr.
    apply bind_inv_ok in Hrun as ([] & d1 & _ & Hrun). eauto.
  - simpl in Hr.
    destruct path as [p |]; [| destruct text as [x |]; [| destruct uri as [u |]]];
      simpl in *; try discriminate;
      apply bind_inv_ok in Hrun as (y & d1 & Hrun & Hret); injection Hret as <- <-;
      simpl; rewrite andb_true_r;
      repeat (apply andb_true_iff in Hr as [Hr ?]); eauto.
  - simpl in Hr.
    destruct assets as [p |]; [| destruct path as [x |]; [| destruct uri as [u |]]];
      simpl in *; try discriminate;
      apply bind_inv_ok in Hrun as (y & d1 & Hrun & Hret); injection Hret as <- <-;
      simpl; rewrite andb_true_r;
      repeat (apply andb_true_iff in Hr as [Hr ?]); eauto.
  - simpl in *. eauto.
  - rewrite serialize_property_output in Hrun. simpl in Hr.
    apply bind_inv_ok in Hrun as ([] & d1 & _ & Hrun).
    apply bind_inv_ok in Hrun as (value & d2 & Hrun & Hret).
    pose proof (IHv Hr _ _ _ Hrun) as Hvalue.
    destruct (negb k); [injection Hret as <- <-; reflexivity |].
    destruct (s && _); injection Hret as <- <-; [| assumption].
    simpl. now rewrite Hvalue.
  - rewrite serialize_property_input_type_dict in Hrun. simpl in Hr.
    apply bind_inv_ok in Hrun as (obj & d1 & Hrun & Hret). injection Hret as <- <-.
    simpl. apply forallb_Forall.
    eapply (dict_buildM_results _ _ (fun y => wire_ready y = true)); [| exact Hrun | constructor].
    apply forallb_Forall in Hr.
    eapply Forall_and_impl; [exact H | exact Hr |]. intros x Hx Hrx s y s'. now apply Hx.
  - destruct to_dict as [d |]; [| discriminate].
    destruct d; try discriminate; contradiction.
  - rewrite serialize_property_instance, serialize_property_dict in Hrun. simpl in Hr.
    apply bind_inv_ok in Hrun as (obj & d1 & Hrun & Hret). injection Hret as <- <-.
    simpl. apply forallb_Forall.
    eapply (dict_buildM_results _ _ (fun y => wire_ready y = true)); [| exact Hrun | constructor].
    apply forallb_Forall in Hr.
    eapply Forall_and_impl; [exact H | exact Hr |]. intros x Hx Hrx s y s'. now apply Hx.
  - rewrite serialize_property_instance_other in Hrun by assumption. discriminate.
Qed.

Lemma mapR_defined {A B} (f : A -> result B) l :
  Forall (fun x => exists y, f x = Ok y) l -> exists ys, mapR f l = Ok ys.
Proof.
  induction 1 as [| x l [y Hy] Hl [ys IH]]; [now exists [] |].
  exists (y :: ys). rewrite mapR_cons, Hy. cbn [rbind]. now rewrite IH.
Qed.

Lemma dict_buildR_defined {A B} (f : A -> result B) keep items :
  Forall (fun kv => exists y, f (snd kv) = Ok y) items ->
  forall obj, exists out, dict_buildR f keep items obj = Ok out.
Proof.
  induction 1 as [| [k v] items [y Hy] Hl IH]; intros obj; [now exists obj |].
  simpl in *. rewrite Hy. simpl. apply IH.
Qed.

Lemma mapR_raise_inv {A B} (f : A -> result B) l e :
  mapR f l = Raise e -> Exists (fun x => f x = Raise e) l.
Proof.
  induction l as [| x l IH]; [discriminate |].
  rewrite mapR_cons. destruct (f x) as [y | e'] eqn:Hx; simpl.
  - destruct (mapR f l) as [ys | e'']; simpl; [discriminate |].
    intros [= <-]. apply Exists_cons_tl. now apply IH.
  - intros [= <-]. now apply Exists_cons_hd.
Qed.

Lemma dict_buildR_raise_inv {A B} (f : A -> result B) keep items :
  forall obj e,
  dict_buildR f keep items obj = Raise e ->
  Exists (fun kv => f (snd kv) = Raise e) items.
Proof.
  induction items as [| [k v] items IH]; intros obj e H; simpl in H; [discriminate |].
  destruct (f v) as [y | e'] eqn:Hx; simpl in H.
  - apply Exists_cons_tl. eapply IH, H.
  - injection H as <-. now apply Exists_cons_hd.
Qed.

Lemma to_wire_defined w :
  wire_ready w = true -> exact_numbers w = true -> exists x, to_wire w = Ok x.
Proof.
  induction w using pyval_rect'; intros Hw Hexact; try discriminate;
    try (eexists; reflexivity).
  - simpl in *. rewrite double_of_int_exact by assumption. eexists. reflexivity.
  - simpl in Hw, Hexact. apply forallb_Forall in Hw. apply forallb_Forall in Hexact.
    destruct (mapR_defined to_wire elems) as [ys Hys].
    { rewrite Forall_forall in H, Hw, Hexact |- *. intros x Hx. auto. }
    exists (WList ys). simpl. now rewrite Hys.
  - simpl in Hw, Hexact. apply forallb_Forall in Hw. apply forallb_Forall in Hexact.
    destruct (dict_buildR_defined to_wire (fun _ => true) items) with (obj := @nil (string * wire))
      as [out Hout].
    { rewrite Forall_forall in H, Hw, Hexact |- *. intros x Hx. auto. }
    exists (WStruct out).
    change (to_wire (PDict items)) with
      (try fields <- dict_buildR to_wire (fun _ => true) items []; Ok (WStruct fields)).
    now rewrite Hout.
Qed.

(** X2. When every typed record of the input renders to a dict, whatever
    [serialize_property] returns is made of [None], booleans, numbers,
    strings, lists and dicts only; and when its numbers are integers of
    magnitude at most [2^53], which the doubles of a [Struct] hold exactly,
    storing it in a protobuf [Struct] does not fail. *)
Theorem X2_serialized_value_is_storable (env : settings) (t : option (string -> string))
    (v : pyval) (deps : list resource) (w : pyval) (deps' : list resource) :
  renders_dicts v = true ->
  serialize_property env t v deps = (Ok w, deps') ->
  wire_ready w = true /\
  (exact_numbers w = true -> exists x, to_wire w = Ok x).
Proof.
  intros Hr Hrun.
  pose proof (serialize_property_wire_ready env t v Hr deps w deps' Hrun) as Hw.
  split; [exact Hw |]. now apply to_wire_defined.
Qed.

Lemma X2_serialized_value_is_storable_witness :
  wire_ready
    (PList [PStr "bucket-1"; PNum 9007199254740992;
            PDict [(_special_sig_key, PStr _special_secret_sig); ("value", PStr "pw")];
            PDict [("name", PStr UNKNOWN)]]) = true /\
  exists x,
    to_wire
      (PList [PStr "bucket-1"; PNum 9007199254740992;
              PDict [(_special_sig_key, PStr _special_secret_sig); ("value", PStr "pw")];
              PDict [("name", PStr UNKNOWN)]]) = Ok x.
Proof.
  destruct (X2_serialized_value_is_storable update_run None
              (PList [PCustomResource "urn:bucket" (PStr "bucket-1"); PNum 9007199254740992;
                      POutput [] true true (PAwaitable (PStr "pw"));
                      PInputType "Args" (Some (PDict [("name", PUnknown)]))])
              []
              (PList [PStr "bucket-1"; PNum 9007199254740992;
                      PDict [(_special_sig_key, PStr _special_secret_sig);
                             ("value", PStr "pw")];
                      PDict [("name", PStr UNKNOWN)]])
              ["urn:bucket"]) as [Hready Hstored]; [reflexivity | reflexivity |].
  split; [exact Hready | apply Hstored; reflexivity].
Defined.

(** *** [serialize_properties] *)

Section SerializePropertiesMore.
Variable env : settings.
Variable t : option (string -> string).

Lemma dict_has_keys {A B} k (d1 : list (string * A)) (d2 : list (string * B)) :
  dict_keys d1 = dict_keys d2 -> dict_has k d1 = dict_has k d2.
Proof.
  unfold dict_has. revert d2.
  induction d1 as [| [k1 v1] d1 IH]; intros [| [k2 v2] d2] Hkeys; simpl in *;
    try discriminate; [reflexivity |].
  injection Hkeys as -> Hkeys. destruct (String.eqb k k2); [reflexivity | auto].
Qed.

Lemma dict_keys_set_congr {A B} k (v1 : A) (v2 : B) d1 d2 :
  dict_keys d1 = dict_keys d2 ->
  dict_keys (dict_set k v1 d1) = dict_keys (dict_set k v2 d2).
Proof.
  intros Hkeys. rewrite !dict_keys_set, (dict_has_keys k d1 d2 Hkeys), Hkeys. reflexivity.
Qed.

Lemma In_dict_keys_set {A} k k' (v : A) d :
  In k' (dict_keys (dict_set k v d)) -> k' = k \/ In k' (dict_keys d).
Proof.
  rewrite dict_keys_set. destruct (dict_has k d); [auto |].
  rewrite in_app_iff. simpl. intuition.
Qed.

Lemma serialize_properties_loop_keys inputs :
  forall struct pd fields pd',
  serialize_properties_loop env t inputs struct pd = (Ok fields, pd') ->
  dict_keys struct = dict_keys pd ->
  dict_keys fields = dict_keys pd' /\
  forall k, In k (dict_keys fields) ->
    In k (dict_keys struct) \/
    exists k0, In k0 (dict_keys inputs) /\ k = translated_name t k0.
Proof.
  induction inputs as [| [k v] inputs IH]; intros struct pd fields pd' Hrun Hkeys.
  - injection Hrun as <- <-. auto.
  - simpl in Hrun.
    apply bind_inv_ok in Hrun as (struct' & pd1 & Hstep & Hrun).
    unfold serialize_properties_step in Hstep.
    apply bind_inv_ok in Hstep as ([result deps] & pd0 & Hser & Hstep).
    unfold with_fresh_deps in Hser.
    destruct (serialize_property env t v []) as [[r | e] d]; [| discriminate].
    injection Hser as <- <- <-.
    cbv zeta in Hstep. cbn [fst snd] in Hstep.
    destruct (is_none r).
    + unfold ret in Hstep. injection Hstep as <- <-.
      destruct (IH _ _ _ _ Hrun Hkeys) as [Heq Hin]. split; [exact Heq |].
      intros k' Hk'. destruct (Hin k' Hk') as [? | (k0 & ? & ?)]; [now left |].
      right. exists k0. simpl. auto.
    + apply bind_inv_ok in Hstep as (w & pd2 & Hw & Hstep).
      unfold lift in Hw. destruct (to_wire r); [| discriminate]. injection Hw as <- <-.
      apply bind_inv_ok in Hstep as ([] & pd3 & Hmod & Hstep).
      unfold modify in Hmod. injection Hmod as <-.
      unfold ret in Hstep. injection Hstep as <- <-.
      destruct (IH _ _ _ _ Hrun (dict_keys_set_congr _ _ _ _ _ Hkeys)) as [Heq Hin].
      split; [exact Heq |].
      intros k' Hk'. destruct (Hin k' Hk') as [Hset | (k0 & ? & ?)].
      * apply In_dict_keys_set in Hset as [-> | ?]; [| now left].
        right. exists k. simpl. auto.
      * right. exists k0. simpl. auto.
Qed.

Lemma serialize_properties_loop_defined inputs :
  Forall (fun kv => renders_dicts (snd kv) = true /\
                    exists w deps, serialize_property env t (snd kv) [] = (Ok w, deps) /\
                                   exact_numbers w = true) inputs ->
  forall struct pd, exists fields pd',
  serialize_properties_loop env t inputs struct pd = (Ok fields, pd').
Proof.
  induction 1 as [| [k v] inputs [Hr (w & deps & Hser & Hexact)] Hl IH]; intros struct pd.
  - now exists struct, pd.
  - simpl in *.
    assert (Hstep : exists struct' pd1,
               serialize_properties_step env t k v struct pd = (Ok struct', pd1)).
    { unfold serialize_properties_step, bind, with_fresh_deps. rewrite Hser.
      cbv zeta. cbn [fst snd].
      destruct (is_none w); [now exists struct, pd |].
      destruct (to_wire_defined w) as [x Hx];
        [eapply serialize_property_wire_ready; eassumption | exact Hexact |].
      unfold lift. rewrite Hx. unfold modify, ret. eauto. }
    destruct Hstep as (struct' & pd1 & Hstep).
    destruct (IH struct' pd1) as (fields & pd' & Hrun).
    exists fields, pd'. erewrite bind_ok; eassumption.
Qed.
End SerializePropertiesMore.

(** X3. [serialize_properties] returns when every property value
    serializes (started, as the loop does, from an empty [deps]) to a value
    whose numbers are integers of magnitude at most [2^53], and every typed
    record renders to a dict: the call then returns a [Struct], whatever
    [property_deps] held. *)
Theorem X3_serialize_properties_returns (env : settings) (t : option (string -> string))
    (inputs : list (string * pyval)) (property_deps : list (string * list resource)) :
  Forall (fun kv => renders_dicts (snd kv) = true /\
                    exists w deps, serialize_property env t (snd kv) [] = (Ok w, deps) /\
                                   exact_numbers w = true) inputs ->
  exists fields property_deps',
    serialize_properties env t inputs property_deps = (Ok (WStruct fields), property_deps').
Proof.
  intros Hinputs.
  destruct (serialize_properties_loop_defined env t inputs Hinputs [] property_deps)
    as (fields & pd' & Hrun).
  exists fields, pd'. unfold serialize_properties. erewrite bind_ok; [| exact Hrun]. reflexivity.
Qed.

Lemma X3_serialize_properties_returns_witness :
  exists fields property_deps',
    serialize_properties preview_run (Some (fun k => String.append "x_" k))
      [("bucket", PCustomResource "urn:bucket" PUnknown);
       ("tags", PDict [("env", POutput ["urn:vpc"] false false PNone); ("n", PNum 3)]);
       ("nothing", PNone)]
      [("stale", ["urn:old"])] =
    (Ok (WStruct fields), property_deps').
Proof.
  apply (X3_serialize_properties_returns preview_run (Some (fun k => String.append "x_" k))
           [("bucket", PCustomResource "urn:bucket" PUnknown);
            ("tags", PDict [("env", POutput ["urn:vpc"] false false PNone); ("n", PNum 3)]);
            ("nothing", PNone)]
           [("stale", ["urn:old"])]).
  repeat constructor; simpl; eexists; eexists; split; reflexivity.
Defined.

(** X4. Started with an empty [property_deps], [serialize_properties] leaves
    it with exactly the keys of the [Struct] it returns, in the same order,
    and each of them is the translated name of an input property. *)
Theorem X4_struct_and_deps_have_the_same_keys (env : settings) (t : option (string -> string))
    (inputs : list (string * pyval)) (fields : list (string * wire))
    (property_deps : list (string * list resource)) :
  serialize_properties env t inputs [] = (Ok (WStruct fields), property_deps) ->
  dict_keys fields = dict_keys property_deps /\
  forall k, In k (dict_keys fields) ->
    exists k0, In k0 (dict_keys inputs) /\ k = translated_name t k0.
Proof.
  intros Hrun. unfold serialize_properties in Hrun.
  apply bind_inv_ok in Hrun as (struct & pd & Hrun & Hret).
  unfold ret in Hret. injection Hret as <- <-.
  destruct (serialize_properties_loop_keys env t inputs [] [] struct pd Hrun eq_refl)
    as [Heq Hin].
  split; [exact Heq |].
  intros k Hk. destruct (Hin k Hk) as [[] | ?]. assumption.
Qed.

Lemma X4_struct_and_deps_have_the_same_keys_witness :
  dict_keys [("x_bucket", WStr "b-1"); ("x_size", WNum 3)] =
  dict_keys [("x_bucket", ["urn:bucket"]); ("x_size", @nil resource)] /\
  forall k, In k (dict_keys [("x_bucket", WStr "b-1"); ("x_size", WNum 3)]) ->
    exists k0, In k0 ["bucket"; "gone"; "size"] /\ k = String.append "x_" k0.
Proof.
  apply (X4_struct_and_deps_have_the_same_keys update_run (Some (fun k => String.append "x_" k))
           [("bucket", PCustomResource "urn:bucket" (PStr "b-1")); ("gone", PNone);
            ("size", PNum 3)]).
  reflexivity.
Defined.

(** *** Outputs through the wire *)

Lemma to_wire_secret_wrapper v w :
  to_wire v = Ok w ->
  to_wire (PDict [(_special_sig_key, PStr _special_secret_sig); ("value", v)]) =
  Ok (WStruct [(_special_sig_key, WStr _special_secret_sig); ("value", w)]).
Proof. intros H. simpl. rewrite H. reflexivity. Qed.

Lemma deserialize_property_secret_struct env w ku payload :
  deserialize_property env w None = Ok payload ->
  is_rpc_secret payload = false ->
  deserialize_property env
    (WStruct [(_special_sig_key, WStr _special_secret_sig); ("value", w)]) ku =
  Ok (secret_wrapper payload).
Proof.
  intros Hw Hsecret. rewrite deserialize_property_struct.
  unfold deserialize_properties, deserialize_properties_of. simpl.
  rewrite Hw. simpl. rewrite Hsecret. reflexivity.
Qed.

(** X5. A known output whose value is plain, free of reserved strings and
    holds only numbers that are integers of magnitude at most [2^53] comes
    back from the wire as its pruned value, wrapped as a secret exactly when
    the output is secret and the monitor supports secrets: with a monitor
    that does not, the secrecy is lost. *)
Theorem X5_known_output_roundtrip (env : settings) (keep_unknowns : option bool)
    (rs : list resource) (is_secret : bool) (v : pyval) :
  plain v = true ->
  unreserved v = true ->
  exact_numbers v = true ->
  roundtrip env keep_unknowns (POutput rs true is_secret (PAwaitable v)) =
  Ok (if is_secret && monitor_supports_secrets env then secret_wrapper (prune v) else prune v).
Proof.
  intros Hplain Hun Hexact. unfold roundtrip.
  rewrite serialize_property_output.
  unfold bind at 1. unfold modify at 1.
  change (serialize_property env None (PAwaitable v)) with (serialize_property env None v).
  erewrite bind_ok; [| apply serialize_property_plain; exact Hplain].
  cbn [negb].
  destruct (is_secret && monitor_supports_secrets env).
  - unfold ret.
    rewrite (to_wire_secret_wrapper v _ (to_wire_plain v Hplain Hexact)). cbn [rbind].
    apply deserialize_property_secret_struct.
    + apply deserialize_property_plain; assumption.
    + apply prune_not_secret; assumption.
  - unfold ret. rewrite (to_wire_plain v Hplain Hexact). cbn [rbind].
    apply deserialize_property_plain; assumption.
Qed.

Lemma X5_known_output_roundtrip_witness :
  roundtrip update_run None
    (POutput ["urn:db"] true true
       (PAwaitable (PDict [("user", PStr "admin"); ("port", PNone); ("pw", PStr "s3cr3t")]))) =
  Ok (secret_wrapper (PDict [("user", PStr "admin"); ("pw", PStr "s3cr3t")])).
Proof.
  apply (X5_known_output_roundtrip update_run None ["urn:db"] true
           (PDict [("user", PStr "admin"); ("port", PNone); ("pw", PStr "s3cr3t")]));
    reflexivity.
Defined.


(** ** Looking for unknowns *)

Lemma list_sum_In_le (f : pyval -> nat) x l : In x l -> f x <= list_sum (map f l).
Proof.
  induction l as [| y l IH]; simpl; [tauto |].
  intros [-> | Hin]; [lia |]. apply IH in Hin. lia.
Qed.

Lemma weight_value k (x : pyval) items :
  In (k, x) items -> weight x <= list_sum (map (fun kv : string * pyval => weight (snd kv)) items).
Proof.
  induction items as [| y l IH]; simpl; [tauto |].
  intros [-> | Hin]; [simpl; lia |]. apply IH in Hin. lia.
Qed.

Lemma weight_child c v : In c (children v) -> weight c < weight v.
Proof.
  destruct v; simpl; try tauto; intros Hin.
  - apply (list_sum_In_le weight) in Hin. lia.
  - unfold dict_values in Hin. apply in_map_iff in Hin as ([k x] & <- & Hin).
    apply weight_value in Hin. simpl. lia.
  - destruct v; simpl in *; try tauto.
    unfold dict_values in Hin. apply in_map_iff in Hin as ([k x] & <- & Hin).
    apply weight_value in Hin. simpl. lia.
Qed.

Lemma at_path_app v p r :
  at_path v (p ++ r) = match at_path v p with Some x => at_path x r | None => None end.
Proof.
  revert v. induction p as [| i p IH]; intros v; simpl; [reflexivity |].
  destruct (nth_error (children v) i); [apply IH | reflexivity].
Qed.

Lemma at_path_weight r : forall y x, at_path y r = Some x -> r <> [] -> weight x < weight y.
Proof.
  induction r as [| i r IH]; intros y x Hat Hne; [congruence |].
  simpl in Hat. destruct (nth_error (children y) i) as [c |] eqn:Hc; [| discriminate].
  apply nth_error_In in Hc. apply weight_child in Hc.
  destruct r as [| j r].
  - injection Hat as <-. assumption.
  - assert (weight x < weight c) by (apply IH; [assumption | discriminate]). lia.
Qed.

Lemma existsb_map_snd {A} (p : pyval -> bool) (items : list (A * pyval)) :
  existsb p (map snd items) = existsb (fun kv => p (snd kv)) items.
Proof. induction items as [| x l IH]; simpl; [reflexivity |]. now rewrite IH. Qed.

Lemma children_ind (P : pyval -> Prop) :
  (forall v, (forall c, In c (children v) -> P c) -> P v) -> forall v, P v.
Proof.
  intros Hstep v.
  assert (Hall : forall n v, weight v < n -> P v).
  { induction n as [| n IH]; intros x Hx; [lia |].
    apply Hstep. intros c Hc. apply IH. apply weight_child in Hc. lia. }
  apply (Hall (S (weight v))). lia.
Qed.

Lemma occurs_unknown_children v :
  occurs_unknown v = is_unknown v || existsb occurs_unknown (children v).
Proof.
  destruct v; try reflexivity.
  - simpl. unfold dict_values. now rewrite existsb_map_snd.
  - destruct v; try reflexivity. simpl. unfold dict_values. now rewrite existsb_map_snd.
Qed.

Section ContainsUnknownsFacts.
Variable ident : list nat -> nat.

Lemma any_impl_sound {A} (value_of : A -> pyval) xs :
  Forall (fun x => forall p stack stack',
            contains_unknowns_impl ident (value_of x) p stack = (true, stack') ->
            occurs_unknown (value_of x) = true) xs ->
  forall path i stack stack',
  any_impl (contains_unknowns_impl ident) value_of xs path i stack = (true, stack') ->
  existsb (fun x => occurs_unknown (value_of x)) xs = true.
Proof.
  induction 1 as [| x xs Hx Hxs IH]; intros path i stack stack' Hrun; simpl in Hrun.
  - discriminate.
  - destruct (contains_unknowns_impl ident (value_of x) (path ++ [i]) stack)
      as [b stack1] eqn:Hb.
    destruct (any_impl _ value_of xs path (S i) stack1) as [bs stack2] eqn:Hbs.
    injection Hrun as Hor <-. simpl.
    destruct b; simpl in *.
    + now rewrite (Hx _ _ _ Hb).
    + subst bs. rewrite (IH _ _ _ _ Hbs). apply orb_true_r.
Qed.

Lemma any_impl_values (items : list (string * pyval)) :
  forall path i stack,
  any_impl (contains_unknowns_impl ident) snd items path i stack =
  any_impl (contains_unknowns_impl ident) (fun x => x) (dict_values items) path i stack.
Proof.
  induction items as [| kv items IH]; intros path i stack; simpl; [reflexivity |].
  destruct (contains_unknowns_impl ident (snd kv) (path ++ [i]) stack) as [b stack1].
  now rewrite IH.
Qed.

(** [impl], with the three kinds of container seen through [children]. *)
Lemma contains_unknowns_impl_children val path stack :
  contains_unknowns_impl ident val path stack =
  if is_unknown val then (true, stack)
  else if negb (existsb (Nat.eqb (ident path)) stack) then
    any_impl (contains_unknowns_impl ident) (fun x => x) (children val) path 0
      (stack ++ [ident path])
  else (false, stack).
Proof.
  destruct val; try reflexivity.
  - simpl. destruct (negb (existsb (Nat.eqb (ident path)) stack)); [| reflexivity].
    apply any_impl_values.
  - destruct val; try reflexivity.
    simpl. destruct (negb (existsb (Nat.eqb (ident path)) stack)); [| reflexivity].
    apply any_impl_values.
Qed.

Lemma contains_unknowns_impl_sound val :
  forall p stack stack',
  contains_unknowns_impl ident val p stack = (true, stack') -> occurs_unknown val = true.
Proof.
  induction val as [val IH] using children_ind. intros p stack stack' Hrun.
  rewrite contains_unknowns_impl_children in Hrun. rewrite occurs_unknown_children.
  destruct (is_unknown val); [reflexivity |].
  destruct (negb (existsb (Nat.eqb (ident p)) stack)); [| discriminate].
  simpl. eapply (any_impl_sound (fun x => x)); [| exact Hrun].
  apply Forall_forall. intros c Hc. apply IH. now apply list_elem_of_In.
Qed.

Variable root : pyval.
Hypothesis Hident : identifies ident root.

Lemma ancestor_of_child p i id :
  ancestor_of ident (p ++ [i]) id <-> ancestor_of ident p id \/ id = ident p.
Proof.
  split.
  - intros (q & r & Heq & Hne & Hid).
    destruct r as [| j r _] using rev_ind; [congruence |].
    rewrite app_assoc in Heq. apply app_inj_tail in Heq as [Hp _].
    destruct r as [| j' r].
    + rewrite app_nil_r in Hp. right. congruence.
    + left. exists q, (j' :: r). repeat split; [assumption | discriminate | assumption].
  - intros [(q & r & Heq & Hne & Hid) | ->].
    + exists q, (r ++ [i]). subst p. rewrite app_assoc. repeat split; [| assumption].
      destruct r; discriminate.
    + exists p, [i]. repeat split. discriminate.
Qed.

Lemma not_its_own_ancestor p val :
  at_path root p = Some val -> ~ ancestor_of ident p (ident p).
Proof.
  intros Hat (q & r & Heq & Hne & Hid). subst p.
  rewrite at_path_app in Hat.
  destruct (at_path root q) as [y |] eqn:Hq; [| discriminate].
  assert (Hsame : y = val).
  { eapply (Hident q (q ++ r)); [exact Hq | | exact Hid].
    rewrite at_path_app, Hq. exact Hat. }
  subst y. apply at_path_weight in Hat; [lia | assumption].
Qed.

Lemma seen_is_clean p val stack :
  at_path root p = Some val ->
  existsb (Nat.eqb (ident p)) stack = true ->
  (forall id, In id stack -> ancestor_of ident p id \/ clean_object ident root id) ->
  occurs_unknown val = false.
Proof.
  intros Hat Hseen Hinv.
  apply existsb_exists in Hseen as (id & Hin & Heq). apply Nat.eqb_eq in Heq. subst id.
  destruct (Hinv _ Hin) as [Hanc | Hclean].
  - exfalso. eapply not_its_own_ancestor; eassumption.
  - eapply Hclean; [exact Hat | reflexivity].
Qed.

Lemma visited_is_clean p val stack :
  at_path root p = Some val ->
  occurs_unknown val = false ->
  (forall id, In id stack ->
     (ancestor_of ident p id \/ id = ident p) \/ clean_object ident root id) ->
  forall id, In id stack -> ancestor_of ident p id \/ clean_object ident root id.
Proof.
  intros Hat Hclean Hinv id Hin.
  destruct (Hinv id Hin) as [[Hanc | ->] | Hc]; [now left | | now right].
  right. intros q x Hq Hid.
  rewrite <- (Hident p q val x Hat Hq (eq_sym Hid)). assumption.
Qed.

Lemma any_impl_complete {A} (value_of : A -> pyval) p xs :
  Forall (fun x => forall q, at_path root q = Some (value_of x) ->
            forall stack stack',
            contains_unknowns_impl ident (value_of x) q stack = (false, stack') ->
            (forall id, In id stack ->
               ancestor_of ident q id \/ clean_object ident root id) ->
            occurs_unknown (value_of x) = false /\
            forall id, In id stack' ->
              ancestor_of ident q id \/ clean_object ident root id) xs ->
  forall i stack stack',
  (forall j x, nth_error xs j = Some x -> at_path root (p ++ [i + j]) = Some (value_of x)) ->
  any_impl (contains_unknowns_impl ident) value_of xs p i stack = (false, stack') ->
  (forall id, In id stack ->
     (ancestor_of ident p id \/ id = ident p) \/ clean_object ident root id) ->
  existsb (fun x => occurs_unknown (value_of x)) xs = false /\
  forall id, In id stack' ->
    (ancestor_of ident p id \/ id = ident p) \/ clean_object ident root id.
Proof.
  induction 1 as [| x xs Hx Hxs IH]; intros i stack stack' Hat Hrun Hinv; simpl in Hrun.
  - injection Hrun as <-. auto.
  - destruct (contains_unknowns_impl ident (value_of x) (p ++ [i]) stack)
      as [b stack1] eqn:Hb.
    destruct (any_impl _ value_of xs p (S i) stack1) as [bs stack2] eqn:Hbs.
    injection Hrun as Hor <-. apply orb_false_iff in Hor as [-> ->].
    destruct (Hx (p ++ [i])) with (stack := stack) (stack' := stack1) as [Hclean Hinv1].
    + specialize (Hat 0 x eq_refl). now rewrite Nat.add_0_r in Hat.
    + exact Hb.
    + intros id Hin. destruct (Hinv id Hin) as [Hanc | Hc]; [left | now right].
      now apply ancestor_of_child.
    + destruct (IH (S i) stack1 stack2) as [Hrest Hinv2].
      * intros j y Hj. specialize (Hat (S j) y Hj).
        now replace (S i + j) with (i + S j) by lia.
      * exact Hbs.
      * intros id Hin. destruct (Hinv1 id Hin) as [Hanc | Hc]; [left | now right].
        now apply (ancestor_of_child p i).
      * split; [| exact Hinv2]. simpl. now rewrite Hclean, Hrest.
Qed.

Lemma at_path_child p val j c :
  at_path root p = Some val -> nth_error (children val) j = Some c ->
  at_path root (p ++ [0 + j]) = Some c.
Proof.
  intros Hat Hc. rewrite at_path_app, Hat. simpl. now rewrite Hc.
Qed.

Lemma contains_unknowns_impl_complete val :
  forall p, at_path root p = Some val ->
  forall stack stack',
  contains_unknowns_impl ident val p stack = (false, stack') ->
  (forall id, In id stack -> ancestor_of ident p id \/ clean_object ident root id) ->
  occurs_unknown val = false /\
  forall id, In id stack' -> ancestor_of ident p id \/ clean_object ident root id.
Proof.
  induction val as [val IH] using children_ind. intros p Hat stack stack' Hrun Hinv.
  rewrite contains_unknowns_impl_children in Hrun.
  destruct (is_unknown val) eqn:Hunknown; [discriminate |].
  destruct (existsb (Nat.eqb (ident p)) stack) eqn:Hseen; cbn [negb] in Hrun.
  - injection Hrun as <-. split; [eapply seen_is_clean; eassumption | exact Hinv].
  - destruct (any_impl_complete (fun x => x) p (children val)) with
      (i := 0) (stack := stack ++ [ident p]) (stack' := stack') as [Hclean Hinv'].
    + apply Forall_forall. intros c Hc. apply IH. now apply list_elem_of_In.
    + intros j x Hj. eapply at_path_child; eassumption.
    + exact Hrun.
    + intros id Hin; apply in_app_iff in Hin as [Hin | [<- | []]];
        [destruct (Hinv id Hin); auto | auto].
    + assert (Hval : occurs_unknown val = false)
        by (rewrite occurs_unknown_children, Hunknown; exact Hclean).
      split; [exact Hval |].
      eapply visited_is_clean; [exact Hat | exact Hval | exact Hinv'].
Qed.
End ContainsUnknownsFacts.

Lemma contains_unknowns_sound ident val :
  occurs_unknown val = false -> contains_unknowns ident val = false.
Proof.
  intros Hclean. unfold contains_unknowns.
  destruct (contains_unknowns_impl ident val [] []) as [[] stack'] eqn:Hrun; [| reflexivity].
  apply contains_unknowns_impl_sound in Hrun. congruence.
Qed.

(** X6. On a value whose objects [ident] names, shared objects included,
    [contains_unknowns] answers whether an [Unknown] sits in the value under
    lists, dict values and the values of instances of output types, which
    are dicts: skipping the objects already visited never hides one, and
    nothing is looked for inside outputs, assets or other objects. *)
Theorem X6_contains_unknowns_finds_them (ident : list nat -> nat) (val : pyval) :
  identifies ident val ->
  contains_unknowns ident val = occurs_unknown val.
Proof.
  intros Hident. unfold contains_unknowns.
  destruct (contains_unknowns_impl ident val [] []) as [[] stack'] eqn:Hrun.
  - symmetry. eapply contains_unknowns_impl_sound, Hrun.
  - symmetry.
    eapply (contains_unknowns_impl_complete ident val Hident val []);
      [reflexivity | exact Hrun | intros id []].
Qed.

Lemma X6_contains_unknowns_finds_them_witness :
  contains_unknowns
    (fun p => match p with [] => 0 | [2] => 1 | [2; 0] => 2 | _ => 3 end)
    (PList [PNum 7; PNum 7; PInstance "Bar" (PDict [("a", PUnknown)])]) = true.
Proof.
  apply (X6_contains_unknowns_finds_them
           (fun p => match p with [] => 0 | [2] => 1 | [2; 0] => 2 | _ => 3 end)
           (PList [PNum 7; PNum 7; PInstance "Bar" (PDict [("a", PUnknown)])])).
  assert (Hplaces : forall p x,
            at_path (PList [PNum 7; PNum 7; PInstance "Bar" (PDict [("a", PUnknown)])]) p = Some x ->
            p = [] \/ (p = [0] /\ x = PNum 7) \/ (p = [1] /\ x = PNum 7) \/
            p = [2] \/ p = [2; 0]).
  { intros p x Hp.
    destruct p as [| [| [| [| i]]] p]; simpl in Hp; try discriminate; auto.
    - destruct p as [| j p]; simpl in Hp; [injection Hp as <-; auto |].
      destruct j; discriminate.
    - destruct p as [| j p]; simpl in Hp; [injection Hp as <-; auto 6 |].
      destruct j; discriminate.
    - destruct p as [| [| j] p]; simpl in Hp.
      + auto 6.
      + destruct p as [| k p]; simpl in Hp; [auto 6 | destruct k; discriminate].
      + destruct j; simpl in Hp; discriminate.
    - destruct i; simpl in Hp; discriminate. }
  intros p q x y Hp Hq Hid.
  destruct (Hplaces p x Hp) as [-> | [[-> ->] | [[-> ->] | [-> | ->]]]];
    destruct (Hplaces q y Hq) as [-> | [[-> ->] | [[-> ->] | [-> | ->]]]];
    simpl in Hid; try discriminate; try reflexivity; congruence.
Defined.


(** ** Deserializer *)

Lemma existsb_map {A B} (p : B -> bool) (g : A -> B) l :
  existsb p (map g l) = existsb (fun x => p (g x)) l.
Proof. induction l as [| x l IH]; simpl; [reflexivity |]. now rewrite IH. Qed.

Lemma existsb_Forall2 {A B} (p : A -> bool) (q : B -> bool) xs ys :
  Forall2 (fun x y => p x = q y) xs ys -> existsb p xs = existsb q ys.
Proof. induction 1 as [| x y xs ys Hxy H IH]; simpl; [reflexivity |]. now rewrite Hxy, IH. Qed.

Lemma existsb_values_filter {B} (p q : B -> bool) (keys : list string) :
  (forall y, p y = true -> q y = true) ->
  forall ys, length keys = length ys ->
  existsb p (dict_values (List.filter (fun kv => q (snd kv)) (combine keys ys))) =
  existsb p ys.
Proof.
  intros Hpq. induction keys as [| k keys IH]; intros [| y ys] Hlen; simpl in *;
    try discriminate; [reflexivity |].
  injection Hlen as Hlen. destruct (q y) eqn:Hq; simpl.
  - now rewrite IH.
  - rewrite IH by assumption. destruct (p y) eqn:Hp; [| reflexivity].
    apply Hpq in Hp. congruence.
Qed.

Lemma Forall2_Forall_l {A B} (R : A -> B -> Prop) (P P' : A -> Prop) (Q : A -> B -> Prop)
    xs ys :
  Forall2 R xs ys -> Forall P xs -> Forall P' xs ->
  (forall x y, R x y -> P x -> P' x -> Q x y) -> Forall2 Q xs ys.
Proof.
  intros HR HP HP' Himpl. induction HR as [| x y xs ys Hxy H IH]; [constructor |].
  inversion HP; inversion HP'; subst. constructor; auto.
Qed.

Lemma Forall2_Forall_r {A B} (R : A -> B -> Prop) (P : A -> Prop) (Q : B -> Prop) xs ys :
  Forall2 R xs ys -> Forall P xs -> (forall x y, R x y -> P x -> Q y) -> Forall Q ys.
Proof.
  intros HR HP Himpl. induction HR as [| x y xs ys Hxy H IH]; [constructor |].
  inversion HP; subst. constructor; eauto.
Qed.

Lemma dict_buildR_mapR {A B} (f : A -> result B) keep items :
  forall obj out, dict_buildR f keep items obj = Ok out ->
  exists ys, mapR f (dict_values items) = Ok ys.
Proof.
  induction items as [| [k v] items IH]; intros obj out Hrun; simpl in *; [now exists [] |].
  apply rbind_inv_ok in Hrun as (y & Hy & Hrun).
  destruct (IH _ _ Hrun) as [ys Hys]. exists (y :: ys). now rewrite Hy, Hys.
Qed.

Lemma dict_buildR_results_in {A B} (f : A -> result B) keep (P : B -> Prop) items :
  Forall (fun kv => forall y, f (snd kv) = Ok y -> P y) items ->
  forall obj out,
  dict_buildR f keep items obj = Ok out ->
  Forall (fun kv => P (snd kv)) obj -> Forall (fun kv => P (snd kv)) out.
Proof.
  induction 1 as [| [k v] items Hx Hl IH]; intros obj out Hrun Hobj; simpl in *.
  - now injection Hrun as <-.
  - apply rbind_inv_ok in Hrun as (y & Hy & Hrun).
    eapply IH; [exact Hrun |].
    destruct (keep y); [| assumption]. apply Forall_dict_set; auto.
Qed.

Lemma wire_eq_str_other sig a b :
  wire_eq_str sig a = true -> wire_eq_str sig b = String.eqb a b.
Proof.
  destruct sig; simpl; try discriminate. intros H. apply String.eqb_eq in H. now subst.
Qed.

Section DeserializerMore.
Variable env : settings.

(** What a map with a signature deserializes to. *)
Lemma deserialize_properties_signed fields ku sig props :
  dict_get _special_sig_key fields = Some sig ->
  deserialize_properties env fields ku = Ok props ->
  (wire_eq_str sig _special_secret_sig = false /\
   ((exists a b c, props = PAsset a b c) \/
    (exists b c, props = PArchive None b c) \/
    (exists w assets,
       dict_get "assets" fields = Some w /\
       deserialize_property env w None = Ok assets /\
       props = PArchive (Some assets) None None))) \/
  (wire_eq_str sig _special_secret_sig = true /\
   exists w payload,
     dict_get "value" fields = Some w /\
     deserialize_property env w None = Ok payload /\
     props = secret_wrapper payload).
Proof.
  intros Hsig H. unfold deserialize_properties, deserialize_properties_of in H.
  rewrite Hsig in H.
  destruct (wire_eq_str sig _special_asset_sig) eqn:Hasset.
  { left. split; [now rewrite (wire_eq_str_other _ _ _ Hasset) |]. left.
    destruct (dict_get "path" fields); [injection H as <-; eauto |].
    destruct (dict_get "text" fields); [injection H as <-; eauto |].
    destruct (dict_get "uri" fields); [injection H as <-; eauto | discriminate]. }
  destruct (wire_eq_str sig _special_archive_sig) eqn:Harchive.
  { left. split; [now rewrite (wire_eq_str_other _ _ _ Harchive) |]. right.
    rewrite dict_get_with_get in H.
    destruct (dict_get "assets" fields) as [w |] eqn:Hassets; simpl in H.
    - right. apply rbind_inv_ok in H as (assets & Ha & H). injection H as <-. eauto.
    - left.
      destruct (dict_get "path" fields); [injection H as <-; eauto |].
      destruct (dict_get "uri" fields); [injection H as <-; eauto | discriminate]. }
  destruct (wire_eq_str sig _special_secret_sig) eqn:Hsecret; [| discriminate].
  right. split; [reflexivity |].
  rewrite dict_get_with_get in H.
  destruct (dict_get "value" fields) as [w |] eqn:Hvalue; simpl in H; [| discriminate].
  apply rbind_inv_ok in H as (payload & Hp & H). injection H as <-. eauto.
Qed.

(** How [deserialize_property] finishes a map. *)
Lemma deserialize_property_struct_inv fields ku v :
  deserialize_property env (WStruct fields) ku = Ok v ->
  exists props,
    deserialize_properties env fields ku = Ok props /\
    match props with
    | PDict items =>
        if existsb is_rpc_secret (dict_values items) then
          exists raw,
            dict_buildR unwrap_rpc_secret (fun _ => true) items [] = Ok raw /\
            v = secret_wrapper (PDict raw)
        else v = props
    | _ => v = props
    end.
Proof.
  rewrite deserialize_property_struct. intros H.
  apply rbind_inv_ok in H as (props & Hprops & H). exists props. split; [exact Hprops |].
  destruct props; try (injection H as <-; reflexivity).
  destruct (existsb is_rpc_secret (dict_values items)).
  - apply rbind_inv_ok in H as (raw & Hraw & H). injection H as <-. eauto.
  - now injection H as <-.
Qed.

(** A secret that comes out of the deserializer is a wrapper. *)
Lemma deserialize_property_secret_shape w ku v :
  deserialize_property env w ku = Ok v ->
  is_rpc_secret v = true -> exists payload, v = secret_wrapper payload.
Proof.
  destruct w as [| b | n | s | vs | fields]; intros H Hsecret;
    try (injection H as <-; discriminate).
  - simpl in H. destruct (String.eqb s UNKNOWN); injection H as <-; [| discriminate].
    destruct (is_dry_run env || truthy ku); discriminate.
  - rewrite deserialize_property_list in H.
    apply rbind_inv_ok in H as (values & Hvalues & H).
    destruct (existsb is_rpc_secret values).
    + apply rbind_inv_ok in H as (raw & Hraw & H). injection H as <-. eauto.
    + injection H as <-. discriminate.
  - apply deserialize_property_struct_inv in H as (props & Hprops & H).
    destruct (dict_get _special_sig_key fields) as [sig |] eqn:Hsig.
    + destruct (deserialize_properties_signed _ _ _ _ Hsig Hprops)
        as [(_ & [(a & b & c & ->) | [(b & c & ->) | (w & assets & _ & _ & ->)]])
           | (_ & w & payload & _ & _ & ->)]; try (subst v; discriminate).
      unfold secret_wrapper at 1 in H.
      destruct (existsb is_rpc_secret _); [destruct H as (raw & _ & ->) |]; eauto.
    + pose proof Hprops as Hitems.
      rewrite (deserialize_properties_plain _ _ _ Hsig) in Hitems.
      apply rbind_inv_ok in Hitems as (items & Hitems & Heq). injection Heq as <-.
      destruct (existsb is_rpc_secret (dict_values items)).
      * destruct H as (raw & _ & ->). eauto.
      * subst v. simpl in Hsecret.
        rewrite (deserialize_properties_get_None _ _ _ _ _ Hprops Hsig) in Hsecret.
        discriminate.
Qed.

Lemma deserialize_property_has_secret w :
  forall ku v,
  distinct_fields w = true ->
  deserialize_property env w ku = Ok v ->
  is_rpc_secret v = has_secret w.
Proof.
  induction w using wire_rect'; intros ku v Hwf Hrun;
    try (injection Hrun as <-; reflexivity).
  - simpl in Hrun. destruct (String.eqb s UNKNOWN); injection Hrun as <-; [| reflexivity].
    now destruct (is_dry_run env || truthy ku).
  - rewrite deserialize_property_list in Hrun.
    apply rbind_inv_ok in Hrun as (ys & Hys & Hrun).
    pose proof (deserialize_property_list_of env _ _ _ Hys) as Hv.
    rewrite deserialize_property_list, Hys in Hv. cbn [rbind] in Hv.
    rewrite Hv in Hrun. injection Hrun as <-.
    assert (Hsame : existsb has_secret values = existsb is_rpc_secret ys).
    { apply existsb_Forall2. apply mapR_Forall2 in Hys.
      simpl in Hwf. apply forallb_Forall in Hwf.
      eapply Forall2_Forall_l; [exact Hys | exact H | exact Hwf |].
      intros x y Hxy Hx Hwx. simpl in *. symmetry. eapply Hx; eassumption. }
    simpl. rewrite Hsame. now destruct (existsb is_rpc_secret ys).
  - simpl in Hwf. apply andb_true_iff in Hwf as [Hkeys Hwf].
    apply forallb_Forall in Hwf. apply distinct_NoDup in Hkeys.
    pose proof Hrun as Hinv.
    apply deserialize_property_struct_inv in Hinv as (props & Hprops & Hinv).
    simpl. destruct (dict_get _special_sig_key fields) as [sig |] eqn:Hsig.
    + destruct (deserialize_properties_signed _ _ _ _ Hsig Hprops)
        as [(-> & [(a & b & c & ->) | [(b & c & ->) | (w & assets & _ & _ & ->)]])
           | (-> & w & payload & _ & _ & ->)]; try (subst v; reflexivity).
      unfold secret_wrapper at 1 in Hinv.
      destruct (existsb is_rpc_secret _); [destruct Hinv as (raw & _ & ->) | subst v];
        reflexivity.
    + pose proof Hprops as Hitems.
      rewrite (deserialize_properties_plain _ _ _ Hsig) in Hitems.
      apply rbind_inv_ok in Hitems as (items & Hitems & Heq). injection Heq as <-.
      destruct (dict_buildR_mapR _ _ _ _ _ Hitems) as [ys Hys].
      rewrite (dict_buildR_entries _ _ _ [] ys) in Hitems; [| exact Hkeys | exact Hys].
      injection Hitems as <-. cbn [app] in *.
      assert (Hsame : existsb (fun kv => has_secret (snd kv)) fields =
                      existsb is_rpc_secret ys).
      { rewrite <- (existsb_map has_secret snd).
        apply existsb_Forall2. apply mapR_Forall2 in Hys.
        assert (H' : Forall (fun w => forall ku v,
                                 distinct_fields w = true ->
                                 deserialize_property env w ku = Ok v ->
                                 is_rpc_secret v = has_secret w) (dict_values fields))
          by (unfold dict_values; apply Forall_map; exact H).
        assert (Hwf' : Forall (fun w => distinct_fields w = true) (dict_values fields))
          by (unfold dict_values; apply Forall_map; exact Hwf).
        eapply Forall2_Forall_l; [exact Hys | exact H' | exact Hwf' |].
        intros x y Hxy Hx Hwx. simpl in *. symmetry. eapply Hx; eassumption. }
      rewrite (existsb_values_filter is_rpc_secret (fun y => negb (is_none y))) in Hinv.
      * rewrite Hsame. destruct (existsb is_rpc_secret ys).
        -- destruct Hinv as (raw & _ & ->). reflexivity.
        -- subst v. simpl.
           now rewrite (deserialize_properties_get_None _ _ _ _ _ Hprops Hsig).
      * intros y Hy. now destruct y.
      * apply mapR_length in Hys. unfold dict_keys, dict_values in *.
        now rewrite length_map in *.
Qed.
End DeserializerMore.

(** X7. On a protobuf value whose maps have distinct field names, what
    [deserialize_property] returns is a secret exactly when a map signed as
    a secret sits in the value under lists and under the fields of unsigned
    maps: secrecy bubbles up to the top from any depth, and from nowhere
    else. *)
Theorem X7_secret_iff_signed_map_inside (env : settings) (w : wire)
    (keep_unknowns : option bool) (v : pyval) :
  distinct_fields w = true ->
  deserialize_property env w keep_unknowns = Ok v ->
  is_rpc_secret v = has_secret w.
Proof. apply deserialize_property_has_secret. Qed.

Lemma X7_secret_iff_signed_map_inside_witness :
  is_rpc_secret
    (secret_wrapper
       (PDict [("ports", PList [PNum 80; PDict [("token", PStr "t0k3n")]]);
               ("name", PStr "web")])) =
  has_secret
    (WStruct [("ports",
               WList [WNum 80;
                      WStruct [("token",
                                WStruct [(_special_sig_key, WStr _special_secret_sig);
                                         ("value", WStr "t0k3n")])]]);
              ("name", WStr "web")]).
Proof.
  apply (X7_secret_iff_signed_map_inside update_run
           (WStruct [("ports",
                      WList [WNum 80;
                             WStruct [("token",
                                       WStruct [(_special_sig_key, WStr _special_secret_sig);
                                                ("value", WStr "t0k3n")])]]);
                     ("name", WStr "web")])
           None); reflexivity.
Defined.

(** *** Unknowns *)

Lemma occurs_unknown_wrapper payload :
  occurs_unknown (secret_wrapper payload) = occurs_unknown payload.
Proof. simpl. apply orb_false_r. Qed.

Lemma existsb_false_of_Forall {A} (p : A -> bool) l :
  Forall (fun x => p x = false) l -> existsb p l = false.
Proof. induction 1 as [| x l Hx Hl IH]; simpl; [reflexivity |]. now rewrite Hx, IH. Qed.

Lemma occurs_unknown_unwrap x y :
  unwrap_rpc_secret x = Ok y -> occurs_unknown x = false -> occurs_unknown y = false.
Proof.
  unfold unwrap_rpc_secret. destruct (is_rpc_secret x); [| now intros [= <-]].
  assert (Hitems : forall items,
            match dict_get "value" items with
            | Some v => Ok v
            | None => Raise (KeyError "value")
            end = Ok y ->
            existsb (fun kv => occurs_unknown (snd kv)) items = false ->
            occurs_unknown y = false).
  { intros items.
    destruct (dict_get "value" items) as [payload |] eqn:Hvalue; [| discriminate].
    intros [= <-] Hclean. apply dict_get_In in Hvalue.
    apply existsb_false_Forall in Hclean. rewrite Forall_forall in Hclean.
    apply (Hclean ("value", payload)). now apply list_elem_of_In. }
  destruct x as [| | | | | items | | | | | | | | | cls arg |]; simpl; try discriminate;
    [apply Hitems |].
  destruct arg; simpl; try discriminate; apply Hitems.
Qed.

Section NoUnknowns.
Variable env : settings.
Hypothesis Hupdate : is_dry_run env = false.

Lemma deserialize_property_no_unknown w :
  forall ku v,
  truthy ku = false ->
  deserialize_property env w ku = Ok v ->
  occurs_unknown v = false.
Proof.
  induction w using wire_rect'; intros ku v Hku Hrun;
    try (injection Hrun as <-; reflexivity).
  - simpl in Hrun. rewrite Hupdate, Hku in Hrun.
    destruct (String.eqb s UNKNOWN); now injection Hrun as <-.
  - rewrite deserialize_property_list in Hrun.
    apply rbind_inv_ok in Hrun as (ys & Hys & Hrun).
    assert (Hclean : Forall (fun y => occurs_unknown y = false) ys).
    { apply mapR_Forall2 in Hys.
      eapply Forall2_Forall_r; [exact Hys | exact H |].
      intros x y Hxy Hx. simpl in *. eapply Hx; eassumption. }
    destruct (existsb is_rpc_secret ys).
    + apply rbind_inv_ok in Hrun as (raw & Hraw & Hrun). injection Hrun as <-.
      rewrite occurs_unknown_wrapper. simpl. apply existsb_false_of_Forall.
      apply mapR_Forall2 in Hraw.
      eapply Forall2_Forall_r; [exact Hraw | exact Hclean |].
      intros x y Hxy Hx. simpl in *. eapply occurs_unknown_unwrap; eassumption.
    + injection Hrun as <-. simpl. now apply existsb_false_of_Forall.
  - apply deserialize_property_struct_inv in Hrun as (props & Hprops & Hinv).
    assert (Hclean : occurs_unknown props = false).
    { destruct (dict_get _special_sig_key fields) as [sig |] eqn:Hsig.
      - destruct (deserialize_properties_signed _ _ _ _ _ Hsig Hprops)
          as [(_ & [(a & b & c & ->) | [(b & c & ->) | (w & assets & _ & _ & ->)]])
             | (_ & w & payload & Hw & Hpayload & ->)]; try reflexivity.
        rewrite occurs_unknown_wrapper.
        apply dict_get_In in Hw. rewrite Forall_forall in H.
        apply (H ("value", w)) with (ku := None); [now apply list_elem_of_In | | assumption].
        reflexivity.
      - rewrite (deserialize_properties_plain _ _ _ Hsig) in Hprops.
        apply rbind_inv_ok in Hprops as (items & Hitems & Heq). injection Heq as <-.
        simpl. apply existsb_false_of_Forall.
        eapply (dict_buildR_results_in _ _ (fun y => occurs_unknown y = false));
          [| exact Hitems | constructor].
        eapply Forall_impl; [exact H |]. intros kv Hkv y Hy. simpl in *.
        eapply Hkv; eassumption. }
    destruct props; try congruence.
    destruct (existsb is_rpc_secret (dict_values items)); [| congruence].
    destruct Hinv as (raw & Hraw & ->).
    rewrite occurs_unknown_wrapper. simpl. apply existsb_false_of_Forall.
    eapply (dict_buildR_results_in _ _ (fun y => occurs_unknown y = false));
      [| exact Hraw | constructor].
    simpl in Hclean. apply existsb_false_Forall in Hclean.
    eapply Forall_impl; [exact Hclean |]. intros kv Hkv y Hy. simpl in *.
    eapply occurs_unknown_unwrap; eassumption.
Qed.
End NoUnknowns.

(** X8. Outside a preview, and unless the caller asks to keep unknowns, what
    [deserialize_property] returns holds no [Unknown] under its lists and
    dicts, and [contains_unknowns] says so, whatever the identities of its
    objects: the sentinel string has become [None] everywhere. *)
Theorem X8_no_unknowns_outside_preview (env : settings) (w : wire)
    (keep_unknowns : option bool) (v : pyval) (ident : list nat -> nat) :
  is_dry_run env = false ->
  truthy keep_unknowns = false ->
  deserialize_property env w keep_unknowns = Ok v ->
  occurs_unknown v = false /\ contains_unknowns ident v = false.
Proof.
  intros Hupdate Hku Hrun.
  pose proof (deserialize_property_no_unknown env Hupdate w keep_unknowns v Hku Hrun) as Hclean.
  split; [exact Hclean | now apply contains_unknowns_sound].
Qed.

Lemma X8_no_unknowns_outside_preview_witness :
  occurs_unknown (PDict [("ids", PList [PStr "a"; PNone])]) = false /\
  contains_unknowns (fun p => length p)
    (PDict [("ids", PList [PStr "a"; PNone])]) = false.
Proof.
  apply (X8_no_unknowns_outside_preview update_run
           (WStruct [("ids", WList [WStr "a"; WStr UNKNOWN]); ("arn", WStr UNKNOWN)])
           (Some false)); reflexivity.
Defined.

(** *** Signed maps *)

(** X9. A map that carries the signature key and is not a well-formed
    asset, archive or secret makes [deserialize_property] fail: an asset with
    none of path, text, uri and an archive with none of assets, path, uri
    raise [AssertionError], a secret without a value raises [ValueError], and
    any other signature raises [AssertionError]. *)
Theorem X9_malformed_signed_maps_raise (env : settings) (fields : list (string * wire))
    (keep_unknowns : option bool) (sig : wire) :
  dict_get _special_sig_key fields = Some sig ->
  (wire_eq_str sig _special_asset_sig = true ->
   dict_get "path" fields = None -> dict_get "text" fields = None ->
   dict_get "uri" fields = None ->
   deserialize_property env (WStruct fields) keep_unknowns =
   Raise (AssertionError "Invalid asset encountered when unmarshalling resource property")) /\
  (wire_eq_str sig _special_archive_sig = true ->
   dict_get "assets" fields = None -> dict_get "path" fields = None ->
   dict_get "uri" fields = None ->
   deserialize_property env (WStruct fields) keep_unknowns =
   Raise (AssertionError "Invalid archive encountered when unmarshalling resource property")) /\
  (wire_eq_str sig _special_secret_sig = true ->
   dict_get "value" fields = None ->
   deserialize_property env (WStruct fields) keep_unknowns =
   Raise (ValueError "Value not set")) /\
  (wire_eq_str sig _special_asset_sig = false ->
   wire_eq_str sig _special_archive_sig = false ->
   wire_eq_str sig _special_secret_sig = false ->
   deserialize_property env (WStruct fields) keep_unknowns =
   Raise (AssertionError "Unrecognized signature when unmarshalling resource property")).
Proof.
  intros Hsig.
  rewrite deserialize_property_struct.
  unfold deserialize_properties, deserialize_properties_of. rewrite Hsig.
  repeat split.
  - intros -> -> -> ->. reflexivity.
  - intros Harchive Hassets -> ->.
    rewrite (wire_eq_str_other _ _ _special_asset_sig Harchive), Harchive.
    rewrite !dict_get_with_get, Hassets. reflexivity.
  - intros Hsecret Hvalue.
    rewrite (wire_eq_str_other _ _ _special_asset_sig Hsecret).
    rewrite (wire_eq_str_other _ _ _special_archive_sig Hsecret), Hsecret.
    rewrite !dict_get_with_get, Hvalue. reflexivity.
  - intros -> -> ->. reflexivity.
Qed.

Lemma X9_malformed_signed_maps_raise_witness :
  deserialize_property update_run
    (WStruct [("hash", WStr "abc"); (_special_sig_key, WStr _special_asset_sig)]) None =
  Raise (AssertionError "Invalid asset encountered when unmarshalling resource property").
Proof.
  apply (X9_malformed_signed_maps_raise update_run
           [("hash", WStr "abc"); (_special_sig_key, WStr _special_asset_sig)] None
           (WStr _special_asset_sig)); reflexivity.
Defined.

(** X10. A map signed as a secret comes back as the secret wrapper of its
    [value] field, deserialized without [keep_unknowns] whatever the caller
    passed; a secret inside a secret stays wrapped twice. *)
Theorem X10_signed_secret_payload (env : settings) (fields : list (string * wire))
    (keep_unknowns : option bool) (sig : wire) (v : pyval) :
  dict_get _special_sig_key fields = Some sig ->
  wire_eq_str sig _special_secret_sig = true ->
  deserialize_property env (WStruct fields) keep_unknowns = Ok v ->
  exists w payload,
    dict_get "value" fields = Some w /\
    deserialize_property env w None = Ok payload /\
    v = secret_wrapper payload.
Proof.
  intros Hsig Hsecret Hrun.
  apply deserialize_property_struct_inv in Hrun as (props & Hprops & Hinv).
  destruct (deserialize_properties_signed _ _ _ _ _ Hsig Hprops)
    as [(Hno & _) | (_ & w & payload & Hw & Hpayload & ->)]; [congruence |].
  exists w, payload. repeat split; [assumption | assumption |].
  unfold secret_wrapper at 1 in Hinv. unfold dict_values in Hinv. cbn [map snd existsb] in Hinv.
  change (is_rpc_secret (PStr _special_secret_sig)) with false in Hinv.
  cbn [orb] in Hinv. rewrite orb_false_r in Hinv.
  destruct (is_rpc_secret payload) eqn:Hnested; [| exact Hinv].
  destruct (deserialize_property_secret_shape _ _ _ _ Hpayload Hnested) as [inner ->].
  destruct Hinv as (raw & Hraw & ->).
  injection Hraw as <-. reflexivity.
Qed.

Lemma X10_signed_secret_payload_witness :
  exists w payload,
    dict_get "value"
      [(_special_sig_key, WStr _special_secret_sig);
       ("value", WList [WStr UNKNOWN; WStr "pw"])] = Some w /\
    deserialize_property update_run w None = Ok payload /\
    secret_wrapper (PList [PNone; PStr "pw"]) = secret_wrapper payload.
Proof.
  apply (X10_signed_secret_payload update_run
           [(_special_sig_key, WStr _special_secret_sig);
            ("value", WList [WStr UNKNOWN; WStr "pw"])]
           (Some true) (WStr _special_secret_sig)); reflexivity.
Defined.


(** ** Hydration *)

Lemma dict_compR_raise_inv {A B} key (f : string -> A -> result B) items :
  forall obj e,
  dict_compR key f items obj = Raise e ->
  Exists (fun kv => f (fst kv) (snd kv) = Raise e) items.
Proof.
  induction items as [| [k v] items IH]; intros obj e H; simpl in H; [discriminate |].
  destruct (f k v) as [y | e'] eqn:Hx; simpl in H.
  - apply Exists_cons_tl. eapply IH, H.
  - injection H as <-. now apply Exists_cons_hd.
Qed.

Lemma dict_compR_total {A B} key (f : string -> A -> result B) (g : string * A -> B) items :
  Forall (fun kv => f (fst kv) (snd kv) = Ok (g kv)) items ->
  forall obj,
  dict_compR key f items obj =
  Ok (fold_left (fun acc kv => dict_set (key (fst kv)) (g kv) acc) items obj).
Proof.
  induction 1 as [| [k v] items Hx Hl IH]; intros obj; simpl in *; [reflexivity |].
  rewrite Hx. simpl. apply IH.
Qed.

Lemma dict_compR_mapR {A B} key (f : string -> A -> result B) items :
  forall obj out, dict_compR key f items obj = Ok out ->
  exists ys, mapR (fun kv => f (fst kv) (snd kv)) items = Ok ys.
Proof.
  induction items as [| [k v] items IH]; intros obj out Hrun; simpl in *; [now exists [] |].
  apply rbind_inv_ok in Hrun as (y & Hy & Hrun).
  destruct (IH _ _ Hrun) as [ys Hys]. exists (y :: ys). now rewrite Hy, Hys.
Qed.

Lemma dict_compR_entries {A B} key (f : string -> A -> result B) items :
  forall obj ys,
  List.NoDup (dict_keys obj ++ map key (dict_keys items)) ->
  mapR (fun kv => f (fst kv) (snd kv)) items = Ok ys ->
  dict_compR key f items obj = Ok (obj ++ combine (map key (dict_keys items)) ys).
Proof.
  induction items as [| [k v] items IH]; intros obj ys Hnd Hrun; simpl in *.
  - injection Hrun as <-. now rewrite app_nil_r.
  - apply rbind_inv_ok in Hrun as (y & Hy & Hrun).
    apply rbind_inv_ok in Hrun as (ys' & Hys & Hret). injection Hret as <-.
    rewrite Hy. simpl.
    assert (Hfresh : dict_get (key k) obj = None).
    { apply dict_get_None. intros Hin.
      apply NoDup_ListNoDup in Hnd. apply NoDup_app in Hnd as (_ & Hdisj & _).
      apply (Hdisj (key k)); [now apply list_elem_of_In | left]. }
    rewrite (dict_set_fresh _ _ _ Hfresh).
    rewrite (IH _ ys'); [| | exact Hys].
    + now rewrite <- app_assoc.
    + unfold dict_keys in *. rewrite map_app. simpl. rewrite <- app_assoc. exact Hnd.
Qed.

Section HydrationFacts.
Variable res : resource_obj.

Lemma translate_output_properties_dict items typ :
  translate_output_properties res (PDict items) typ =
  (try typ' <- unwrapped_type typ;
   try get_type <- value_types typ';
   try translated <-
     dict_compR (translate_output_property res)
       (fun k v => translate_output_properties res v (get_type k)) items [];
   Ok (instantiated typ' translated)).
Proof.
  cbn [translate_output_properties]. unfold unwrapped_type.
  destruct typ as [t |]; [| reflexivity].
  destruct (_is_optional_type t).
  - destruct (unwrap_optional t) as [t' | e]; [| reflexivity]. cbn [rbind].
    unfold value_types, instantiated. destruct (_is_output_type t'); [| reflexivity].
    destruct (_output_types t'); reflexivity.
  - cbn [rbind]. unfold value_types, instantiated. destruct (_is_output_type t); [| reflexivity].
    destruct (_output_types t); reflexivity.
Qed.

Lemma translate_output_properties_list elems typ :
  translate_output_properties res (PList elems) typ =
  (try typ' <- unwrapped_type typ;
   try translated <-
     mapR (fun v => translate_output_properties res v (element_type_of typ')) elems;
   Ok (PList translated)).
Proof. reflexivity. Qed.

Lemma translate_output_properties_instance cls items typ :
  translate_output_properties res (PInstance cls (PDict items)) typ =
  translate_output_properties res (PDict items) typ.
Proof. reflexivity. Qed.

Lemma translate_output_properties_leaf v typ :
  is_container v = false ->
  match v with PInstance _ (PDict _) => False | _ => True end ->
  translate_output_properties res v typ = (try typ' <- unwrapped_type typ; Ok v).
Proof.
  destruct v as [| | | | | | | | | | | | | | cls arg |]; try discriminate;
    try reflexivity.
  destruct arg; try reflexivity. contradiction.
Qed.

Lemma unwrapped_type_bare typ : is_bare_class typ = true -> unwrapped_type typ = Ok typ.
Proof. destruct typ as [[] |]; try discriminate; reflexivity. Qed.

Lemma translate_output_properties_bare v :
  forall typ, is_bare_class typ = true ->
  translate_output_properties res v typ = Ok (rename_keys (translate_output_property res) v).
Proof.
  induction v using pyval_rect'; intros typ Htyp;
    try (rewrite translate_output_properties_leaf, unwrapped_type_bare by auto; reflexivity).
  - rewrite translate_output_properties_list, unwrapped_type_bare by assumption.
    cbn [rbind].
    assert (Helem : element_type_of typ = None) by (destruct typ as [[] |]; try discriminate; reflexivity).
    rewrite Helem.
    rewrite (mapR_total _ (rename_keys (translate_output_property res))); [reflexivity |].
    eapply Forall_impl; [exact H |]. intros x Hx. now apply Hx.
  - rewrite translate_output_properties_dict, unwrapped_type_bare by assumption.
    cbn [rbind].
    assert (Hvalue : value_types typ = Ok (fun _ => None))
      by (destruct typ as [[] |]; try discriminate; reflexivity).
    rewrite Hvalue. cbn [rbind].
    rewrite (dict_compR_total _ _
               (fun kv => rename_keys (translate_output_property res) (snd kv))).
    + cbn [rbind]. destruct typ as [[] |]; try discriminate; reflexivity.
    + eapply Forall_impl; [exact H |]. intros kv Hkv. now apply Hkv.
  - destruct v;
      try (rewrite translate_output_properties_leaf, unwrapped_type_bare
             by first [assumption | reflexivity | exact I];
           reflexivity).
    exact (IHv typ Htyp).
Qed.

Lemma hydration_cases (P : pyval -> Prop) :
  (forall v, is_container v = false ->
             match v with PInstance _ (PDict _) => False | _ => True end -> P v) ->
  (forall elems, P (PList elems)) ->
  (forall items, P (PDict items)) ->
  (forall cls items, P (PInstance cls (PDict items))) ->
  forall v, P v.
Proof.
  intros Hleaf Hlist Hdict Hinstance v.
  destruct v as [| | | | | | | | | | | | | | cls arg |];
    try (apply Hleaf; [reflexivity | exact I]); auto.
  destruct arg; try (apply Hleaf; [reflexivity | exact I]). apply Hinstance.
Qed.
End HydrationFacts.

(** X11. Against no declared type, or against a class that is no output
    type and has no type arguments, [translate_output_properties] never
    fails; it returns the value with the keys of its dicts renamed by the
    resource's [translate_output_property], at every depth under lists and
    dicts, and instantiates nothing. *)
Theorem X11_untyped_hydration_renames_keys (res : resource_obj) (output : pyval)
    (typ : option pytype) :
  is_bare_class typ = true ->
  translate_output_properties res output typ =
  Ok (rename_keys (translate_output_property res) output).
Proof. intros Htyp. now apply translate_output_properties_bare. Qed.

Lemma X11_untyped_hydration_renames_keys_witness :
  translate_output_properties
    {| res_type := TResource "Bucket" [];
       translate_output_property := fun k => String.append "py_" k |}
    (PDict [("name", PStr "b"); ("rules", PList [PDict [("id", PNum 1)]; PUnknown])])
    (Some (TClass "str")) =
  Ok (PDict [("py_name", PStr "b");
             ("py_rules", PList [PDict [("py_id", PNum 1)]; PUnknown])]).
Proof.
  apply (X11_untyped_hydration_renames_keys
           {| res_type := TResource "Bucket" [];
              translate_output_property := fun k => String.append "py_" k |}
           (PDict [("name", PStr "b"); ("rules", PList [PDict [("id", PNum 1)]; PUnknown])])
           (Some (TClass "str"))).
  reflexivity.
Defined.

(** *** Failures *)

Lemma unwrap_optional_raises t e :
  unwrap_optional t = Raise e ->
  e = AssertionError "len(args) == 2" \/ e = AssertionError "args[1] is type(None)".
Proof.
  unfold unwrap_optional.
  destruct (_get_args t) as [| a [| b [| c args]]]; try (intros [= <-]; now left).
  destruct (is_NoneType b); [discriminate | intros [= <-]; now right].
Qed.

Lemma unwrapped_type_raises typ e :
  unwrapped_type typ = Raise e ->
  e = AssertionError "len(args) == 2" \/ e = AssertionError "args[1] is type(None)".
Proof.
  destruct typ as [t |]; simpl; [| discriminate].
  destruct (_is_optional_type t); [| discriminate].
  destruct (unwrap_optional t) as [t' | e'] eqn:Ht; simpl; [discriminate |].
  intros [= <-]. eapply unwrap_optional_raises, Ht.
Qed.

Lemma output_type_free_args t :
  output_type_free t = true -> Forall (fun a => output_type_free a = true) (_get_args t).
Proof.
  destruct t; simpl; try (intros _; constructor).
  intros H. rewrite forallb_forall in H. apply Forall_forall.
  intros a Ha. apply H. now apply list_elem_of_In.
Qed.

Lemma unwrapped_type_free typ typ' :
  hint_output_type_free typ = true ->
  unwrapped_type typ = Ok typ' -> hint_output_type_free typ' = true.
Proof.
  destruct typ as [t |]; simpl; [| now intros _ [= <-]].
  intros Hfree. destruct (_is_optional_type t); [| now intros [= <-]].
  unfold unwrap_optional. pose proof (output_type_free_args t Hfree) as Hargs.
  destruct (_get_args t) as [| a [| b [| c args]]]; simpl; try discriminate.
  destruct (is_NoneType b); simpl; [| discriminate].
  intros [= <-]. simpl. now inversion Hargs.
Qed.

Lemma value_types_free typ :
  hint_output_type_free typ = true ->
  exists get_type,
    value_types typ = Ok get_type /\ forall k, hint_output_type_free (get_type k) = true.
Proof.
  destruct typ as [t |]; simpl; [| now exists (fun _ => None)].
  intros Hfree.
  assert (Hnot : _is_output_type t = false) by (destruct t; try reflexivity; discriminate).
  rewrite Hnot. pose proof (output_type_free_args t Hfree) as Hargs.
  destruct (_get_args t) as [| a [| b [| c args]]];
    try (now exists (fun _ => None)).
  exists (fun _ => if is_str a then Some b else None). split; [reflexivity |].
  intros _. destruct (is_str a); [| reflexivity].
  simpl. inversion Hargs as [| ? ? _ Hb]. now inversion Hb.
Qed.

Lemma element_type_of_free typ :
  hint_output_type_free typ = true -> hint_output_type_free (element_type_of typ) = true.
Proof.
  destruct typ as [t |]; simpl; [| reflexivity].
  intros Hfree. pose proof (output_type_free_args t Hfree) as Hargs.
  destruct (_get_args t) as [| a [| b args]]; try reflexivity.
  simpl. now inversion Hargs.
Qed.

Lemma translate_output_properties_raises res v :
  forall typ err,
  hint_output_type_free typ = true ->
  translate_output_properties res v typ = Raise err ->
  err = AssertionError "len(args) == 2" \/ err = AssertionError "args[1] is type(None)".
Proof.
  induction v using pyval_rect'; intros typ err Hfree Hrun;
    try (destruct v; [.. | exact (IHv typ err Hfree Hrun) | | | | | | | | | |]);
    try (rewrite translate_output_properties_leaf in Hrun
           by first [reflexivity | exact I];
         destruct (unwrapped_type typ) as [typ' | e'] eqn:Htyp; simpl in Hrun;
         [discriminate | injection Hrun as <-; eapply unwrapped_type_raises, Htyp]).
  - rewrite translate_output_properties_list in Hrun.
    destruct (unwrapped_type typ) as [typ' | e'] eqn:Htyp; simpl in Hrun;
      [| injection Hrun as <-; eapply unwrapped_type_raises, Htyp].
    destruct (mapR _ elems) as [ys | e'] eqn:Helems; simpl in Hrun; [discriminate |].
    injection Hrun as <-. apply mapR_raise_inv in Helems.
    apply Exists_exists in Helems as (x & Hin & Hx).
    rewrite Forall_forall in H. eapply H; [eassumption | | exact Hx].
    apply element_type_of_free. eapply unwrapped_type_free; eassumption.
  - rewrite translate_output_properties_dict in Hrun.
    destruct (unwrapped_type typ) as [typ' | e'] eqn:Htyp; simpl in Hrun;
      [| injection Hrun as <-; eapply unwrapped_type_raises, Htyp].
    destruct (value_types_free typ' (unwrapped_type_free _ _ Hfree Htyp))
      as (get_type & Hget & Hget_free).
    rewrite Hget in Hrun. simpl in Hrun.
    destruct (dict_compR _ _ items []) as [ys | e'] eqn:Hitems; simpl in Hrun; [discriminate |].
    injection Hrun as <-. apply dict_compR_raise_inv in Hitems.
    apply Exists_exists in Hitems as (kv & Hin & Hkv).
    rewrite Forall_forall in H. eapply H; [eassumption | apply Hget_free | exact Hkv].
Qed.

(** X12. Against a type hint in which no output type occurs,
    [translate_output_properties] raises nothing but the [AssertionError] of
    one of the two assertions on an optional type: it fails only on a union
    holding [None] that has not two arguments or whose second argument is
    not [NoneType], met at the top or, under the lists and dicts of the
    value, among the type arguments. The resource's
    [translate_output_property] is taken to return. *)
Theorem X12_hydration_fails_by_assertion_only (res : resource_obj) (output : pyval)
    (typ : option pytype) (e : exn) :
  hint_output_type_free typ = true ->
  translate_output_properties res output typ = Raise e ->
  e = AssertionError "len(args) == 2" \/ e = AssertionError "args[1] is type(None)".
Proof. apply translate_output_properties_raises. Qed.

Lemma X12_hydration_fails_by_assertion_only_witness :
  AssertionError "args[1] is type(None)" = AssertionError "len(args) == 2" \/
  AssertionError "args[1] is type(None)" = AssertionError "args[1] is type(None)".
Proof.
  apply (X12_hydration_fails_by_assertion_only
           {| res_type := TResource "Bucket" []; translate_output_property := fun k => k |}
           (PList [PDict [("rule", PNum 1)]])
           (Some (TAlias "list"
                    [TAlias "dict"
                       [TClass "str"; TAlias "Union" [TNoneType; TClass "int"]]]))).
  - reflexivity.
  - reflexivity.
Defined.

(** *** Optional types *)

Lemma translate_output_properties_unwrapped res v typ1 typ2 :
  unwrapped_type typ1 = unwrapped_type typ2 ->
  translate_output_properties res v typ1 = translate_output_properties res v typ2.
Proof.
  intros Heq. pattern v. apply hydration_cases; clear v.
  - intros v Hleaf Hother.
    rewrite !translate_output_properties_leaf by assumption. now rewrite Heq.
  - intros elems. rewrite !translate_output_properties_list. now rewrite Heq.
  - intros items. rewrite !translate_output_properties_dict. now rewrite Heq.
  - intros cls items.
    rewrite !translate_output_properties_instance, !translate_output_properties_dict.
    now rewrite Heq.
Qed.

Lemma translate_output_properties_stage res v typ e :
  unwrapped_type typ = Raise e -> translate_output_properties res v typ = Raise e.
Proof.
  intros Hstage. pattern v. apply hydration_cases; clear v.
  - intros v Hleaf Hother.
    rewrite translate_output_properties_leaf by assumption. now rewrite Hstage.
  - intros elems. rewrite translate_output_properties_list. now rewrite Hstage.
  - intros items. rewrite translate_output_properties_dict. now rewrite Hstage.
  - intros cls items.
    rewrite translate_output_properties_instance, translate_output_properties_dict.
    now rewrite Hstage.
Qed.



(** *** Declared types *)

Section TypedHydration.
Variable res : resource_obj.

Lemma translate_output_properties_typed_dict items typ get_type v :
  unwrapped_type (Some typ) = Ok (Some typ) ->
  value_types (Some typ) = Ok get_type ->
  List.NoDup (map (translate_output_property res) (dict_keys items)) ->
  translate_output_properties res (PDict items) (Some typ) = Ok v ->
  exists ys,
    Forall2 (fun kv y => translate_output_properties res (snd kv) (get_type (fst kv)) = Ok y)
      items ys /\
    v = instantiated (Some typ)
          (combine (map (translate_output_property res) (dict_keys items)) ys).
Proof.
  intros Htyp Hget Hnd Hrun.
  rewrite translate_output_properties_dict, Htyp in Hrun. cbn [rbind] in Hrun.
  rewrite Hget in Hrun. cbn [rbind] in Hrun.
  apply rbind_inv_ok in Hrun as (translated & Htranslated & Hrun). injection Hrun as <-.
  destruct (dict_compR_mapR _ _ _ _ _ Htranslated) as [ys Hys].
  rewrite (dict_compR_entries _ _ _ [] ys) in Htranslated; [| exact Hnd | exact Hys].
  injection Htranslated as <-.
  exists ys. split; [| reflexivity]. now apply mapR_Forall2 in Hys.
Qed.
End TypedHydration.

(** X14. A dict hydrated against an output type becomes an instance of that
    type built from the translated dict: the keys are renamed in order, and
    the value under a key is hydrated against the type that the output type
    declares for that key as the engine names it, or against no type when it
    declares none. *)
Theorem X14_output_type_is_instantiated (res : resource_obj) (name : string)
    (props : list (string * (string * pytype))) (items : list (string * pyval)) (v : pyval) :
  List.NoDup (map (translate_output_property res) (dict_keys items)) ->
  translate_output_properties res (PDict items) (Some (TOutputType name props)) = Ok v ->
  exists types ys,
    _output_types (TOutputType name props) = Ok types /\
    Forall2 (fun kv y =>
               translate_output_properties res (snd kv) (dict_get (fst kv) types) = Ok y)
      items ys /\
    v = PInstance name
          (PDict (combine (map (translate_output_property res) (dict_keys items)) ys)).
Proof.
  intros Hnd Hrun.
  destruct (_output_types (TOutputType name props)) as [types | e] eqn:Htypes.
  - exists types.
    destruct (translate_output_properties_typed_dict res items (TOutputType name props)
                (fun k => dict_get k types) v) as (ys & Hys & ->); try assumption.
    + reflexivity.
    + unfold value_types. cbn [_is_output_type]. now rewrite Htypes.
    + exists ys. repeat split. exact Hys.
  - rewrite translate_output_properties_dict in Hrun.
    cbn [unwrapped_type _is_optional_type rbind] in Hrun.
    unfold value_types in Hrun. cbn [_is_output_type] in Hrun.
    rewrite Htypes in Hrun. discriminate.
Qed.

Lemma X14_output_type_is_instantiated_witness :
  exists types ys,
    _output_types
      (TOutputType "Foo"
         [("first_arg", ("firstArg", TAlias "Output" [TClass "str"]));
          ("inner", ("inner", TAlias "Union" [TOutputType "Bar" []; TNoneType]))]) = Ok types /\
    Forall2 (fun kv y =>
               translate_output_properties
                 {| res_type := TResource "R" [];
                    translate_output_property := fun k => String.append "py_" k |}
                 (snd kv) (dict_get (fst kv) types) = Ok y)
      [("firstArg", PStr "hello"); ("inner", PDict [("n", PNum 1)])] ys /\
    PInstance "Foo"
      (PDict [("py_firstArg", PStr "hello");
              ("py_inner", PInstance "Bar" (PDict [("py_n", PNum 1)]))]) =
    PInstance "Foo"
      (PDict (combine
                (map (fun k => String.append "py_" k)
                   (dict_keys [("firstArg", PStr "hello"); ("inner", PDict [("n", PNum 1)])]))
                ys)).
Proof.
  apply (X14_output_type_is_instantiated
           {| res_type := TResource "R" [];
              translate_output_property := fun k => String.append "py_" k |}
           "Foo"
           [("first_arg", ("firstArg", TAlias "Output" [TClass "str"]));
            ("inner", ("inner", TAlias "Union" [TOutputType "Bar" []; TNoneType]))]
           [("firstArg", PStr "hello"); ("inner", PDict [("n", PNum 1)])]).
  - simpl. repeat constructor; simpl; intuition discriminate.
  - reflexivity.
Defined.

(** X15. A list hydrated against a type with one argument has its elements
    hydrated against that argument, and a dict hydrated against a type with
    the two arguments [str] and [T] has its values hydrated against [T] and
    its keys renamed; the origin of the type is not looked at, so that any
    generic with such arguments acts as [List[T]] or [Dict[str, T]]. *)
Theorem X15_typed_containers (res : resource_obj) (origin : string) (T : pytype) :
  (forall elems v,
     _is_optional_type (TAlias origin [T]) = false ->
     translate_output_properties res (PList elems) (Some (TAlias origin [T])) = Ok v ->
     exists ys,
       Forall2 (fun x y => translate_output_properties res x (Some T) = Ok y) elems ys /\
       v = PList ys) /\
  (forall items v,
     _is_optional_type (TAlias origin [TClass "str"; T]) = false ->
     List.NoDup (map (translate_output_property res) (dict_keys items)) ->
     translate_output_properties res (PDict items) (Some (TAlias origin [TClass "str"; T])) =
     Ok v ->
     exists ys,
       Forall2 (fun kv y => translate_output_properties res (snd kv) (Some T) = Ok y)
         items ys /\
       v = PDict (combine (map (translate_output_property res) (dict_keys items)) ys)).
Proof.
  split.
  - intros elems v Hopt Hrun.
    rewrite translate_output_properties_list in Hrun.
    unfold unwrapped_type in Hrun. rewrite Hopt in Hrun. cbn [rbind] in Hrun.
    apply rbind_inv_ok in Hrun as (ys & Hys & Hrun). injection Hrun as <-.
    exists ys. split; [| reflexivity]. now apply mapR_Forall2 in Hys.
  - intros items v Hopt Hnd Hrun.
    destruct (translate_output_properties_typed_dict res items
                (TAlias origin [TClass "str"; T]) (fun _ => Some T) v)
      as (ys & Hys & ->); try assumption.
    + unfold unwrapped_type. now rewrite Hopt.
    + reflexivity.
    + exists ys. split; [exact Hys | reflexivity].
Qed.

Lemma X15_typed_containers_witness :
  exists ys,
    Forall2 (fun x y =>
               translate_output_properties
                 {| res_type := TResource "R" []; translate_output_property := fun k => k |}
                 x (Some (TOutputType "Bar" [])) = Ok y)
      [PDict [("n", PNum 1)]; PNone] ys /\
    PList [PInstance "Bar" (PDict [("n", PNum 1)]); PNone] = PList ys.
Proof.
  apply (proj1 (X15_typed_containers
                  {| res_type := TResource "R" []; translate_output_property := fun k => k |}
                  "tuple" (TOutputType "Bar" []))
           [PDict [("n", PNum 1)]; PNone]); reflexivity.
Defined.


(** ** Resolution of the outputs, continued *)

Lemma resolve_outputs_returns env res serialized outputs resolvers ap
    (loop : gmap nat outcome) :
  all_properties_of env res serialized outputs = Ok ap ->
  Forall (fun kv => unwraps (snd kv)) ap ->
  ready resolvers loop ->
  exists loop', resolve_outputs env res serialized outputs resolvers loop = (Ok tt, loop').
Proof.
  intros Hap Hunwraps (Hkeys & Hfutures & Hpending).
  destruct (resolve_outputs_resolves env res serialized outputs resolvers ap loop
              Hap Hunwraps Hkeys Hfutures Hpending) as (loop' & Hrun & _).
  now exists loop'.
Qed.

(** What the third loop has left in the slot of a property, in a call that
    returned. *)
Lemma resolve_outputs_delivered env resolvers ap (loop loop1 loop' : gmap nat outcome)
    name v r :
  forM (resolve_property env resolvers) ap loop = (Ok tt, loop1) ->
  forM (resolve_missing env ap) resolvers loop1 = (Ok tt, loop') ->
  In (name, v) ap ->
  is_id_or_urn name = false ->
  dict_get name resolvers = Some r ->
  slot_fulfilled loop' r (stripped v)
    (if is_dry_run env then negb (is_none (stripped v)) else true) (is_rpc_secret v).
Proof.
  intros Hthird Hlast Hin Hid Hr.
  destruct (forM_returned _ ap (name, v)
              (never_overwrites_resolve_property env resolvers) Hin loop loop1 Hthird)
    as (la & lb & Hbody & _ & Hpost).
  unfold resolve_property in Hbody. rewrite Hid, Hr in Hbody.
  apply bind_inv_ok in Hbody as ([is_secret value] & l0 & Hsv & Hbody).
  cbv zeta in Hbody. cbn [fst snd] in Hbody.
  assert (Hvalue : is_secret = is_rpc_secret v /\ value = stripped v).
  { unfold lift in Hsv. unfold stripped.
    destruct (is_rpc_secret v).
    - destruct (getitem v "value") as [payload | e]; simpl in Hsv; [| discriminate].
      injection Hsv as <- <- _. auto.
    - injection Hsv as <- <- _. auto. }
  destruct Hvalue as [-> ->].
  assert (Hslot : slot_fulfilled lb r (stripped v)
                    (if is_dry_run env then negb (is_none (stripped v)) else true)
                    (is_rpc_secret v)).
  { destruct (is_dry_run env); cbn [negb] in Hbody;
      apply resolve_returned in Hbody; exact Hbody. }
  apply (slot_after_settled lb loop' r
           (stripped v, if is_dry_run env then negb (is_none (stripped v)) else true,
            is_rpc_secret v, None)); [| exact Hslot].
  intros g o Hg. apply Hpost in Hg.
  apply (settled_after _ _ _ _ _ _
           (never_overwrites_forM _ resolvers (never_overwrites_resolve_missing env ap))
           Hlast Hg).
Qed.

(** What the last loop has left in the slot of a resolver without
    property, in a call that returned. *)
Lemma resolve_outputs_defaulted env resolvers ap (loop1 loop' : gmap nat outcome) name r :
  forM (resolve_missing env ap) resolvers loop1 = (Ok tt, loop') ->
  In (name, r) resolvers ->
  dict_get name ap = None ->
  slot_fulfilled loop' r PNone (negb (is_dry_run env)) false.
Proof.
  intros Hlast Hin Hnone.
  destruct (forM_returned _ resolvers (name, r)
              (never_overwrites_resolve_missing env ap) Hin loop1 loop' Hlast)
    as (la & lb & Hbody & _ & Hpost).
  unfold resolve_missing in Hbody.
  rewrite (proj2 (dict_has_false name ap) Hnone) in Hbody.
  apply resolve_returned in Hbody.
  apply (slot_after_settled lb loop' r (PNone, negb (is_dry_run env), false, None)
           Hpost Hbody).
Qed.

(** X16. When [all_properties] gets built and the resolvers are ready,
    [resolve_outputs] returns; and whenever it returns, each property of
    [all_properties] other than id and urn that has a resolver has its slot
    fulfilled with the property's value, taken out of its secret wrapper if
    it is one, with is-secret telling whether it was one, and with is-known
    true in an update and, in a preview, true unless the value is [None]. A
    secret wrapper is a dict with the secret signature, also when it was
    made an instance of an output type, which is a dict. *)
Theorem X16_property_slots (env : settings) (res : resource_obj)
    (serialized outputs : list (string * wire)) (resolvers : list (string * Resolver))
    (loop : gmap nat outcome) :
  (forall all_properties,
     all_properties_of env res serialized outputs = Ok all_properties ->
     Forall (fun kv => unwraps (snd kv)) all_properties ->
     ready resolvers loop ->
     exists loop', resolve_outputs env res serialized outputs resolvers loop = (Ok tt, loop')) /\
  (forall loop',
     resolve_outputs env res serialized outputs resolvers loop = (Ok tt, loop') ->
     exists all_properties,
       all_properties_of env res serialized outputs = Ok all_properties /\
       forall name v r,
         In (name, v) all_properties ->
         is_id_or_urn name = false ->
         dict_get name resolvers = Some r ->
         slot_fulfilled loop' r (stripped v)
           (if is_dry_run env then negb (is_none (stripped v)) else true)
           (is_rpc_secret v)).
Proof.
  split.
  - intros ap. apply resolve_outputs_returns.
  - intros loop' Hrun.
    apply resolve_outputs_returned in Hrun as (ap & loop1 & Hap & Hthird & Hlast).
    exists ap. split; [exact Hap |].
    intros name v r. eapply resolve_outputs_delivered; eassumption.
Qed.

Lemma X16_property_slots_witness :
  (exists loop',
     resolve_outputs update_run scenario_resource []
       [("x", WStruct [(_special_sig_key, WStr _special_secret_sig); ("value", WStr "pw")])]
       [("x", Build_Resolver 0 1 2)] ∅ = (Ok tt, loop') /\
     slot_fulfilled loop' (Build_Resolver 0 1 2) (PStr "pw") true true) /\
  (exists loop',
     resolve_outputs update_run
       {| res_type :=
            TResource "Bucket"
              [("x", ("x", TOutputType "Login" [("value", ("value", TClass "str"))]))];
          translate_output_property := fun prop => prop |} []
       [("x", WStruct [(_special_sig_key, WStr _special_secret_sig); ("value", WStr "pw")])]
       [("x", Build_Resolver 0 1 2)] ∅ = (Ok tt, loop') /\
     slot_fulfilled loop' (Build_Resolver 0 1 2) (PStr "pw") true true).
Proof.
  split.
  - destruct (X16_property_slots update_run scenario_resource []
                [("x", WStruct [(_special_sig_key, WStr _special_secret_sig);
                                ("value", WStr "pw")])]
                [("x", Build_Resolver 0 1 2)] ∅) as (Hreturns & Hthen).
    destruct (Hreturns [("x", secret_wrapper (PStr "pw"))]) as (loop' & Hrun).
    + reflexivity.
    + repeat constructor.
    + split; [| split].
      * simpl. solve_NoDup.
      * unfold all_futures, futures_of. simpl. solve_NoDup.
      * intros fut _. reflexivity.
    + exists loop'. split; [exact Hrun |].
      destruct (Hthen loop' Hrun) as (ap & Hap & Hslots).
      injection Hap as <-.
      apply (Hslots "x" (secret_wrapper (PStr "pw")));
        [simpl; tauto | reflexivity | reflexivity].
  - destruct (X16_property_slots update_run
                {| res_type :=
                     TResource "Bucket"
                       [("x", ("x", TOutputType "Login" [("value", ("value", TClass "str"))]))];
                   translate_output_property := fun prop => prop |} []
                [("x", WStruct [(_special_sig_key, WStr _special_secret_sig);
                                ("value", WStr "pw")])]
                [("x", Build_Resolver 0 1 2)] ∅) as (Hreturns & Hthen).
    destruct (Hreturns [("x", PInstance "Login" (secret_wrapper (PStr "pw")))])
      as (loop' & Hrun).
    + reflexivity.
    + repeat constructor.
    + split; [| split].
      * simpl. solve_NoDup.
      * unfold all_futures, futures_of. simpl. solve_NoDup.
      * intros fut _. reflexivity.
    + exists loop'. split; [exact Hrun |].
      destruct (Hthen loop' Hrun) as (ap & Hap & Hslots).
      injection Hap as <-.
      apply (Hslots "x" (PInstance "Login" (secret_wrapper (PStr "pw"))));
        [simpl; tauto | reflexivity | reflexivity].
Defined.

(** *** Where the value of a property comes from *)

Lemma dict_buildR_keeps {A B} (f : A -> result B) keep k items :
  forall obj out,
  dict_buildR f keep items obj = Ok out ->
  dict_get k items = None -> dict_get k out = dict_get k obj.
Proof.
  induction items as [| [k' v] items IH]; intros obj out Hrun Hnone; simpl in *.
  - now injection Hrun as <-.
  - destruct (String.eqb k k') eqn:E; [discriminate |].
    apply rbind_inv_ok in Hrun as (y & Hy & Hrun).
    rewrite (IH _ _ Hrun Hnone).
    destruct (keep y); [| reflexivity].
    apply dict_get_set_ne. apply String.eqb_neq in E. congruence.
Qed.

Lemma dict_buildR_get {A B} (f : A -> result B) keep k x y items :
  forall obj out,
  List.NoDup (dict_keys items) ->
  dict_get k items = Some x ->
  f x = Ok y -> keep y = true ->
  dict_buildR f keep items obj = Ok out ->
  dict_get k out = Some y.
Proof.
  induction items as [| [k' v] items IH]; intros obj out Hnd Hget Hx Hkeep Hrun;
    simpl in *; [discriminate |].
  inversion Hnd as [| ? ? Hfresh Hnd']; subst.
  apply rbind_inv_ok in Hrun as (y' & Hy' & Hrun).
  destruct (String.eqb k k') eqn:E.
  - apply String.eqb_eq in E. subst k'. injection Hget as ->.
    assert (y' = y) by congruence. subst y'. rewrite Hkeep in Hrun.
    rewrite (dict_buildR_keeps _ _ k _ _ _ Hrun); [apply dict_get_set_eq |].
    now apply dict_get_None.
  - eapply IH; eassumption.
Qed.

Section AllPropertiesMore.
Variable env : settings.
Variable res : resource_obj.

Lemma translate_output_properties_leaf_inv v typ tv :
  is_container v = false ->
  is_instance v = false ->
  translate_output_properties res v typ = Ok tv -> tv = v.
Proof.
  intros Hleaf Hplain H.
  rewrite (translate_output_properties_leaf res v typ Hleaf) in H;
    [| destruct v; try exact I; discriminate].
  apply rbind_inv_ok in H as (typ' & _ & H). now injection H.
Qed.

Lemma outputs_loop_keeps_other types items name :
  forall ap0 ap,
  outputs_loop res types items ap0 = Ok ap ->
  (forall k v, In (k, v) items -> translate_output_property res k <> name) ->
  dict_get name ap = dict_get name ap0.
Proof.
  induction items as [| [key value] items IH]; intros ap0 ap Hrun Hkeys; simpl in Hrun.
  - now injection Hrun as <-.
  - apply rbind_inv_ok in Hrun as (tv & _ & Hrun).
    rewrite (IH _ _ Hrun); [| intros k v Hin; apply (Hkeys k v); now right].
    apply dict_get_set_ne. apply (Hkeys key value). now left.
Qed.

Lemma outputs_loop_sets types items name v :
  forall ap0 ap,
  List.NoDup (dict_keys items) ->
  dict_get name items = Some v ->
  is_container v = false ->
  is_instance v = false ->
  (forall k, translate_output_property res k = name <-> k = name) ->
  outputs_loop res types items ap0 = Ok ap ->
  dict_get name ap = Some v.
Proof.
  induction items as [| [key value] items IH]; intros ap0 ap Hnd Hget Hleaf Hplain Htr Hrun;
    simpl in *; [discriminate |].
  inversion Hnd as [| ? ? Hfresh Hnd']; subst.
  apply rbind_inv_ok in Hrun as (tv & Htv & Hrun).
  destruct (String.eqb name key) eqn:E.
  - apply String.eqb_eq in E. subst key. injection Hget as ->.
    apply translate_output_properties_leaf_inv in Htv; [| assumption | assumption].
    subst tv.
    rewrite (outputs_loop_keeps_other _ _ name _ _ Hrun).
    + rewrite (proj2 (Htr name) eq_refl). apply dict_get_set_eq.
    + intros k x Hin Heq. apply (proj1 (Htr k)) in Heq. subst k.
      apply Hfresh. now apply (in_map fst) in Hin.
  - eapply IH; eassumption.
Qed.

(** A scalar that the engine returns for a property is the property's
    value in [all_properties]. *)
Lemma all_properties_of_output serialized outputs ap name w v :
  dict_get _special_sig_key outputs = None ->
  List.NoDup (dict_keys outputs) ->
  dict_get name outputs = Some w ->
  deserialize_property env w None = Ok v ->
  is_container v = false ->
  is_none v = false ->
  (forall k, translate_output_property res k = name <-> k = name) ->
  all_properties_of env res serialized outputs = Ok ap ->
  dict_get name ap = Some v.
Proof.
  intros Hsig Hnd Hget Hw Hleaf Hnone Htr H. unfold all_properties_of in H.
  apply rbind_inv_ok in H as (types & _ & H).
  apply rbind_inv_ok in H as (props & Hprops & H).
  pose proof Hprops as Hitems.
  rewrite (deserialize_properties_plain _ _ _ Hsig) in Hitems.
  apply rbind_inv_ok in Hitems as (items & Hitems & Heq).
  injection Heq as <-. cbn [rbind] in H.
  apply rbind_inv_ok in H as (ap1 & Hap1 & H).
  assert (Hget1 : dict_get name ap1 = Some v).
  { eapply outputs_loop_sets;
      [| | exact Hleaf | exact (deserialize_property_not_instance _ _ _ _ Hw)
       | exact Htr | exact Hap1].
    - eapply dict_buildR_NoDup; [exact Hitems | constructor].
    - eapply (dict_buildR_get (fun x => deserialize_property env x None)
                (fun value => negb (is_none value)) name w v);
        [exact Hnd | exact Hget | exact Hw | | exact Hitems].
      now rewrite Hnone. }
  destruct (negb (is_dry_run env) || is_legacy_apply_enabled env).
  - eapply inputs_loop_keeps; eassumption.
  - now injection H as <-.
Qed.

(** Without the second loop, a property that the engine does not return is
    not in [all_properties]. *)
Lemma all_properties_of_absent serialized outputs ap name :
  negb (is_dry_run env) || is_legacy_apply_enabled env = false ->
  dict_get name outputs = None ->
  (forall k, translate_output_property res k = name -> k = name) ->
  all_properties_of env res serialized outputs = Ok ap ->
  dict_get name ap = None.
Proof.
  intros Hmode Hout Htr H. unfold all_properties_of in H.
  apply rbind_inv_ok in H as (types & _ & H).
  apply rbind_inv_ok in H as (props & Hprops & H).
  apply rbind_inv_ok in H as (items & Hitems & H).
  destruct props; try discriminate. injection Hitems as <-.
  apply rbind_inv_ok in H as (ap1 & Hap1 & H).
  rewrite Hmode in H. injection H as <-.
  eapply outputs_loop_get_None; [exact Hap1 | reflexivity |].
  intros k v Hin Heq. apply Htr in Heq. subst k.
  pose proof (deserialize_properties_get_None _ _ _ _ name Hprops Hout) as Hnone.
  apply dict_get_None in Hnone. apply Hnone. now apply (in_map fst) in Hin.
Qed.
End AllPropertiesMore.

(** X17. If the same property exists in the inputs and in the outputs, the
    output wins: when the engine returns a scalar for a property, in an
    update or a preview, [resolve_outputs] fulfils the property's slot with
    that scalar, is-known true and is-secret false, whatever the serialized
    inputs hold for it. In a preview this includes the [Unknown] that the
    sentinel string deserializes to. *)
Theorem X17_output_wins (env : settings) (res : resource_obj)
    (serialized outputs : list (string * wire)) (resolvers : list (string * Resolver))
    (loop : gmap nat outcome) (name : string) (w : wire) (v : pyval) (r : Resolver) :
  dict_get _special_sig_key outputs = None ->
  List.NoDup (dict_keys outputs) ->
  dict_get name outputs = Some w ->
  deserialize_property env w None = Ok v ->
  is_container v = false ->
  is_none v = false ->
  (forall k, translate_output_property res k = name <-> k = name) ->
  is_id_or_urn name = false ->
  dict_get name resolvers = Some r ->
  (forall all_properties,
     all_properties_of env res serialized outputs = Ok all_properties ->
     Forall (fun kv => unwraps (snd kv)) all_properties ->
     ready resolvers loop ->
     exists loop', resolve_outputs env res serialized outputs resolvers loop = (Ok tt, loop')) /\
  (forall loop',
     resolve_outputs env res serialized outputs resolvers loop = (Ok tt, loop') ->
     slot_fulfilled loop' r v true false).
Proof.
  intros Hsig Hnd Hget Hw Hleaf Hnone Htr Hid Hr. split.
  - intros ap. apply resolve_outputs_returns.
  - intros loop' Hrun.
    apply resolve_outputs_returned in Hrun as (ap & loop1 & Hap & Hthird & Hlast).
    pose proof (all_properties_of_output env res serialized outputs ap name w v
                  Hsig Hnd Hget Hw Hleaf Hnone Htr Hap) as Hprop.
    pose proof (resolve_outputs_delivered env resolvers ap loop loop1 loop' name v r
                  Hthird Hlast (dict_get_In _ _ _ Hprop) Hid Hr) as Hslot.
    assert (Hplain : is_rpc_secret v = false).
    { pose proof (deserialize_property_not_instance env w None v Hw).
      destruct v; try reflexivity; discriminate. }
    rewrite (stripped_not_secret v Hplain), Hplain, Hnone in Hslot.
    now destruct (is_dry_run env).
Qed.

Lemma X17_output_wins_witness :
  exists loop',
    resolve_outputs preview_run scenario_resource [("x", WStr "seed")]
      [("x", WStr UNKNOWN)] [("x", Build_Resolver 0 1 2)] ∅ = (Ok tt, loop') /\
    slot_fulfilled loop' (Build_Resolver 0 1 2) PUnknown true false.
Proof.
  destruct (X17_output_wins preview_run scenario_resource [("x", WStr "seed")]
              [("x", WStr UNKNOWN)] [("x", Build_Resolver 0 1 2)] ∅
              "x" (WStr UNKNOWN) PUnknown (Build_Resolver 0 1 2)) as (Hreturns & Hthen).
  - reflexivity.
  - simpl. solve_NoDup.
  - reflexivity.
  - reflexivity.
  - reflexivity.
  - reflexivity.
  - intros k. simpl. tauto.
  - reflexivity.
  - reflexivity.
  - destruct (Hreturns [("x", PUnknown)]) as (loop' & Hrun).
    + reflexivity.
    + repeat constructor.
    + split; [| split].
      * simpl. solve_NoDup.
      * unfold all_futures, futures_of. simpl. solve_NoDup.
      * intros fut _. reflexivity.
    + exists loop'. split; [exact Hrun | now apply Hthen].
Defined.

(** X18. In a preview without legacy apply the inputs are not used: a
    resolver whose property the engine does not return has its slot
    fulfilled with [None], is-known false and is-secret false, whatever the
    serialized inputs hold for it. *)
Theorem X18_no_backfill_in_plain_preview (env : settings) (res : resource_obj)
    (serialized outputs : list (string * wire)) (resolvers : list (string * Resolver))
    (loop : gmap nat outcome) (name : string) (r : Resolver) :
  is_dry_run env = true ->
  is_legacy_apply_enabled env = false ->
  (forall k, translate_output_property res k = name -> k = name) ->
  dict_get name outputs = None ->
  In (name, r) resolvers ->
  (forall all_properties,
     all_properties_of env res serialized outputs = Ok all_properties ->
     Forall (fun kv => unwraps (snd kv)) all_properties ->
     ready resolvers loop ->
     exists loop', resolve_outputs env res serialized outputs resolvers loop = (Ok tt, loop')) /\
  (forall loop',
     resolve_outputs env res serialized outputs resolvers loop = (Ok tt, loop') ->
     slot_fulfilled loop' r PNone false false).
Proof.
  intros Hdry Hlegacy Htr Hout Hin. split.
  - intros ap. apply resolve_outputs_returns.
  - intros loop' Hrun.
    apply resolve_outputs_returned in Hrun as (ap & loop1 & Hap & Hthird & Hlast).
    assert (Hnone : dict_get name ap = None).
    { eapply all_properties_of_absent; [| exact Hout | exact Htr | exact Hap].
      now rewrite Hdry, Hlegacy. }
    pose proof (resolve_outputs_defaulted env resolvers ap loop1 loop' name r
                  Hlast Hin Hnone) as Hslot.
    now rewrite Hdry in Hslot.
Qed.

Lemma X18_no_backfill_in_plain_preview_witness :
  exists loop',
    resolve_outputs preview_run scenario_resource [("x", WStr "seed")] []
      [("x", Build_Resolver 0 1 2)] ∅ = (Ok tt, loop') /\
    slot_fulfilled loop' (Build_Resolver 0 1 2) PNone false false.
Proof.
  destruct (X18_no_backfill_in_plain_preview preview_run scenario_resource
              [("x", WStr "seed")] [] [("x", Build_Resolver 0 1 2)] ∅
              "x" (Build_Resolver 0 1 2)) as (Hreturns & Hthen).
  - reflexivity.
  - reflexivity.
  - intros k. simpl. tauto.
  - reflexivity.
  - simpl. tauto.
  - destruct (Hreturns []) as (loop' & Hrun).
    + reflexivity.
    + constructor.
    + split; [| split].
      * simpl. solve_NoDup.
      * unfold all_futures, futures_of. simpl. solve_NoDup.
      * intros fut _. reflexivity.
    + exists loop'. split; [exact Hrun | now apply Hthen].
Defined.

(** *** Which futures are written *)

Lemma writes_within_ret {A} futs (a : A) : writes_within futs (ret a).
Proof. intros loop fut _. reflexivity. Qed.

Lemma writes_within_lift {A} futs (r : result A) : writes_within futs (lift r).
Proof. intros loop fut _. reflexivity. Qed.

Lemma writes_within_set_result futs fut value :
  In fut futs -> writes_within futs (set_result fut value).
Proof.
  intros Hin loop g Hg. unfold set_result. destruct (loop !! fut); simpl; [reflexivity |].
  apply lookup_insert_ne. congruence.
Qed.

Lemma writes_within_set_exception futs fut e :
  In fut futs -> writes_within futs (set_exception fut e).
Proof.
  intros Hin loop g Hg. unfold set_exception. destruct (loop !! fut); simpl; [reflexivity |].
  apply lookup_insert_ne. congruence.
Qed.

Lemma writes_within_bind {A B} futs (c : M (gmap nat outcome) A)
    (k : A -> M (gmap nat outcome) B) :
  writes_within futs c -> (forall a, writes_within futs (k a)) ->
  writes_within futs (bind c k).
Proof.
  intros Hc Hk loop fut Hfut. unfold bind.
  pose proof (Hc loop fut Hfut) as H1.
  destruct (c loop) as [[a | e] loop1]; simpl in *; [| assumption].
  rewrite <- H1. now apply Hk.
Qed.

Lemma writes_within_forM {X} futs (body : X -> M (gmap nat outcome) unit) items :
  (forall x, In x items -> writes_within futs (body x)) ->
  writes_within futs (forM body items).
Proof.
  induction items as [| x items IH]; intros Hbody; simpl.
  - apply writes_within_ret.
  - apply writes_within_bind; [apply Hbody; now left |].
    intros _. apply IH. intros y Hy. apply Hbody. now right.
Qed.

Lemma writes_within_resolve futs r value is_known is_secret failed :
  (forall fut, In fut (futures_of r) -> In fut futs) ->
  writes_within futs (resolve r value is_known is_secret failed).
Proof.
  intros Hsub. unfold resolve, do_resolve.
  destruct failed as [e |];
    repeat (apply writes_within_bind; [| intros _]);
    first [apply writes_within_set_exception | apply writes_within_set_result];
    apply Hsub; unfold futures_of; simpl; tauto.
Qed.

Lemma futures_of_resolver resolvers name r fut :
  In (name, r) resolvers -> In fut (futures_of r) -> In fut (all_futures resolvers).
Proof.
  intros Hin Hfut. unfold all_futures. apply in_flat_map. exists (name, r). auto.
Qed.

Lemma writes_within_resolve_outputs env res serialized outputs resolvers :
  writes_within (all_futures resolvers)
    (resolve_outputs env res serialized outputs resolvers).
Proof.
  unfold resolve_outputs.
  apply writes_within_bind; [apply writes_within_lift |]. intros ap.
  apply writes_within_bind; [| intros _].
  - apply writes_within_forM. intros [key value] _. unfold resolve_property.
    destruct (is_id_or_urn key); [apply writes_within_ret |].
    destruct (dict_get key resolvers) as [r |] eqn:Hr; [| apply writes_within_ret].
    apply dict_get_In in Hr.
    apply writes_within_bind; [apply writes_within_lift |]. intros secret_value.
    destruct (negb (is_dry_run env)); apply writes_within_resolve;
      intros fut; apply (futures_of_resolver resolvers key r fut Hr).
  - apply writes_within_forM. intros [key r] Hin. unfold resolve_missing.
    destruct (dict_has key ap); [apply writes_within_ret |].
    apply writes_within_resolve. intros fut. apply (futures_of_resolver resolvers key r fut Hin).
Qed.

Lemma writes_within_resolve_outputs_due_to_exception resolvers e :
  writes_within (all_futures resolvers) (resolve_outputs_due_to_exception resolvers e).
Proof.
  unfold resolve_outputs_due_to_exception.
  apply writes_within_forM. intros [key r] Hin.
  apply writes_within_resolve. intros fut. apply (futures_of_resolver resolvers key r fut Hin).
Qed.

Lemma never_overwrites_resolve_outputs env res serialized outputs resolvers :
  never_overwrites (resolve_outputs env res serialized outputs resolvers).
Proof.
  unfold resolve_outputs.
  apply never_overwrites_bind; [apply never_overwrites_lift |]. intros ap.
  apply never_overwrites_bind; [| intros _]; apply never_overwrites_forM.
  - apply never_overwrites_resolve_property.
  - apply never_overwrites_resolve_missing.
Qed.

(** X19. [resolve_outputs] and [resolve_outputs_due_to_exception] change
    nothing but pending futures of the resolvers they are given, whether they
    return or raise: a future of no resolver stays as it is, so that a
    property of the engine that has no resolver is assigned nowhere, and a
    future that is already done keeps its result. *)
Theorem X19_only_pending_resolver_futures_change (env : settings) (res : resource_obj)
    (serialized outputs : list (string * wire)) (resolvers : list (string * Resolver))
    (e : exn) (loop : gmap nat outcome) (fut : future) :
  (In fut (all_futures resolvers) -> loop !! fut <> None) ->
  snd (resolve_outputs env res serialized outputs resolvers loop) !! fut = loop !! fut /\
  snd (resolve_outputs_due_to_exception resolvers e loop) !! fut = loop !! fut.
Proof.
  intros Hfut. destruct (loop !! fut) as [o |] eqn:Hlook.
  - split.
    + now apply never_overwrites_resolve_outputs.
    + unfold resolve_outputs_due_to_exception.
      apply never_overwrites_forM; [| assumption].
      intros item. apply never_overwrites_resolve.
  - assert (Hout : ~ In fut (all_futures resolvers)) by (intros Hin; now apply Hfut).
    split.
    + rewrite <- Hlook. now apply writes_within_resolve_outputs.
    + rewrite <- Hlook. now apply writes_within_resolve_outputs_due_to_exception.
Qed.

Lemma X19_only_pending_resolver_futures_change_witness :
  snd (resolve_outputs update_run scenario_resource [] [("x", WStr "a"); ("extra", WStr "b")]
         [("x", Build_Resolver 0 1 2)] {[ 1 := Done (PStr "early") ]}) !! 1 =
  ({[ 1 := Done (PStr "early") ]} : gmap nat outcome) !! 1.
Proof.
  apply (X19_only_pending_resolver_futures_change update_run scenario_resource []
           [("x", WStr "a"); ("extra", WStr "b")] [("x", Build_Resolver 0 1 2)]
           (RuntimeError "failed") {[ 1 := Done (PStr "early") ]} 1).
  intros _. discriminate.
Defined.

(** *** Single assignment *)

Lemma poisoning_rejected n r rest e (loop : gmap nat outcome) o :
  loop !! resolve_value r = Some o ->
  resolve_outputs_due_to_exception ((n, r) :: rest) e loop =
  (Raise (InvalidStateError "invalid state"), loop).
Proof.
  intros Hdone. unfold resolve_outputs_due_to_exception. simpl.
  unfold bind, resolve, do_resolve, bind, set_exception. now rewrite Hdone.
Qed.

Lemma await_settled_lookup (loop : gmap nat outcome) fut x :
  await loop fut = Some x -> exists o, loop !! fut = Some o.
Proof. unfold await. destruct (loop !! fut) as [o |]; [eauto | discriminate]. Qed.

(** X20. The slots are assigned once. After [resolve_outputs] has returned
    for a resolver map whose first name is neither id nor urn, and after
    [resolve_outputs_due_to_exception] has returned for a non-empty resolver
    map, a call of [resolve_outputs_due_to_exception] on the same resolvers
    raises [InvalidStateError] and leaves every future as it is. *)
Theorem X20_slots_are_assigned_once (env : settings) (res : resource_obj)
    (serialized outputs : list (string * wire)) (n : string) (r : Resolver)
    (rest : list (string * Resolver)) (e e' : exn) (loop loop' : gmap nat outcome) :
  (is_id_or_urn n = false /\
   resolve_outputs env res serialized outputs ((n, r) :: rest) loop = (Ok tt, loop')) \/
  resolve_outputs_due_to_exception ((n, r) :: rest) e loop = (Ok tt, loop') ->
  resolve_outputs_due_to_exception ((n, r) :: rest) e' loop' =
  (Raise (InvalidStateError "invalid state"), loop').
Proof.
  intros Hfirst.
  assert (Hdone : exists o, loop' !! resolve_value r = Some o).
  { destruct Hfirst as [[Hid Hrun] | Hrun].
    - apply resolve_outputs_returned in Hrun as (ap & loop1 & Hap & Hthird & Hlast).
      destruct (dict_get n ap) as [v |] eqn:Hget.
      + assert (Hr : dict_get n ((n, r) :: rest) = Some r)
          by (simpl; now rewrite String.eqb_refl).
        destruct (resolve_outputs_delivered env ((n, r) :: rest) ap loop loop1 loop' n v r
                    Hthird Hlast (dict_get_In _ _ _ Hget) Hid Hr) as (Hv & _).
        eapply await_settled_lookup, Hv.
      + destruct (resolve_outputs_defaulted env ((n, r) :: rest) ap loop1 loop' n r
                    Hlast (or_introl eq_refl) Hget) as (Hv & _).
        eapply await_settled_lookup, Hv.
    - destruct (forM_returned _ ((n, r) :: rest) (n, r)
                  (fun y => never_overwrites_resolve (snd y) PNone false false (Some e))
                  (or_introl eq_refl) loop loop' Hrun) as (la & lb & Hbody & _ & Hpost).
      apply resolve_returned in Hbody.
      pose proof (Hbody (resolve_value r) (or_introl eq_refl)) as Hv. simpl in Hv.
      apply await_settled_lookup in Hv as [o Ho]. exists o. now apply Hpost. }
  destruct Hdone as [o Ho]. eapply poisoning_rejected, Ho.
Qed.

Lemma X20_slots_are_assigned_once_witness :
  resolve_outputs_due_to_exception [("x", Build_Resolver 0 1 2)] (RuntimeError "late")
    {[ 2 := Done (PBool false); 1 := Done (PBool true); 0 := Done (PStr "final") ]} =
  (Raise (InvalidStateError "invalid state"),
   {[ 2 := Done (PBool false); 1 := Done (PBool true); 0 := Done (PStr "final") ]}).
Proof.
  apply (X20_slots_are_assigned_once update_run scenario_resource [] [("x", WStr "final")]
           "x" (Build_Resolver 0 1 2) [] (RuntimeError "early") (RuntimeError "late") ∅).
  left. split; reflexivity.
Defined.


(** ** Binding the output slots *)

Lemma all_futures_app l1 l2 : all_futures (l1 ++ l2) = all_futures l1 ++ all_futures l2.
Proof. unfold all_futures. apply flat_map_app. Qed.

Lemma existsb_eqb_false name names :
  ~ In name names -> existsb (String.eqb name) names = false.
Proof.
  intros Hnot. destruct (existsb (String.eqb name) names) eqn:E; [| reflexivity].
  apply existsb_exists in E as (n & Hin & Heq). apply String.eqb_eq in Heq. now subst.
Qed.

Lemma existsb_eqb_true name names :
  In name names -> existsb (String.eqb name) names = true.
Proof. intros Hin. apply existsb_exists. exists name. split; [exact Hin | apply String.eqb_refl]. Qed.

Lemma transfer_properties_loop_spec names :
  forall resolvers0 s,
  List.NoDup names ->
  (forall n, In n names -> ~ In n (dict_keys resolvers0)) ->
  settable names s ->
  exists news s',
    transfer_properties_loop names resolvers0 s = (Ok (resolvers0 ++ news), s') /\
    dict_keys news = List.filter (fun n => negb (is_id_or_urn n)) names /\
    all_futures news = seq (created s) (3 * length news) /\
    created s' = created s + 3 * length news /\
    read_only s' = read_only s /\
    (forall name r, In (name, r) news -> dict_get name (attributes s') = Some r) /\
    (forall name, ~ In name (dict_keys news) ->
       dict_get name (attributes s') = dict_get name (attributes s)).
Proof.
  induction names as [| name names IH]; intros resolvers0 s Hnd Hfresh Hset.
  - exists [], s. simpl. rewrite app_nil_r, Nat.add_0_r.
    split; [reflexivity |]. split; [reflexivity |]. split; [reflexivity |].
    split; [reflexivity |]. split; [reflexivity |]. split; [intros ? ? [] | reflexivity].
  - inversion Hnd as [| ? ? Hname Hnd']; subst.
    cbn [transfer_properties_loop List.filter].
    destruct (is_id_or_urn name) eqn:Hid; cbn [negb].
    + apply IH; [assumption | |].
      * intros n Hn. apply Hfresh. now right.
      * intros n Hn. apply Hset. now right.
    + set (slot := {| resolve_value := created s;
                      resolve_is_known := S (created s);
                      resolve_is_secret := S (S (created s)) |}).
      set (s1 := {| created := S (S (S (created s)));
                    attributes := dict_set name slot (attributes s);
                    read_only := read_only s |}).
      assert (Hnew : dict_set name slot resolvers0 = resolvers0 ++ [(name, slot)]).
      { apply dict_set_fresh. apply dict_get_None. apply Hfresh. now left. }
      assert (Hcan : existsb (String.eqb name) (read_only s) = false).
      { apply existsb_eqb_false. apply Hset; [now left | exact Hid]. }
      destruct (IH (resolvers0 ++ [(name, slot)]) s1 Hnd')
        as (news & s' & Hrun & Hkeys & Hfuts & Hcreated & Hro & Hattrs & Hframe).
      { intros n Hn. unfold dict_keys. rewrite map_app, in_app_iff. simpl.
        intros [Hin | [<- | []]]; [| contradiction].
        apply (Hfresh n); [now right | exact Hin]. }
      { intros n Hn. apply Hset. now right. }
      exists ((name, slot) :: news), s'.
      assert (Hnotin : ~ In name (dict_keys news)).
      { rewrite Hkeys. intros Hin. apply filter_In in Hin as [Hin _]. contradiction. }
      split; [| split; [| split; [| split; [| split; [| split]]]]].
      * unfold bind, new_future, set_output_attribute. simpl. rewrite Hcan.
        fold slot. fold s1. rewrite Hnew, Hrun. now rewrite <- app_assoc.
      * cbn [dict_keys map fst]. unfold dict_keys in Hkeys. now rewrite Hkeys.
      * change (all_futures ((name, slot) :: news))
          with (futures_of slot ++ all_futures news).
        rewrite Hfuts.
        change (length ((name, slot) :: news)) with (S (length news)).
        replace (3 * S (length news)) with (S (S (S (3 * length news)))) by lia.
        reflexivity.
      * rewrite Hcreated. simpl. lia.
      * exact Hro.
      * intros name0 r [Heq | Hin]; [| now apply Hattrs].
        injection Heq as <- <-. rewrite (Hframe name Hnotin). simpl. apply dict_get_set_eq.
      * intros name0 Hname0. simpl in Hname0.
        rewrite Hframe by tauto. simpl. apply dict_get_set_ne. tauto.
Qed.

Lemma transfer_properties_spec props s :
  List.NoDup (dict_keys props) ->
  settable (dict_keys props) s ->
  exists resolvers s',
    transfer_properties props s = (Ok resolvers, s') /\
    dict_keys resolvers = List.filter (fun n => negb (is_id_or_urn n)) (dict_keys props) /\
    all_futures resolvers = seq (created s) (3 * length resolvers) /\
    created s' = created s + 3 * length resolvers /\
    read_only s' = read_only s /\
    (forall name r, In (name, r) resolvers -> dict_get name (attributes s') = Some r) /\
    (forall name, ~ In name (dict_keys resolvers) ->
       dict_get name (attributes s') = dict_get name (attributes s)).
Proof.
  intros Hnd Hset. unfold transfer_properties.
  destruct (transfer_properties_loop_spec (dict_keys props) [] s Hnd)
    as (news & s' & Hrun & Hspec); [intros n _ [] | exact Hset |].
  exists news, s'. split; [exact Hrun | exact Hspec].
Qed.

Lemma transfer_properties_ready props s resolvers s' (loop : gmap nat outcome) :
  List.NoDup (dict_keys props) ->
  settable (dict_keys props) s ->
  (forall fut, created s <= fut -> loop !! fut = None) ->
  transfer_properties props s = (Ok resolvers, s') ->
  ready resolvers loop.
Proof.
  intros Hnd Hset Hpending Hrun.
  destruct (transfer_properties_spec props s Hnd Hset)
    as (resolvers1 & s1 & Hrun1 & Hkeys & Hfuts & _).
  rewrite Hrun in Hrun1. injection Hrun1 as <- <-.
  split; [| split].
  - rewrite Hkeys. apply List.NoDup_filter. exact Hnd.
  - rewrite Hfuts. apply seq_NoDup.
  - intros fut Hfut. apply await_pending. apply Hpending.
    rewrite Hfuts in Hfut. apply in_seq in Hfut. lia.
Qed.

Lemma output_attribute_bound props s resolvers s' name :
  List.NoDup (dict_keys props) ->
  settable (dict_keys props) s ->
  transfer_properties props s = (Ok resolvers, s') ->
  In name (dict_keys props) -> is_id_or_urn name = false ->
  exists r, In (name, r) resolvers /\ dict_get name (attributes s') = Some r.
Proof.
  intros Hnd Hset Hrun Hin Hid.
  destruct (transfer_properties_spec props s Hnd Hset)
    as (resolvers1 & s1 & Hrun1 & Hkeys & _ & _ & _ & Hattrs & _).
  rewrite Hrun in Hrun1. injection Hrun1 as <- <-.
  assert (Hkey : In name (dict_keys resolvers)).
  { rewrite Hkeys. apply filter_In. split; [exact Hin | now rewrite Hid]. }
  unfold dict_keys in Hkey. apply in_map_iff in Hkey as ([k r] & Hk & Hkr).
  simpl in Hk. subst k. exists r. split; [exact Hkr | now apply Hattrs].
Qed.

Lemma transfer_properties_loop_app names1 names2 :
  forall resolvers0 s,
  transfer_properties_loop (names1 ++ names2) resolvers0 s =
  bind (transfer_properties_loop names1 resolvers0)
       (transfer_properties_loop names2) s.
Proof.
  induction names1 as [| name names1 IH]; intros resolvers0 s; [reflexivity |].
  cbn [app transfer_properties_loop].
  destruct (is_id_or_urn name); [apply IH |].
  unfold bind, new_future, set_output_attribute. simpl.
  destruct (existsb (String.eqb name) (read_only s)); [reflexivity |].
  rewrite IH. reflexivity.
Qed.

(** X21. On inputs with distinct names that the resource lets
    [__setattr__] assign, [transfer_properties] returns one resolver for each
    input name other than id and urn, in order; the three futures of each
    resolver are newly created, so all of them are distinct and none existed
    before; and the resource gets, under each of these names, an output over
    the very futures of the resolver of that name, while its other attributes
    stay as they are. At the first name that the resource does not let it
    assign, the call raises [AttributeError] instead, and the attributes of
    the names before it are bound all the same. *)
Theorem X21_transfer_properties_binds_fresh_slots (s : construction) :
  (forall props,
     List.NoDup (dict_keys props) ->
     settable (dict_keys props) s ->
     exists resolvers s',
       transfer_properties props s = (Ok resolvers, s') /\
       dict_keys resolvers = List.filter (fun n => negb (is_id_or_urn n)) (dict_keys props) /\
       List.NoDup (all_futures resolvers) /\
       (forall fut, In fut (all_futures resolvers) -> created s <= fut < created s') /\
       (forall name r, In (name, r) resolvers -> dict_get name (attributes s') = Some r) /\
       (forall name, ~ In name (dict_keys resolvers) ->
          dict_get name (attributes s') = dict_get name (attributes s))) /\
  (forall before name v rest,
     List.NoDup (dict_keys before) ->
     settable (dict_keys before) s ->
     is_id_or_urn name = false ->
     In name (read_only s) ->
     exists msg s',
       transfer_properties (before ++ (name, v) :: rest) s =
       (Raise (AttributeError msg), s') /\
       forall n, In n (dict_keys before) -> is_id_or_urn n = false ->
         exists r, dict_get n (attributes s') = Some r).
Proof.
  split.
  - intros props Hnd Hset.
    destruct (transfer_properties_spec props s Hnd Hset)
      as (resolvers & s' & Hrun & Hkeys & Hfuts & Hcreated & _ & Hattrs & Hframe).
    exists resolvers, s'.
    split; [exact Hrun |]. split; [exact Hkeys |].
    split; [rewrite Hfuts; apply seq_NoDup |].
    split; [| split; assumption].
    intros fut Hfut. rewrite Hfuts in Hfut. apply in_seq in Hfut. lia.
  - intros before name v rest Hnd Hset Hid Hro.
    destruct (transfer_properties_spec before s Hnd Hset)
      as (resolvers & s1 & Hrun & Hkeys & _ & _ & Hro1 & Hattrs & _).
    unfold transfer_properties in *.
    unfold dict_keys. rewrite map_app. cbn [map fst].
    fold (dict_keys before). fold (dict_keys rest).
    rewrite transfer_properties_loop_app.
    erewrite bind_ok; [| exact Hrun].
    cbn [transfer_properties_loop]. rewrite Hid.
    unfold bind, new_future, set_output_attribute. cbn [fst snd read_only].
    rewrite Hro1, (existsb_eqb_true name _ Hro).
    eexists. eexists. split; [reflexivity |].
    intros n Hn Hnid. cbn [attributes].
    assert (Hkey : In n (dict_keys resolvers)).
    { rewrite Hkeys. apply filter_In. split; [exact Hn | now rewrite Hnid]. }
    unfold dict_keys in Hkey. apply in_map_iff in Hkey as ([k r] & Hk & Hkr).
    simpl in Hk. subst k. exists r. now apply Hattrs.
Qed.

Lemma X21_transfer_properties_binds_fresh_slots_witness :
  (exists resolvers s',
     transfer_properties [("name", PStr "b"); ("urn", PNone); ("tags", PDict [])]
       {| created := 7; attributes := [("urn", Build_Resolver 0 1 2)];
          read_only := ["urn"; "arn"] |} = (Ok resolvers, s') /\
     dict_keys resolvers = ["name"; "tags"] /\
     all_futures resolvers = [7; 8; 9; 10; 11; 12] /\
     dict_get "tags" (attributes s') = Some (Build_Resolver 10 11 12)) /\
  (exists msg s',
     transfer_properties [("name", PStr "b"); ("arn", PNone); ("tags", PDict [])]
       {| created := 7; attributes := [("urn", Build_Resolver 0 1 2)];
          read_only := ["urn"; "arn"] |} =
     (Raise (AttributeError msg), s') /\
     dict_get "name" (attributes s') = Some (Build_Resolver 7 8 9) /\
     dict_get "tags" (attributes s') = None).
Proof.
  destruct (X21_transfer_properties_binds_fresh_slots
              {| created := 7; attributes := [("urn", Build_Resolver 0 1 2)];
                 read_only := ["urn"; "arn"] |}) as [Hbinds Hstops].
  split.
  - destruct (Hbinds [("name", PStr "b"); ("urn", PNone); ("tags", PDict [])])
      as (resolvers & s' & Hrun & _).
    + simpl. solve_NoDup.
    + intros name Hin Hid. simpl in Hin.
      destruct Hin as [<- | [<- | [<- | []]]]; simpl; try discriminate; intuition discriminate.
    + exists resolvers, s'. split; [exact Hrun |].
      injection Hrun as <- <-. repeat split.
  - destruct (Hstops [("name", PStr "b")] "arn" PNone [("tags", PDict [])])
      as (msg & s' & Hrun & _).
    + simpl. solve_NoDup.
    + intros name Hin Hid. simpl in Hin.
      destruct Hin as [<- | []]. simpl. intuition discriminate.
    + reflexivity.
    + simpl. tauto.
    + exists msg, s'. split; [exact Hrun |].
      injection Hrun as _ <-. split; reflexivity.
Defined.

Lemma poisoning_returns resolvers e (loop : gmap nat outcome) :
  ready resolvers loop ->
  exists loop',
    resolve_outputs_due_to_exception resolvers e loop = (Ok tt, loop') /\
    forall name r, In (name, r) resolvers -> slot_poisoned loop' r e.
Proof.
  intros (_ & Hnd & Hpending).
  set (target := fun item : string * Resolver =>
                   Some (snd item, (PNone, false, false, Some e))).
  destruct (forM_resolves target
              (fun item : string * Resolver => resolve (snd item) PNone false false (Some e))
              resolvers (fun x _ loop => eq_refl) loop Hnd)
    as (loop' & Hrun & Hslots & _).
  { intros fut Hfut. apply await_pending. now apply Hpending. }
  exists loop'. split; [exact Hrun |].
  intros name r Hin. apply (Hslots (name, r) r (PNone, false, false, Some e) Hin eq_refl).
Qed.

(** X22. When creating the resource fails: on inputs with distinct names
    that the resource lets [__setattr__] assign, and an event loop where the
    futures still to be created are pending, [transfer_properties] followed
    by [resolve_outputs_due_to_exception] returns, and then every output
    attribute that the resource got, one for each input name other than id
    and urn, raises the exception when its value, its is-known or its
    is-secret future is awaited. *)
Theorem X22_failed_resource_poisons_every_attribute (props : list (string * pyval))
    (s : construction) (loop : gmap nat outcome) (e : exn) :
  List.NoDup (dict_keys props) ->
  settable (dict_keys props) s ->
  (forall fut, created s <= fut -> loop !! fut = None) ->
  exists resolvers s' loop',
    transfer_properties props s = (Ok resolvers, s') /\
    resolve_outputs_due_to_exception resolvers e loop = (Ok tt, loop') /\
    forall name, In name (dict_keys props) -> is_id_or_urn name = false ->
      exists r, dict_get name (attributes s') = Some r /\ slot_poisoned loop' r e.
Proof.
  intros Hnd Hset Hpending.
  destruct (transfer_properties_spec props s Hnd Hset) as (resolvers & s' & Hrun & _).
  destruct (poisoning_returns resolvers e loop) as (loop' & Hpoison & Hslots).
  { eapply transfer_properties_ready; eassumption. }
  exists resolvers, s', loop'. split; [exact Hrun |]. split; [exact Hpoison |].
  intros name Hin Hid.
  destruct (output_attribute_bound props s resolvers s' name Hnd Hset Hrun Hin Hid)
    as (r & Hr & Hattr).
  exists r. split; [exact Hattr | eapply Hslots, Hr].
Qed.

Lemma X22_failed_resource_poisons_every_attribute_witness :
  exists resolvers s' loop',
    transfer_properties [("name", PStr "b"); ("id", PNone)]
      {| created := 3; attributes := []; read_only := ["id"] |} = (Ok resolvers, s') /\
    resolve_outputs_due_to_exception resolvers (RuntimeError "create failed")
      {[ 0 := Done PNone ]} = (Ok tt, loop') /\
    forall name, In name (dict_keys [("name", PStr "b"); ("id", PNone)]) ->
      is_id_or_urn name = false ->
      exists r, dict_get name (attributes s') = Some r /\
                slot_poisoned loop' r (RuntimeError "create failed").
Proof.
  apply (X22_failed_resource_poisons_every_attribute
           [("name", PStr "b"); ("id", PNone)]
           {| created := 3; attributes := []; read_only := ["id"] |}
           {[ 0 := Done PNone ]} (RuntimeError "create failed")).
  - simpl. solve_NoDup.
  - intros name Hin Hid. simpl in Hin.
    destruct Hin as [<- | [<- | []]]; simpl; [intuition discriminate | discriminate].
  - intros fut Hfut. simpl in Hfut. apply lookup_singleton_ne. lia.
Defined.

(** X23. When creating the resource succeeds: on inputs with distinct names
    that the resource lets [__setattr__] assign, and an event loop where the
    futures still to be created are pending, [transfer_properties] followed
    by [resolve_outputs] returns whenever [all_properties] gets built, and
    then no output attribute of the resource stays pending: the attribute of
    each input name other than id and urn is fulfilled, with the property's
    value, taken out of its secret wrapper if it is one, when
    [all_properties] has the name, and with [None] when it has not. *)
Theorem X23_created_resource_settles_every_attribute (env : settings) (res : resource_obj)
    (props : list (string * pyval)) (s : construction) (loop : gmap nat outcome)
    (serialized outputs : list (string * wire)) (all_properties : list (string * pyval)) :
  List.NoDup (dict_keys props) ->
  settable (dict_keys props) s ->
  (forall fut, created s <= fut -> loop !! fut = None) ->
  all_properties_of env res serialized outputs = Ok all_properties ->
  Forall (fun kv => unwraps (snd kv)) all_properties ->
  exists resolvers s' loop',
    transfer_properties props s = (Ok resolvers, s') /\
    resolve_outputs env res serialized outputs resolvers loop = (Ok tt, loop') /\
    forall name, In name (dict_keys props) -> is_id_or_urn name = false ->
      exists r, dict_get name (attributes s') = Some r /\
        match dict_get name all_properties with
        | None => slot_fulfilled loop' r PNone (negb (is_dry_run env)) false
        | Some v =>
            slot_fulfilled loop' r (stripped v)
              (if is_dry_run env then negb (is_none (stripped v)) else true)
              (is_rpc_secret v)
        end.
Proof.
  intros Hnd Hset Hpending Hap Hunwraps.
  destruct (transfer_properties_spec props s Hnd Hset) as (resolvers & s' & Hrun & _).
  destruct (transfer_properties_ready props s resolvers s' loop Hnd Hset Hpending Hrun)
    as (Hkeys & Hfuts & Hwait).
  destruct (resolve_outputs_resolves env res serialized outputs resolvers all_properties loop
              Hap Hunwraps Hkeys Hfuts Hwait) as (loop' & Hresolve & Hslots).
  exists resolvers, s', loop'. split; [exact Hrun |]. split; [exact Hresolve |].
  intros name Hin Hid.
  destruct (output_attribute_bound props s resolvers s' name Hnd Hset Hrun Hin Hid)
    as (r & Hr & Hattr).
  exists r. split; [exact Hattr |].
  pose proof (Hslots name r Hr) as Hslot.
  destruct (dict_get name all_properties); [now apply Hslot | exact Hslot].
Qed.

Lemma X23_created_resource_settles_every_attribute_witness :
  exists resolvers s' loop',
    transfer_properties [("x", PStr "seed"); ("y", PNone)]
      {| created := 0; attributes := []; read_only := [] |} = (Ok resolvers, s') /\
    resolve_outputs update_run scenario_resource [("x", WStr "seed")] [("x", WStr "final")]
      resolvers ∅ = (Ok tt, loop') /\
    forall name, In name (dict_keys [("x", PStr "seed"); ("y", PNone)]) ->
      is_id_or_urn name = false ->
      exists r, dict_get name (attributes s') = Some r /\
        match dict_get name [("x", PStr "final")] with
        | None => slot_fulfilled loop' r PNone (negb (is_dry_run update_run)) false
        | Some v =>
            slot_fulfilled loop' r (stripped v)
              (if is_dry_run update_run then negb (is_none (stripped v)) else true)
              (is_rpc_secret v)
        end.
Proof.
  apply (X23_created_resource_settles_every_attribute update_run scenario_resource
           [("x", PStr "seed"); ("y", PNone)]
           {| created := 0; attributes := []; read_only := [] |} ∅
           [("x", WStr "seed")] [("x", WStr "final")] [("x", PStr "final")]).
  - simpl. solve_NoDup.
  - intros name _ _ [].
  - intros fut _. reflexivity.
  - reflexivity.
  - repeat constructor.
Defined.


(** ** Assets through the wire *)

Lemma mapM_total {S A B} (f : A -> M S B) (g : A -> B) l s :
  Forall (fun x => forall s, f x s = (Ok (g x), s)) l -> mapM f l s = (Ok (map g l), s).
Proof.
  induction 1 as [| x l Hx Hl IH]; simpl; [reflexivity |].
  erewrite bind_ok; [| apply Hx]. erewrite bind_ok; [| apply IH]. reflexivity.
Qed.

Lemma to_wire_archive_assets a w :
  to_wire a = Ok w ->
  to_wire (PDict [(_special_sig_key, PStr _special_archive_sig); ("assets", a)]) =
  Ok (WStruct [(_special_sig_key, WStr _special_archive_sig); ("assets", w)]).
Proof. intros H. simpl. rewrite H. reflexivity. Qed.

Lemma asset_graph_not_none v : asset_graph v = true -> is_none v = false.
Proof. destruct v; try discriminate; reflexivity. Qed.

Lemma asset_graph_not_secret v : asset_graph v = true -> is_rpc_secret v = false.
Proof.
  destruct v; try discriminate; try reflexivity. simpl. intros H.
  apply andb_true_iff in H as [H _]. apply andb_true_iff in H as [_ Hsig].
  apply negb_true_iff in Hsig. unfold dict_has in Hsig.
  now destruct (dict_get _special_sig_key items).
Qed.

Section AssetRoundTrip.
Variable env : settings.

Lemma serialize_property_archive_assets a path uri :
  serialize_property env None (PArchive (Some a) path uri) =
  (do w <- serialize_property env None a;
   ret (PDict (dict_set "assets" w [(_special_sig_key, PStr _special_archive_sig)]))).
Proof. reflexivity. Qed.

Lemma deserialize_property_archive_assets w a ku :
  deserialize_property env w None = Ok a ->
  deserialize_property env
    (WStruct [(_special_sig_key, WStr _special_archive_sig); ("assets", w)]) ku =
  Ok (PArchive (Some a) None None).
Proof.
  intros Hw. rewrite deserialize_property_struct.
  unfold deserialize_properties, deserialize_properties_of. simpl.
  rewrite Hw. reflexivity.
Qed.

Lemma serialize_property_asset_graph v :
  asset_graph v = true ->
  forall deps, serialize_property env None v deps = (Ok (asset_serialized v), deps).
Proof.
  induction v using pyval_rect'; intros Hg deps; try discriminate.
  - rewrite serialize_property_dict. simpl in Hg.
    apply andb_true_iff in Hg as [Hg Hvalues]. apply andb_true_iff in Hg as [Hkeys _].
    erewrite bind_ok; [reflexivity |].
    rewrite (dict_buildM_entries (transform_key None true) _ items [] deps
               (map asset_serialized (dict_values items)) deps).
    + simpl. unfold transform_key. rewrite map_id. now rewrite combine_keys_map.
    + simpl. unfold transform_key. rewrite map_id. now apply distinct_NoDup.
    + apply mapM_total. unfold dict_values. apply Forall_map.
      rewrite forallb_forall in Hvalues. rewrite Forall_forall in H |- *.
      intros kv Hkv. apply H; [assumption |]. apply Hvalues. now apply list_elem_of_In.
  - destruct path as [[] |]; simpl in Hg; try discriminate;
      destruct text as [[] |]; simpl in Hg; try discriminate;
      destruct uri as [[] |]; simpl in Hg; try discriminate; reflexivity.
  - destruct assets as [[] |]; simpl in Hg; try discriminate;
      destruct path as [[] |]; simpl in Hg; try discriminate;
      destruct uri as [[] |]; simpl in Hg; try discriminate; try reflexivity.
    rewrite serialize_property_archive_assets.
    erewrite bind_ok; [| apply H; exact Hg]. reflexivity.
Qed.

Lemma to_wire_asset_graph v :
  asset_graph v = true -> to_wire (asset_serialized v) = Ok (asset_wire v).
Proof.
  induction v using pyval_rect'; intros Hg; try discriminate.
  - simpl in Hg.
    apply andb_true_iff in Hg as [Hg Hvalues]. apply andb_true_iff in Hg as [Hkeys _].
    change (to_wire (asset_serialized (PDict items))) with
      (try fields <-
         dict_buildR to_wire (fun _ => true)
           (map (fun kv => (fst kv, asset_serialized (snd kv))) items) [];
       Ok (WStruct fields)).
    rewrite (dict_buildR_entries _ _ _ [] (map (fun kv => asset_wire (snd kv)) items)).
    + simpl. rewrite dict_keys_map_values, combine_keys_map_snd, filter_all; [reflexivity |].
      apply Forall_forall. reflexivity.
    + simpl. rewrite dict_keys_map_values. now apply distinct_NoDup.
    + rewrite dict_values_map_values. unfold dict_values. rewrite map_map.
      apply (mapR_map_total _ (fun kv => asset_serialized (snd kv))
               (fun kv : string * pyval => asset_wire (snd kv))).
      rewrite forallb_forall in Hvalues. rewrite Forall_forall in H |- *.
      intros kv Hkv. apply H; [assumption |]. apply Hvalues. now apply list_elem_of_In.
  - destruct path as [[] |]; simpl in Hg; try discriminate;
      destruct text as [[] |]; simpl in Hg; try discriminate;
      destruct uri as [[] |]; simpl in Hg; try discriminate; reflexivity.
  - destruct assets as [[] |]; simpl in Hg; try discriminate;
      destruct path as [[] |]; simpl in Hg; try discriminate;
      destruct uri as [[] |]; simpl in Hg; try discriminate; try reflexivity.
    apply to_wire_archive_assets. apply H. exact Hg.
Qed.

Lemma deserialize_property_asset_graph v :
  asset_graph v = true ->
  forall ku, deserialize_property env (asset_wire v) ku = Ok v.
Proof.
  induction v using pyval_rect'; intros Hg ku; try discriminate.
  - simpl in Hg.
    apply andb_true_iff in Hg as [Hg Hvalues]. apply andb_true_iff in Hg as [Hkeys Hsig].
    apply negb_true_iff in Hsig. unfold dict_has in Hsig.
    destruct (dict_get _special_sig_key items) eqn:Esig; [discriminate |]. clear Hsig.
    assert (Hitems : Forall (fun kv => deserialize_property env (asset_wire (snd kv)) ku
                                       = Ok (snd kv) /\ asset_graph (snd kv) = true) items).
    { rewrite forallb_forall in Hvalues. rewrite Forall_forall in H |- *.
      intros x Hx. pose proof Hx as Hx'. apply list_elem_of_In in Hx'. auto. }
    change (asset_wire (PDict items)) with
      (WStruct (map (fun kv => (fst kv, asset_wire (snd kv))) items)).
    set (fields := map (fun kv => (fst kv, asset_wire (snd kv))) items).
    assert (Hsigf : dict_get _special_sig_key fields = None).
    { unfold fields. now rewrite dict_get_map_values, Esig. }
    assert (Hprops : deserialize_properties env fields ku = Ok (PDict items)).
    { rewrite (deserialize_properties_plain _ _ _ Hsigf).
      rewrite (dict_buildR_entries _ _ _ [] (dict_values items)).
      - simpl. unfold fields. rewrite dict_keys_map_values, combine_keys_values.
        rewrite filter_all; [reflexivity |].
        eapply Forall_impl; [exact Hitems |]. intros kv [_ Hkv].
        now rewrite (asset_graph_not_none _ Hkv).
      - simpl. unfold fields. rewrite dict_keys_map_values. now apply distinct_NoDup.
      - unfold fields. rewrite dict_values_map_values.
        unfold dict_values. rewrite map_map.
        apply (mapR_map_total _ (fun kv => asset_wire (snd kv))
                 (fun kv : string * pyval => snd kv)).
        eapply Forall_impl; [exact Hitems |]. now intros x [Hx _]. }
    rewrite (deserialize_property_struct_of _ _ _ _ Hsigf Hprops).
    assert (existsb is_rpc_secret (dict_values items) = false) as ->; [| reflexivity].
    clear -Hitems.
    induction Hitems as [| [k x] l [_ Hx] _ IH]; [reflexivity |].
    simpl in *. now rewrite (asset_graph_not_secret _ Hx), IH.
  - destruct path as [[] |]; simpl in Hg; try discriminate;
      destruct text as [[] |]; simpl in Hg; try discriminate;
      destruct uri as [[] |]; simpl in Hg; try discriminate; reflexivity.
  - destruct assets as [[] |]; simpl in Hg; try discriminate;
      destruct path as [[] |]; simpl in Hg; try discriminate;
      destruct uri as [[] |]; simpl in Hg; try discriminate; try reflexivity.
    change (asset_wire (PArchive (Some (PDict items)) None None)) with
      (WStruct [(_special_sig_key, WStr _special_archive_sig);
                ("assets", asset_wire (PDict items))]).
    apply deserialize_property_archive_assets. apply H. exact Hg.
Qed.
End AssetRoundTrip.

(** X24. Assets and archives come back from the wire as they went: an asset
    with one of path, text, uri, an archive with one of path, uri or with a
    dict of assets and archives under distinct names, at any depth of
    nesting, and a dict of such values, serialize, go into a [Struct] and
    deserialize to themselves, in an update and in a preview, whatever
    [keep_unknowns] is. *)
Theorem X24_assets_roundtrip (env : settings) (keep_unknowns : option bool) (v : pyval) :
  asset_graph v = true ->
  roundtrip env keep_unknowns v = Ok v.
Proof.
  intros Hg. unfold roundtrip.
  rewrite (serialize_property_asset_graph env v Hg).
  rewrite (to_wire_asset_graph v Hg). cbn [rbind].
  now apply deserialize_property_asset_graph.
Qed.

Lemma X24_assets_roundtrip_witness :
  roundtrip preview_run None
    (PArchive
       (Some (PDict [("index.html", PAsset None (Some (PStr "<html/>")) None);
                     ("lib", PArchive None (Some (PStr "./lib")) None);
                     ("remote", PAsset None None (Some (PStr UNKNOWN)))]))
       None None) =
  Ok (PArchive
        (Some (PDict [("index.html", PAsset None (Some (PStr "<html/>")) None);
                      ("lib", PArchive None (Some (PStr "./lib")) None);
                      ("remote", PAsset None None (Some (PStr UNKNOWN)))]))
        None None).
Proof.
  apply (X24_assets_roundtrip preview_run None
           (PArchive
              (Some (PDict [("index.html", PAsset None (Some (PStr "<html/>")) None);
                            ("lib", PArchive None (Some (PStr "./lib")) None);
                            ("remote", PAsset None None (Some (PStr UNKNOWN)))]))
              None None)).
  reflexivity.
Defined.


(** ** The entries of [serialize_properties] *)

Section SerializePropertiesEntries.
Variable env : settings.
Variable t : option (string -> string).

Lemma serialize_properties_loop_entries inputs :
  forall struct pd0 fields pd,
  List.NoDup (map (translated_name t) (dict_keys inputs)) ->
  serialize_properties_loop env t inputs struct pd0 = (Ok fields, pd) ->
  (forall name, ~ In name (map (translated_name t) (dict_keys inputs)) ->
     dict_get name fields = dict_get name struct /\ dict_get name pd = dict_get name pd0) /\
  (forall k v, In (k, v) inputs ->
     exists p deps,
       serialize_property env t v [] = (Ok p, deps) /\
       if is_none p then
         dict_get (translated_name t k) fields = dict_get (translated_name t k) struct /\
         dict_get (translated_name t k) pd = dict_get (translated_name t k) pd0
       else
         (exists w, to_wire p = Ok w /\ dict_get (translated_name t k) fields = Some w) /\
         dict_get (translated_name t k) pd = Some deps).
Proof.
  induction inputs as [| [k v] inputs IH]; intros struct pd0 fields pd Hnd Hrun.
  - injection Hrun as <- <-. split; [auto | intros ? ? []].
  - simpl in Hnd. inversion Hnd as [| ? ? Hfresh Hnd']; subst.
    simpl in Hrun.
    apply bind_inv_ok in Hrun as (struct' & pd1 & Hstep & Hrun).
    destruct (IH _ _ _ _ Hnd' Hrun) as [Hframe Hentries].
    unfold serialize_properties_step in Hstep.
    apply bind_inv_ok in Hstep as ([p deps] & pd0' & Hser & Hstep).
    unfold with_fresh_deps in Hser.
    destruct (serialize_property env t v []) as [[p' | e] deps'] eqn:Hv; [| discriminate].
    injection Hser as <- <- <-.
    cbv zeta in Hstep. cbn [fst snd] in Hstep.
    assert (Hhead :
              if is_none p' then struct' = struct /\ pd1 = pd0
              else exists w, to_wire p' = Ok w /\
                     struct' = dict_set (translated_name t k) w struct /\
                     pd1 = dict_set (translated_name t k) deps' pd0).
    { destruct (is_none p').
      - unfold ret in Hstep. injection Hstep as <- <-. auto.
      - apply bind_inv_ok in Hstep as (w & pd2 & Hw & Hstep).
        unfold lift in Hw. destruct (to_wire p') as [w' |]; [| discriminate].
        injection Hw as <- <-.
        apply bind_inv_ok in Hstep as ([] & pd3 & Hmod & Hstep).
        unfold modify in Hmod. injection Hmod as <-.
        unfold ret in Hstep. injection Hstep as <- <-. eauto. }
    split.
    + intros name Hname. simpl in Hname.
      destruct (Hframe name) as [Hf Hp]; [tauto |]. rewrite Hf, Hp.
      destruct (is_none p').
      * destruct Hhead as [-> ->]. auto.
      * destruct Hhead as (w & _ & -> & ->).
        rewrite !dict_get_set_ne by tauto. auto.
    + intros k0 v0 [Heq | Hin].
      * injection Heq as <- <-. exists p', deps'. split; [exact Hv |].
        destruct (Hframe (translated_name t k) Hfresh) as [Hf Hp]. rewrite Hf, Hp.
        destruct (is_none p').
        -- destruct Hhead as [-> ->]. auto.
        -- destruct Hhead as (w & Hw & -> & ->).
           rewrite !dict_get_set_eq. eauto.
      * destruct (Hentries k0 v0 Hin) as (p & deps & Hp & Hentry).
        exists p, deps. split; [exact Hp |].
        assert (Hne : translated_name t k <> translated_name t k0).
        { intros Heq. apply Hfresh. rewrite Heq.
          apply in_map. now apply (in_map fst) in Hin. }
        destruct (is_none p); [| exact Hentry].
        destruct Hentry as [Hf Hp']. rewrite Hf, Hp'.
        destruct (is_none p').
        -- destruct Hhead as [-> ->]. auto.
        -- destruct Hhead as (w & _ & -> & ->).
           rewrite !dict_get_set_ne by assumption. auto.
Qed.
End SerializePropertiesEntries.

(** X25. When the translated names of the inputs are distinct and
    [serialize_properties], started with an empty [property_deps], returns:
    each input property was serialized with a dependency list of its own,
    started empty; a property whose value serialized to [None] has no entry
    in the [Struct] and none in [property_deps]; every other property has,
    under its translated name, its serialized value in the [Struct] and
    exactly its own dependencies in [property_deps]. *)
Theorem X25_each_property_has_its_own_entry (env : settings) (t : option (string -> string))
    (inputs : list (string * pyval)) (fields : list (string * wire))
    (property_deps : list (string * list resource)) :
  List.NoDup (map (translated_name t) (dict_keys inputs)) ->
  serialize_properties env t inputs [] = (Ok (WStruct fields), property_deps) ->
  forall k v, In (k, v) inputs ->
    exists p deps,
      serialize_property env t v [] = (Ok p, deps) /\
      if is_none p then
        dict_get (translated_name t k) fields = None /\
        dict_get (translated_name t k) property_deps = None
      else
        (exists w, to_wire p = Ok w /\ dict_get (translated_name t k) fields = Some w) /\
        dict_get (translated_name t k) property_deps = Some deps.
Proof.
  intros Hnd Hrun k v Hin. unfold serialize_properties in Hrun.
  apply bind_inv_ok in Hrun as (struct & pd & Hrun & Hret).
  unfold ret in Hret. injection Hret as <- <-.
  destruct (serialize_properties_loop_entries env t inputs [] [] struct pd Hnd Hrun)
    as [_ Hentries].
  exact (Hentries k v Hin).
Qed.

Lemma X25_each_property_has_its_own_entry_witness :
  exists p deps,
    serialize_property update_run None
      (PList [PCustomResource "urn:b" (PStr "b-1")]) [] = (Ok p, deps) /\
    if is_none p then
      dict_get "second" [("first", WStr "a-1"); ("second", WList [WStr "b-1"])] = None /\
      dict_get "second" [("first", ["urn:a"]); ("second", ["urn:b"])] = None
    else
      (exists w, to_wire p = Ok w /\
         dict_get "second" [("first", WStr "a-1"); ("second", WList [WStr "b-1"])] = Some w) /\
      dict_get "second" [("first", ["urn:a"]); ("second", ["urn:b"])] = Some deps.
Proof.
  apply (X25_each_property_has_its_own_entry update_run None
           [("first", PCustomResource "urn:a" (PStr "a-1"));
            ("none", POutput ["urn:c"] true false PNone);
            ("second", PList [PCustomResource "urn:b" (PStr "b-1")])]
           [("first", WStr "a-1"); ("second", WList [WStr "b-1"])]
           [("first", ["urn:a"]); ("second", ["urn:b"])]
           ltac:(simpl; solve_NoDup) eq_refl
           "second" (PList [PCustomResource "urn:b" (PStr "b-1")])).
  simpl. tauto.
Defined.

(** ** The declared types of a class *)

Lemma _output_types_loop_keeps props name :
  forall types0 types,
  _output_types_loop props types0 = Ok types ->
  ~ In name (map (fun p => fst (snd p)) props) ->
  dict_get name types = dict_get name types0.
Proof.
  induction props as [| [py [prop hint]] props IH]; intros types0 types Hrun Hname;
    simpl in *.
  - now injection Hrun as <-.
  - apply rbind_inv_ok in Hrun as (ty & _ & Hrun).
    rewrite (IH _ _ Hrun) by tauto. apply dict_get_set_ne. tauto.
Qed.

Lemma _output_types_loop_get props py prop hint :
  forall types0 types,
  List.NoDup (map (fun p => fst (snd p)) props) ->
  In (py, (prop, hint)) props ->
  _output_types_loop props types0 = Ok types ->
  exists ty, unwrap hint = Ok ty /\ dict_get prop types = Some ty.
Proof.
  induction props as [| [py' [prop' hint']] props IH]; intros types0 types Hnd Hin Hrun;
    simpl in *; [contradiction |].
  inversion Hnd as [| ? ? Hfresh Hnd']; subst.
  apply rbind_inv_ok in Hrun as (ty & Hty & Hrun).
  destruct Hin as [Heq | Hin].
  - injection Heq as -> -> ->. exists ty. split; [exact Hty |].
    rewrite (_output_types_loop_keeps _ prop _ _ Hrun Hfresh). apply dict_get_set_eq.
  - eapply IH; eassumption.
Qed.




(** ** What the marshalling functions can raise *)

Lemma mapM_raise_inv {S A B} (f : A -> M S B) l :
  forall s e s',
  mapM f l s = (Raise e, s') -> exists x s0 s1, In x l /\ f x s0 = (Raise e, s1).
Proof.
  induction l as [| x l IH]; intros s e s' H; simpl in H; [discriminate |].
  apply bind_inv in H as [(y & s1 & Hy & H) | (e' & Hx & Heq)].
  - apply bind_inv in H as [(ys & s2 & Hys & H) | (e' & Hl & Heq)]; [discriminate |].
    injection Heq as <-.
    destruct (IH _ _ _ Hl) as (x' & s0 & s3 & Hin & Hx').
    exists x', s0, s3. split; [now right | exact Hx'].
  - injection Heq as <-. exists x, s, s'. split; [now left | exact Hx].
Qed.

Lemma dict_buildM_raise_inv {S A B} key (f : A -> M S B) items :
  forall obj s e s',
  dict_buildM key f items obj s = (Raise e, s') ->
  exists kv s0 s1, In kv items /\ f (snd kv) s0 = (Raise e, s1).
Proof.
  induction items as [| [k v] items IH]; intros obj s e s' H; simpl in H; [discriminate |].
  apply bind_inv in H as [(y & s1 & Hy & H) | (e' & Hx & Heq)].
  - destruct (IH _ _ _ _ H) as (kv & s0 & s2 & Hin & Hkv).
    exists kv, s0, s2. split; [now right | exact Hkv].
  - injection Heq as <-. exists (k, v), s, s'. split; [now left | exact Hx].
Qed.

Section SerializerFailures.
Variable env : settings.
Variable t : option (string -> string).

Lemma serialize_property_raises v :
  forall deps err deps',
  serialize_property env t v deps = (Raise err, deps') ->
  In err (failures v) \/
  (exists msg, err = AssertionError msg) \/ (exists msg, err = ValueError msg).
Proof.
  induction v using pyval_deep_ind; intros deps err deps' Hrun;
    try (simpl in Hrun; discriminate).
  - rewrite serialize_property_list in Hrun.
    apply bind_inv in Hrun as [(ys & s1 & _ & Hret) | (e' & Hl & Heq)]; [discriminate |].
    injection Heq as <-.
    apply mapM_raise_inv in Hl as (x & s0 & s1 & Hin & Hx).
    rewrite Forall_forall in H.
    destruct (H x (proj2 (list_elem_of_In _ _) Hin) _ _ _ Hx) as [Hf | Hother]; [left | now right].
    simpl. apply in_flat_map. eauto.
  - rewrite serialize_property_dict in Hrun.
    apply bind_inv in Hrun as [(ys & s1 & _ & Hret) | (e' & Hl & Heq)]; [discriminate |].
    injection Heq as <-.
    apply dict_buildM_raise_inv in Hl as (kv & s0 & s1 & Hin & Hx).
    rewrite Forall_forall in H.
    destruct (H kv (proj2 (list_elem_of_In _ _) Hin) _ _ _ Hx) as [Hf | Hother]; [left | now right].
    simpl. apply in_flat_map. eauto.
  - simpl in Hrun.
    apply bind_inv in Hrun as [([] & s1 & _ & Hrun) | (e' & Hl & _)]; [| discriminate].
    apply IHv in Hrun. exact Hrun.
  - simpl in Hrun.
    destruct path as [p |]; [| destruct text as [x |]; [| destruct uri as [u |]]];
      simpl in *;
      try (apply bind_inv in Hrun as [(y & s1 & _ & Hret) | (e' & Hl & Heq)];
           [discriminate | injection Heq as <-]).
    + apply H in Hl as [Hf | Hother]; [left | now right].
      simpl. rewrite ?in_app_iff. tauto.
    + apply H0 in Hl as [Hf | Hother]; [left | now right].
      simpl. rewrite ?in_app_iff. tauto.
    + apply H1 in Hl as [Hf | Hother]; [left | now right].
      simpl. rewrite ?in_app_iff. tauto.
    + injection Hrun as <- _. right. left. eauto.
  - simpl in Hrun.
    destruct assets as [p |]; [| destruct path as [x |]; [| destruct uri as [u |]]];
      simpl in *;
      try (apply bind_inv in Hrun as [(y & s1 & _ & Hret) | (e' & Hl & Heq)];
           [discriminate | injection Heq as <-]).
    + apply H in Hl as [Hf | Hother]; [left | now right].
      simpl. rewrite ?in_app_iff. tauto.
    + apply H0 in Hl as [Hf | Hother]; [left | now right].
      simpl. rewrite ?in_app_iff. tauto.
    + apply H1 in Hl as [Hf | Hother]; [left | now right].
      simpl. rewrite ?in_app_iff. tauto.
    + injection Hrun as <- _. right. left. eauto.
  - simpl in *. eauto.
  - simpl in Hrun. injection Hrun as <- _. left. simpl. tauto.
  - rewrite serialize_property_output in Hrun.
    apply bind_inv in Hrun as [([] & s1 & _ & Hrun) | (e' & Hl & _)]; [| discriminate].
    apply bind_inv in Hrun as [(value & s2 & _ & Hret) | (e' & Hl & Heq)].
    + destruct (negb k); [discriminate |]. destruct (s && _); discriminate.
    + injection Heq as <-. apply IHv in Hl. exact Hl.
  - rewrite serialize_property_input_type_dict in Hrun.
    apply bind_inv in Hrun as [(ys & s1 & _ & Hret) | (e' & Hl & Heq)]; [discriminate |].
    injection Heq as <-.
    apply dict_buildM_raise_inv in Hl as (kv & s0 & s1 & Hin & Hx).
    rewrite Forall_forall in H.
    destruct (H kv (proj2 (list_elem_of_In _ _) Hin) _ _ _ Hx) as [Hf | Hother]; [left | now right].
    simpl. apply in_flat_map. eauto.
  - rewrite serialize_property_input_type_instance, serialize_property_input_type_dict
      in Hrun.
    apply bind_inv in Hrun as [(ys & s1 & _ & Hret) | (e' & Hl & Heq)]; [discriminate |].
    injection Heq as <-.
    apply dict_buildM_raise_inv in Hl as (kv & s0 & s1 & Hin & Hx).
    rewrite Forall_forall in H.
    destruct (H kv (proj2 (list_elem_of_In _ _) Hin) _ _ _ Hx) as [Hf | Hother]; [left | now right].
    simpl. apply in_flat_map. eauto.
  - destruct to_dict as [d |].
    + rewrite serialize_property_input_type_other in Hrun by assumption.
      destruct (isLegalProtobufValue d); [discriminate |].
      injection Hrun as <- _. right. right. eauto.
    + simpl in Hrun. injection Hrun as <- _. right. left. eauto.
  - rewrite serialize_property_instance, serialize_property_dict in Hrun.
    apply bind_inv in Hrun as [(ys & s1 & _ & Hret) | (e' & Hl & Heq)]; [discriminate |].
    injection Heq as <-.
    apply dict_buildM_raise_inv in Hl as (kv & s0 & s1 & Hin & Hx).
    rewrite Forall_forall in H.
    destruct (H kv (proj2 (list_elem_of_In _ _) Hin) _ _ _ Hx) as [Hf | Hother]; [left | now right].
    simpl. apply in_flat_map. eauto.
  - rewrite serialize_property_instance_other in Hrun by assumption.
    injection Hrun as <- _. right. right. eauto.
  - simpl in Hrun. injection Hrun as <- _. right. right. eauto.
Qed.
End SerializerFailures.

(** X27. [serialize_property] raises nothing but: the exception of an
    awaitable of the graph that completes by raising, re-raised as it is;
    [AssertionError], for an asset or archive without any of its fields and
    for an input type without [_to_dict]; and [ValueError], for a value of an
    unsupported type. *)
Theorem X27_serializer_failures (env : settings) (t : option (string -> string)) (v : pyval)
    (deps : list resource) (e : exn) (deps' : list resource) :
  serialize_property env t v deps = (Raise e, deps') ->
  In e (failures v) \/
  (exists msg, e = AssertionError msg) \/ (exists msg, e = ValueError msg).
Proof. apply serialize_property_raises. Qed.

Lemma X27_serializer_failures_witness :
  In (RuntimeError "lookup failed")
    (failures (PDict [("a", PNum 1);
                      ("b", POutput ["urn:r"] true false
                              (PAwaitable (PList [PFailed (RuntimeError "lookup failed")])))])) \/
  (exists msg, RuntimeError "lookup failed" = AssertionError msg) \/
  (exists msg, RuntimeError "lookup failed" = ValueError msg).
Proof.
  apply (X27_serializer_failures update_run None
           (PDict [("a", PNum 1);
                   ("b", POutput ["urn:r"] true false
                           (PAwaitable (PList [PFailed (RuntimeError "lookup failed")])))])
           [] (RuntimeError "lookup failed") ["urn:r"]).
  reflexivity.
Defined.

Section DeserializerFailures.
Variable env : settings.

Lemma unwrap_rpc_secret_defined items :
  Forall (fun kv : string * pyval => unwraps (snd kv)) items ->
  exists raw, dict_buildR unwrap_rpc_secret (fun _ => true) items [] = Ok raw.
Proof.
  intros H. apply dict_buildR_defined.
  eapply Forall_impl; [exact H |]. intros kv Hkv. now exists (stripped (snd kv)).
Qed.

Lemma deserialize_property_raises w :
  forall ku err,
  asset_free w = true ->
  deserialize_property env w ku = Raise err ->
  err = AssertionError "Unrecognized signature when unmarshalling resource property" \/
  err = ValueError "Value not set".
Proof.
  induction w using wire_rect'; intros ku err Hfree Hrun; try discriminate.
  - simpl in Hrun. destruct (String.eqb s UNKNOWN); discriminate.
  - simpl in Hfree. apply forallb_Forall in Hfree.
    destruct (mapR (fun v => deserialize_property env v ku) values) as [ys | e'] eqn:Hys.
    + rewrite (deserialize_property_list_of env _ _ _ Hys) in Hrun. discriminate.
    + rewrite deserialize_property_list, Hys in Hrun. injection Hrun as <-.
      apply mapR_raise_inv in Hys. apply Exists_exists in Hys as (x & Hin & Hx).
      rewrite Forall_forall in H, Hfree. eapply H; [eassumption | | exact Hx].
      now apply Hfree.
  - simpl in Hfree. apply andb_true_iff in Hfree as [Hsigned Hfree].
    apply forallb_Forall in Hfree. rewrite Forall_forall in H, Hfree.
    rewrite deserialize_property_struct in Hrun.
    destruct (deserialize_properties env fields ku) as [props | e'] eqn:Hprops.
    + exfalso. cbn [rbind] in Hrun.
      destruct props; try discriminate.
      destruct (existsb is_rpc_secret (dict_values items)); [| discriminate].
      assert (Hitems : Forall (fun kv : string * pyval => unwraps (snd kv)) items).
      { destruct (dict_get _special_sig_key fields) as [sig |] eqn:Hsig.
        - destruct (deserialize_properties_signed _ _ _ _ _ Hsig Hprops)
            as [(_ & [(a & b & c & Heq) | [(b & c & Heq) | (w & assets & _ & _ & Heq)]])
               | (_ & w & payload & _ & Hpayload & Heq)]; try discriminate.
          injection Heq as ->.
          repeat constructor. eapply deserialize_property_unwraps, Hpayload.
        - now destruct (deserialize_properties_plain_items _ _ _ _ Hsig Hprops) as (_ & ? & _). }
      destruct (unwrap_rpc_secret_defined items Hitems) as [raw Hraw].
      rewrite Hraw in Hrun. discriminate.
    + injection Hrun as <-.
      unfold deserialize_properties, deserialize_properties_of in Hprops.
      destruct (dict_get _special_sig_key fields) as [sig |] eqn:Hsig.
      * apply andb_true_iff in Hsigned as [Hasset Harchive].
        apply negb_true_iff in Hasset, Harchive. rewrite Hasset, Harchive in Hprops.
        destruct (wire_eq_str sig _special_secret_sig).
        { rewrite dict_get_with_get in Hprops.
          destruct (dict_get "value" fields) as [a |] eqn:Ha; simpl in Hprops.
          - destruct (deserialize_property env a None) as [payload | e''] eqn:Hpayload;
              simpl in Hprops; [discriminate |].
            injection Hprops as <-. apply dict_get_In in Ha.
            pose proof (proj2 (list_elem_of_In _ _) Ha) as Hin.
            apply (H ("value", a) Hin None); [| exact Hpayload].
            now apply (Hfree ("value", a)).
          - injection Hprops as <-. now right. }
        injection Hprops as <-. now left.
      * destruct (dict_buildR _ _ fields []) as [out | e''] eqn:Hout; simpl in Hprops;
          [discriminate |].
        injection Hprops as <-. apply dict_buildR_raise_inv in Hout.
        apply Exists_exists in Hout as (kv & Hin & Hkv).
        eapply H; [eassumption | | exact Hkv]. now apply Hfree.
Qed.

Lemma deserialize_property_unsigned w :
  unsigned w = true -> forall ku, exists v, deserialize_property env w ku = Ok v.
Proof.
  induction w using wire_rect'; intros Hw ku; try (eexists; reflexivity).
  - simpl. destruct (String.eqb s UNKNOWN); eexists; reflexivity.
  - simpl in Hw. apply forallb_Forall in Hw.
    destruct (mapR_defined (fun v => deserialize_property env v ku) values) as [ys Hys].
    { eapply Forall_and_impl; [exact H | exact Hw |]. intros x Hx Hwx. now apply Hx. }
    rewrite (deserialize_property_list_of env _ _ _ Hys). eauto.
  - simpl in Hw. apply andb_true_iff in Hw as [Hsig Hw].
    apply negb_true_iff in Hsig. apply dict_has_false in Hsig.
    apply forallb_Forall in Hw.
    destruct (dict_buildR_defined (fun v => deserialize_property env v ku)
                (fun value => negb (is_none value)) fields) with (obj := @nil (string * pyval))
      as [items Hitems].
    { eapply Forall_and_impl; [exact H | exact Hw |]. intros x Hx Hwx. now apply Hx. }
    assert (Hprops : deserialize_properties env fields ku = Ok (PDict items)).
    { rewrite (deserialize_properties_plain _ _ _ Hsig), Hitems. reflexivity. }
    rewrite (deserialize_property_struct_of _ _ _ _ Hsig Hprops). eauto.
Qed.
End DeserializerFailures.

(** X28. On a value none of whose maps is signed as an asset or as an
    archive, so that no asset and no archive is constructed,
    [deserialize_property] raises nothing but the [AssertionError] of an
    unrecognized signature and the [ValueError] of a map signed as a secret
    that has no value: unwrapping the secrets it found never fails with
    [KeyError]. On a value none of whose maps carries the signature key it
    always returns. *)
Theorem X28_deserializer_failures (env : settings) (w : wire) (keep_unknowns : option bool) :
  (asset_free w = true ->
   forall e,
     deserialize_property env w keep_unknowns = Raise e ->
     e = AssertionError "Unrecognized signature when unmarshalling resource property" \/
     e = ValueError "Value not set") /\
  (unsigned w = true -> exists v, deserialize_property env w keep_unknowns = Ok v).
Proof.
  split.
  - intros Hfree e. now apply deserialize_property_raises.
  - intros Hw. now apply deserialize_property_unsigned.
Qed.

Lemma X28_deserializer_failures_witness :
  (ValueError "Value not set" =
     AssertionError "Unrecognized signature when unmarshalling resource property" \/
   ValueError "Value not set" = ValueError "Value not set") /\
  exists v,
    deserialize_property preview_run
      (WList [WStr UNKNOWN; WStruct [("inner", WStruct [("n", WNull)])]]) None = Ok v.
Proof.
  split.
  - apply (proj1 (X28_deserializer_failures update_run
                    (WList [WNum 1;
                            WStruct [("token",
                                      WStruct [(_special_sig_key, WStr _special_secret_sig)])]])
                    None)).
    + reflexivity.
    + reflexivity.
  - apply (proj2 (X28_deserializer_failures preview_run
                    (WList [WStr UNKNOWN; WStruct [("inner", WStruct [("n", WNull)])]]) None)).
    reflexivity.
Defined.
